(** * OM parallelization fabric: a shallow embedding and its properties

    The development follows three source modules of OM:
    - [om/utils/parameters.py]: the typed configuration accessor
      [MonitorParams.get_param];
    - [om/data_retrieval_layer/data_event_handlers_psana.py]: the offline
      event generator that slices a run among the processing nodes;
    - [om/parallelization_layer/mpi.py]: the collecting-node loop, the
      processing-node loop and the shutdown procedure.

    Python integers are unbounded and are modelled by [Z]; dictionaries with
    string keys are [gmap string _]; calls with an observable effect (MPI
    calls, calls into the processing layer, process exit) are recorded in a
    trace of [Action]s. *)

From Stdlib Require Import ZArith Lia.
From stdpp Require Import base option list gmap strings pretty fin_maps.

Local Open Scope string_scope.
Local Open Scope list_scope.
Local Open Scope Z_scope.

(** ** Python values *)

(** The values that can sit in a YAML tree, an event dictionary or a message
    payload.  A float is kept as a pair mantissa/exponent: no arithmetic is
    done on it here.  [VObject] stands for any other object (arrays, psana
    handles), identified by a number. *)
#[local] Unset Elimination Schemes.
Inductive pyval : Type :=
| VNone
| VBool (b : bool)
| VInt (z : Z)
| VFloat (m e : Z)
| VStr (s : string)
| VBytes (bs : list Z)
| VList (l : list pyval)
| VDict (d : list (string * pyval))
| VObject (id : positive).
#[local] Set Elimination Schemes.

(** The classes that may be passed as [parameter_type]. *)
Inductive pytype : Type :=
| TBool | TInt | TFloat | TStr | TBytes | TList | TDict.

(** [isinstance(v, t)]: [bool] is a subclass of [int], every other class
    listed here has no subclass among the values above. *)
Definition isinstance (v : pyval) (t : pytype) : bool :=
  match t, v with
  | TBool, VBool _ => true
  | TInt, VInt _ => true
  | TInt, VBool _ => true
  | TFloat, VFloat _ _ => true
  | TStr, VStr _ => true
  | TBytes, VBytes _ => true
  | TList, VList _ => true
  | TDict, VDict _ => true
  | _, _ => false
  end.

(** [isinstance(v, basestring)] with [past.builtins.basestring]: under
    Python 3 its instance check accepts [str] and [bytes]. *)
Definition isinstance_basestring (v : pyval) : bool :=
  isinstance v TStr || isinstance v TBytes.

(** [v is None]. *)
Definition is_None (v : pyval) : bool :=
  match v with VNone => true | _ => false end.

(** A Python dictionary with string keys. *)
Abbreviation Dict := (gmap string pyval).

(** [k in d.keys()]. *)
Definition dict_has_key (d : Dict) (k : string) : bool :=
  match d !! k with Some _ => true | None => false end.

(** [d.get(k)]: the value, or [None] when the key is absent. *)
Definition dict_get (d : Dict) (k : string) : pyval :=
  default VNone (d !! k).

(** [range(a, b)]: the integers from [a] up to [b - 1], none when [b <= a]. *)
Definition py_range (a b : Z) : list Z := seqZ a (b - a).

(** ** om/utils/parameters.py *)

Module Parameters.

(** The exceptions of [om.utils.exceptions] raised by the accessor. *)
Inductive OmException : Type :=
| OmMissingParameterGroupError
| OmMissingParameterError
| OmWrongParameterTypeError.

(** Outcome of a call: a returned value or a raised exception. *)
Inductive Result : Type :=
| Return (v : pyval)
| Raise (e : OmException).

(** [MonitorParams]: the parsed YAML document, a map from group names to
    maps from parameter names to values. *)
Record MonitorParams : Type := mkMonitorParams {
  _monitor_params : gmap string Dict
}.

(** [MonitorParams.get_param].  The object is threaded through the call so
    that its state after the call can be compared with the one before. *)
Definition get_param (self : MonitorParams) (group parameter : string)
    (parameter_type : option pytype) (required : bool)
    : Result * MonitorParams :=
  match _monitor_params self !! group with
  | None => (Raise OmMissingParameterGroupError, self)
  | Some grp =>
      let ret := dict_get grp parameter in
      if is_None ret && required then
        (Raise OmMissingParameterError, self)
      else
        match parameter_type with
        | Some ty =>
            if negb (is_None ret) then
              match ty with
              | TStr =>
                  if negb (isinstance_basestring ret)
                  then (Raise OmWrongParameterTypeError, self)
                  else (Return ret, self)
              | TFloat =>
                  if negb (isinstance ret TFloat) && negb (isinstance ret TInt)
                  then (Raise OmWrongParameterTypeError, self)
                  else (Return ret, self)
              | _ =>
                  if negb (isinstance ret ty)
                  then (Raise OmWrongParameterTypeError, self)
                  else (Return ret, self)
              end
            else (Return ret, self)
        | None => (Return ret, self)
        end
  end.

(** The values the accessor lets through for a requested type [t]: the
    instances of [t] and, beyond them, an integer where a float is requested
    and a byte string where a string is requested.  This is wider than
    [isinstance v t]. *)
Definition type_matches (t : pytype) (v : pyval) : Prop :=
  isinstance v t = true
  \/ (t = TFloat /\ isinstance v TInt = true)
  \/ (t = TStr /\ isinstance v TBytes = true).

(** The widened type test of [get_param], as one boolean. *)
Definition accepts (t : pytype) (v : pyval) : bool :=
  match t with
  | TStr => isinstance_basestring v
  | TFloat => isinstance v TFloat || isinstance v TInt
  | _ => isinstance v t
  end.

(** A small configuration used in the examples below: one group, with a
    frame limit, an integer beam energy and a null calibration directory. *)
Definition example_group : Dict :=
  <["num_frames_in_event_to_process" := VInt 2]>
    (<["fallback_beam_energy_in_eV" := VInt 9000]>
       {[ "psana_calibration_directory" := VNone ]}).

Definition example_params : MonitorParams :=
  mkMonitorParams {[ "data_retrieval_layer" := example_group ]}.

End Parameters.

(** ** om/data_retrieval_layer/data_event_handlers_psana.py *)

Module Psana.

(** [l[start:stop]] on a Python sequence: a negative bound counts from the
    end, and both bounds are clipped to the length. *)
Definition py_slice {A : Type} (l : list A) (start stop : Z) : list A :=
  let len := Z.of_nat (length l) in
  let norm := fun i : Z => if i <? 0 then Z.max (i + len) 0 else Z.min i len in
  let lo := norm start in
  let hi := norm stop in
  if lo <? hi then take (Z.to_nat (hi - lo)) (drop (Z.to_nat lo) l) else [].

(** [int(numpy.ceil(len(times) / float(mpi_pool_size - 1)))].  The quotient
    is a double in the source; for lengths below 2^53 the rounded quotient
    has the same ceiling as the exact one, which is what is computed here.
    A pool of one node has no processing node: the division raises
    [ZeroDivisionError], rendered by [None]. *)
Definition num_events_curr_node (len mpi_pool_size : Z) : option Z :=
  if mpi_pool_size - 1 =? 0 then None
  else Some (- ((- len) `div` (mpi_pool_size - 1))).

Section Generator.

(** A psana run, its event times and the events they designate. *)
Context {Run Time Event : Type}.
Variable run_times : Run -> list Time.
Variable run_event : Run -> Time -> Event.

(** The slice [events_curr_node] of one run for the node [node_rank]. *)
Definition events_curr_node (times : list Time) (node_rank mpi_pool_size : Z)
    : option (list Time) :=
  num ← num_events_curr_node (Z.of_nat (length times)) mpi_pool_size;
  Some (py_slice times ((node_rank - 1) * num) (node_rank * num)).

(** [_psana_offline_event_generator]: the events yielded, in order, over all
    the runs of the source ([None] when the generator raises). *)
Fixpoint _psana_offline_event_generator (runs : list Run)
    (node_rank mpi_pool_size : Z) : option (list Event) :=
  match runs with
  | [] => Some []
  | run :: runs' =>
      evs ← events_curr_node (run_times run) node_rank mpi_pool_size;
      rest ← _psana_offline_event_generator runs' node_rank mpi_pool_size;
      Some (map (run_event run) evs ++ rest)
  end.

End Generator.

(** The ranks of the processing nodes of a pool: [1 .. mpi_pool_size - 1]. *)
Definition processing_ranks (mpi_pool_size : Z) : list Z :=
  py_range 1 mpi_pool_size.

(** The slices of one run taken by the processing nodes, by increasing rank. *)
Definition slices_of_pool {Time : Type} (times : list Time) (mpi_pool_size : Z)
    : option (list (list Time)) :=
  mapM (fun node_rank => events_curr_node times node_rank mpi_pool_size)
       (processing_ranks mpi_pool_size).

End Psana.

(** ** om/parallelization_layer/mpi.py *)

Module Mpi.

Definition _DIETAG : Z := 999.
Definition _DEADTAG : Z := 1000.

(** Events and extracted data are dictionaries; a message on the channel to
    the collecting node is a pair of a dictionary and the rank of its sender
    ([Tuple[Dict[str, Any], int]]). *)
Abbreviation Event := Dict.
Abbreviation Data := Dict.
Definition Message : Type := Dict * Z.

(** The calls a node makes that are visible outside [start] and [shutdown]:
    output, calls into the two other layers, MPI calls, process exit.  A
    request returned by [isend] is named by a number. *)
Inductive Action : Type :=
| Print (s : string)
| InitializeCollectingNode (node_rank node_pool_size : Z)
| InitializeProcessingNode (node_rank node_pool_size : Z)
| CollectData (node_rank node_pool_size : Z) (processed_data : Message)
| EndProcessingOnCollectingNode (node_rank node_pool_size : Z)
| EndProcessingOnProcessingNode (node_rank node_pool_size : Z)
| OpenEvent (event : Event)
| ExtractData (event : Event)
| ProcessData (node_rank node_pool_size : Z) (data : Data)
| CloseEvent (event : Event)
| IsendData (req : nat) (obj : Message) (dest tag : Z)
| ReqWait (req : nat)
| IsendDie (dest tag : Z)
| RecvDiscard
| MpiFinalize
| MpiAbort (errorcode : Z)
| Exit (code : Z).

(** How a node's run stands once its input is used up: the process has
    exited with a status, it is still inside a loop, waiting, or an
    exception of the named class has left [start] uncaught. *)
Inductive Outcome : Type :=
| Exited (code : Z)
| Blocked
| Raised (exc : string).

(** The fields of [MpiParallelization] set by [__init__]. *)
Record MpiParallelization : Type := mkMpi {
  _rank : Z;
  _mpi_size : Z;
  _num_frames_in_event_to_process : option Z;
  _num_nomore : Z;
  _num_collected_events : Z
}.

(** [__init__] on the node [rank] of a pool of [mpi_size] nodes. *)
Definition init (rank mpi_size : Z) (num_frames : option Z) : MpiParallelization :=
  mkMpi rank mpi_size num_frames 0 0.

Definition set_num_nomore (self : MpiParallelization) (v : Z) : MpiParallelization :=
  mkMpi (_rank self) (_mpi_size self) (_num_frames_in_event_to_process self)
        v (_num_collected_events self).

Definition set_num_collected_events (self : MpiParallelization) (v : Z)
    : MpiParallelization :=
  mkMpi (_rank self) (_mpi_size self) (_num_frames_in_event_to_process self)
        (_num_nomore self) v.

(** *** [shutdown] *)

(** What one turn of the confirmation loop of [shutdown] observes: the two
    [Iprobe] results (a message with tag 0 pending, a message with tag
    [_DEADTAG] pending), or a [RuntimeError] raised by an MPI call. *)
Inductive ShutdownObs : Type :=
| Probed (data_pending dead_pending : bool)
| RuntimeError.

(** The [while True] loop of [shutdown] on the collecting node.  With no
    observation left the loop is still running. *)
Fixpoint shutdown_confirm_loop (self : MpiParallelization)
    (num_shutdown_confirm : Z) (obs : list ShutdownObs) : list Action * Outcome :=
  match obs with
  | [] => ([], Blocked)
  | RuntimeError :: _ => ([MpiAbort 0; Exit 0], Exited 0)
  | Probed data_pending dead_pending :: obs' =>
      let received := if data_pending then [RecvDiscard] else [] in
      let num_shutdown_confirm :=
        if dead_pending then num_shutdown_confirm + 1 else num_shutdown_confirm in
      if num_shutdown_confirm =? _mpi_size self - 1 then
        (received ++ [MpiFinalize; Exit 0], Exited 0)
      else
        let '(acts, out) := shutdown_confirm_loop self num_shutdown_confirm obs' in
        (received ++ acts, out)
  end.

(** [shutdown(msg)].  On the collecting node: a [DIE] to every processing
    node, then the confirmation loop.  On a processing node the call
    [MPI.COMM_WORLD.send(dest=0, tag=_DEADTAG)] names no object to send;
    [send] of mpi4py requires one, so the call raises [TypeError] before
    anything is sent, and [MPI.Finalize()] and [exit(0)] are not reached. *)
Definition shutdown (self : MpiParallelization) (msg : string)
    (obs : list ShutdownObs) : list Action * Outcome :=
  if _rank self =? 0 then
    let '(acts, out) := shutdown_confirm_loop self 0 obs in
    (Print ("Shutting down: " ++ msg)
       :: map (fun node_num => IsendDie node_num _DIETAG)
              (py_range 1 (_mpi_size self))
       ++ acts, out)
  else
    ([Print ("Shutting down: " ++ msg)], Raised "TypeError").

(** *** [start] on the collecting node *)

(** What the blocking [recv] of the collecting loop yields: a message, or a
    [KeyboardInterrupt] (followed by what the shutdown loop then observes). *)
Inductive Incoming : Type :=
| Recv (received_data : Message)
| KeyboardInterrupt (exc : string) (obs : list ShutdownObs).

(** The [while True] loop of [start] on the collecting node.  [shutdown] does
    not return on rank 0, so the two statements after its call in the
    interrupt handler are never reached. *)
Fixpoint collecting_loop (self : MpiParallelization) (incoming : list Incoming)
    : MpiParallelization * list Action * Outcome :=
  match incoming with
  | [] => (self, [], Blocked)
  | Recv received_data :: incoming' =>
      if dict_has_key received_data.1 "end" then
        let self := set_num_nomore self (_num_nomore self + 1) in
        if _num_nomore self =? _mpi_size self - 1 then
          (self,
           [Print ("Finalizing " ++ pretty received_data.2);
            Print "All processing nodes have run out of events.";
            Print "Shutting down.";
            EndProcessingOnCollectingNode (_rank self) (_mpi_size self);
            MpiFinalize;
            Exit 0],
           Exited 0)
        else
          let '(self', acts, out) := collecting_loop self incoming' in
          (self', Print ("Finalizing " ++ pretty received_data.2) :: acts, out)
      else
        let self :=
          set_num_collected_events self (_num_collected_events self + 1) in
        let '(self', acts, out) := collecting_loop self incoming' in
        (self',
         CollectData (_rank self) (_mpi_size self) received_data :: acts, out)
  | KeyboardInterrupt exc obs :: _ =>
      let '(acts, out) := shutdown self "Reason not provided." obs in
      (self,
       Print "Received keyboard sigterm..." :: Print exc
         :: Print "shutting down MPI." :: acts,
       out)
  end.

(** [start] when [_rank = 0]. *)
Definition start_collecting (self : MpiParallelization) (incoming : list Incoming)
    : MpiParallelization * list Action * Outcome :=
  let '(self', acts, out) := collecting_loop self incoming in
  (self',
   Print ("You are using an OM real-time monitor. Please cite: "
          ++ "Mariani et al., J Appl Crystallogr. 2016 May 23;49(Pt 3):1073-1080")
     :: InitializeCollectingNode (_rank self) (_mpi_size self) :: acts,
   out).

(** The three components of the result of a run of the collecting node. *)
Definition state_of (r : MpiParallelization * list Action * Outcome)
    : MpiParallelization := r.1.1.
Definition trace_of (r : MpiParallelization * list Action * Outcome)
    : list Action := r.1.2.
Definition outcome_of (r : MpiParallelization * list Action * Outcome)
    : Outcome := r.2.

(** The test the collecting node applies to a message. *)
Definition is_end (m : Message) : bool := dict_has_key m.1 "end".

(** How many messages of a list pass that test. *)
Definition count_end (msgs : list Message) : Z :=
  Z.of_nat (length (filter (fun m => is_end m = true) msgs)).

(** The distinct ranks that sent the messages passing that test. *)
Definition end_ranks (msgs : list Message) : list Z :=
  remove_dups (map snd (filter (fun m => is_end m = true) msgs)).

(** The messages received before the first interrupt. *)
Fixpoint received (incoming : list Incoming) : list Message :=
  match incoming with
  | Recv m :: incoming' => m :: received incoming'
  | _ => []
  end.

(** Among [msgs], some message is an [END] that brings the count of [END]s,
    started at [_num_nomore self], to the number of processing nodes. *)
Definition reaches_all_ends (self : MpiParallelization) (msgs : list Message)
    : Prop :=
  exists pre m post,
    msgs = pre ++ m :: post
    /\ is_end m = true
    /\ _num_nomore self + count_end (pre ++ [m]) = _mpi_size self - 1.

(** Calls of [end_processing_on_collecting_node] in a trace. *)
Definition is_flush (a : Action) : bool :=
  match a with EndProcessingOnCollectingNode _ _ => true | _ => false end.

Definition flush_count (trace : list Action) : nat :=
  length (filter (fun a => is_flush a = true) trace).

(** The messages handed to [collect_data] in a trace, in order. *)
Definition collected (trace : list Action) : list Message :=
  omap (fun a => match a with CollectData _ _ m => Some m | _ => None end) trace.

(** The destinations of the [DIE] messages of a trace, in order. *)
Definition die_dests (trace : list Action) : list Z :=
  omap (fun a => match a with IsendDie dest _ => Some dest | _ => None end) trace.

(** How many observations of a shutdown see a [DEAD] message pending. *)
Definition dead_seen (o : ShutdownObs) : bool :=
  match o with Probed _ dead_pending => dead_pending | RuntimeError => false end.

Definition dead_count (obs : list ShutdownObs) : Z :=
  Z.of_nat (length (filter (fun o => dead_seen o = true) obs)).





(** *** [start] on a processing node *)

(** The Data Retrieval Layer as the loop uses it.  [open_event] may fill the
    event dictionary; [extract_data] returns the data or raises
    [OmDataExtractionError] with a message ([inr]), the one exception the
    loop catches.  A layer that raises anything else is not described by
    this class: the loop has no handler for it, and the run ends there. *)
Class OmDataEventHandler : Type := {
  open_event : Event -> Event;
  get_num_frames_in_event : Event -> Z;
  extract_data : Event -> Data + string
}.

(** The Processing Layer as the loop uses it, with its own state [PState]. *)
Class OmProcessing : Type := {
  PState : Type;
  process_data : Z -> Z -> PState -> Data -> Message * PState;
  end_processing_on_processing_node : Z -> Z -> PState -> option Dict * PState
}.

Section ProcessingNode.

Context `{Handler : OmDataEventHandler} `{Processing : OmProcessing}.

(** The local variables of [start] that live across iterations: [req] (a
    request is truthy while it is active, [None] stands for Python's [None]
    and for a request that has been waited for), the number that names the
    next request, and the state of the Processing Layer. *)
Record Locals : Type := mkLocals {
  req : option nat;
  next_req : nat;
  pstate : PState
}.

(** [if req: req.Wait()]. *)
Definition wait_if_req (st : Locals) : list Action * Locals :=
  match req st with
  | Some r => ([ReqWait r], mkLocals None (next_req st) (pstate st))
  | None => ([], st)
  end.

(** [num_frames_to_process]. *)
Definition num_frames_to_process (self : MpiParallelization) (n_frames_in_evt : Z)
    : Z :=
  match _num_frames_in_event_to_process self with
  | Some limit => Z.min n_frames_in_evt limit
  | None => n_frames_in_evt
  end.

(** The inner [for frame_offset in range(-num_frames_to_process, 0)] loop. *)
Fixpoint frame_loop (self : MpiParallelization) (event : Event)
    (n_frames_in_evt : Z) (offsets : list Z) (st : Locals)
    : list Action * Locals * Event :=
  match offsets with
  | [] => ([], st, event)
  | frame_offset :: offsets' =>
      let current_frame := n_frames_in_evt + frame_offset in
      let event := <["current_frame" := VInt current_frame]> event in
      match extract_data event with
      | inr exc =>
          let '(acts, st', event') :=
            frame_loop self event n_frames_in_evt offsets' st in
          (ExtractData event :: Print exc :: Print "Skipping event..." :: acts,
           st', event')
      | inl data =>
          let '(processed_data, ps) :=
            process_data (_rank self) (_mpi_size self) (pstate st) data in
          let '(waits, st) := wait_if_req st in
          let r := next_req st in
          let st := mkLocals (Some r) (S r) ps in
          let '(acts, st', event') :=
            frame_loop self event n_frames_in_evt offsets' st in
          (ExtractData event
             :: ProcessData (_rank self) (_mpi_size self) data
             :: waits ++ IsendData r processed_data 0 0 :: acts,
           st', event')
      end
  end.

(** The body of the outer loop for one event. *)
Definition process_event (self : MpiParallelization) (event : Event) (st : Locals)
    : list Action * Locals :=
  let opened := open_event event in
  let n_frames_in_evt := get_num_frames_in_event opened in
  let k := num_frames_to_process self n_frames_in_evt in
  let '(acts, st, event') :=
    frame_loop self opened n_frames_in_evt (py_range (- k) 0) st in
  let '(waits, st) := wait_if_req st in
  (OpenEvent event :: acts ++ waits ++ [CloseEvent event'], st).

(** The outer [for event in events] loop.  Each event comes with the result
    of the [Iprobe] for a [DIE] message made when it is reached.  The result
    is [Some out] when the loop ended in [shutdown], which ended with [out]. *)
Fixpoint event_loop (self : MpiParallelization) (events : list (bool * Event))
    (st : Locals) : list Action * Locals * option Outcome :=
  match events with
  | [] => ([], st, None)
  | (die, event) :: events' =>
      if die then
        let '(acts, out) :=
          shutdown self ("Shutting down RANK: " ++ pretty (_rank self) ++ ".") []
        in (acts, st, Some out)
      else
        let '(acts, st) := process_event self event st in
        let '(acts', st', out) := event_loop self events' st in
        (acts ++ acts', st', out)
  end.

(** The [END] sentinel. *)
Definition end_dict : Dict := {[ "end" := VBool true ]}.

(** What follows the outer loop: the final payload, if any, and the [END]
    sentinel, each sent and waited for. *)
Definition finish (self : MpiParallelization) (st : Locals) : list Action :=
  let '(final_data, ps) :=
    end_processing_on_processing_node (_rank self) (_mpi_size self) (pstate st) in
  let '(final_acts, st) :=
    match final_data with
    | Some d =>
        let r := next_req st in
        ([IsendData r (d, _rank self) 0 0; ReqWait r],
         mkLocals None (S r) ps)
    | None => ([], mkLocals (req st) (next_req st) ps)
    end in
  let r := next_req st in
  EndProcessingOnProcessingNode (_rank self) (_mpi_size self)
    :: final_acts
    ++ [IsendData r (end_dict, _rank self) 0 0; ReqWait r; MpiFinalize; Exit 0].

(** [start] when [_rank <> 0]. *)
Definition start_processing (self : MpiParallelization)
    (events : list (bool * Event)) (ps0 : PState) : list Action * Outcome :=
  let '(acts, st, out) := event_loop self events (mkLocals None 0%nat ps0) in
  let init_act := InitializeProcessingNode (_rank self) (_mpi_size self) in
  match out with
  | Some out => (init_act :: acts, out)
  | None => (init_act :: acts ++ finish self st, Exited 0)
  end.

(** The payloads the Processing Layer returns for a list of data, its state
    going from one call to the next. *)
Fixpoint payloads (self : MpiParallelization) (ps : PState) (ds : list Data)
    : list Message :=
  match ds with
  | [] => []
  | d :: ds' =>
      let '(m, ps') := process_data (_rank self) (_mpi_size self) ps d in
      m :: payloads self ps' ds'
  end.

(** The data of the events, of a list, whose extraction succeeds. *)
Definition extractable (events : list Event) : list Data :=
  omap (fun event => match extract_data event with
                     | inl data => Some data
                     | inr _ => None
                     end) events.

(** The messages of the events, of a list, whose extraction fails. *)
Definition failures (events : list Event) : list string :=
  omap (fun event => match extract_data event with
                     | inl _ => None
                     | inr exc => Some exc
                     end) events.

End ProcessingNode.

(** The last [k] frames of an event of [n] frames, in increasing order:
    [n - k], [n - k + 1], ..., [n - 1]. *)
Definition last_frames (n k : Z) : list Z := seqZ (n - k) k.

(** An event dictionary with its current frame set. *)
Definition at_frame (event : Event) (f : Z) : Event :=
  <["current_frame" := VInt f]> event.

(** *** The transport, as far as sends are concerned *)

(** A send is pending from the [isend] that starts it until the [Wait] on
    its request returns; its message is then with the receiver. *)
Record Net : Type := mkNet {
  pending : list (nat * Message);
  delivered : list Message
}.

Definition net_step (net : Net) (a : Action) : Net :=
  match a with
  | IsendData r obj _ _ => mkNet (pending net ++ [(r, obj)]) (delivered net)
  | ReqWait r =>
      mkNet (filter (fun p => p.1 <> r) (pending net))
            (delivered net ++ map snd (filter (fun p => p.1 = r) (pending net)))
  | _ => net
  end.

(** The transport after a trace, from an idle one. *)
Definition net_after (trace : list Action) : Net :=
  fold_left net_step trace (mkNet [] []).

(** The messages whose send a trace starts, in order. *)
Definition sent (trace : list Action) : list Message :=
  omap (fun a => match a with IsendData _ obj _ _ => Some obj | _ => None end) trace.

(** The values [current_frame] takes in a trace, in order. *)
Definition frames_visited (trace : list Action) : list pyval :=
  omap (fun a => match a with
                 | ExtractData event => event !! "current_frame"
                 | _ => None
                 end) trace.

(** The events passed to [extract_data], the data passed to [process_data]
    and the events passed to [close_event] in a trace, in order. *)
Definition extracted (trace : list Action) : list Event :=
  omap (fun a => match a with ExtractData event => Some event | _ => None end)
       trace.

Definition processed (trace : list Action) : list Data :=
  omap (fun a => match a with ProcessData _ _ data => Some data | _ => None end)
       trace.

Definition closed (trace : list Action) : list Event :=
  omap (fun a => match a with CloseEvent event => Some event | _ => None end)
       trace.

(** The lines printed in a trace, in order. *)
Definition printed (trace : list Action) : list string :=
  omap (fun a => match a with Print s => Some s | _ => None end) trace.

(** What is printed for a list of extraction errors. *)
Definition skip_log (excs : list string) : list string :=
  flat_map (fun exc => [exc; "Skipping event..."]) excs.

(** The discipline of a trace run from a transport [net]: a send is started
    and an event is closed only when no send is pending, and at no point are
    two sends pending. *)
Fixpoint one_in_flight (net : Net) (trace : list Action) : Prop :=
  match trace with
  | [] => True
  | a :: trace' =>
      match a with
      | IsendData _ _ _ _ | CloseEvent _ => pending net = []
      | _ => True
      end
      /\ (length (pending (net_step net a)) <= 1)%nat
      /\ one_in_flight (net_step net a) trace'
  end.

(** The variable [req] and the transport agree: the one send that may be
    pending is the one [req] names. *)
Definition req_tracks `{Processing : OmProcessing} (st : Locals) (net : Net)
    : Prop :=
  match req st with
  | Some r => exists m, pending net = [(r, m)]
  | None => pending net = []
  end.

(** The actions that neither touch the sends nor close an event. *)
Definition is_quiet (a : Action) : bool :=
  match a with
  | IsendData _ _ _ _ | ReqWait _ | CloseEvent _ => false
  | _ => true
  end.

(** *** A handler and a processing layer for the examples *)

(** Events carry their number of frames under ["num_frames"] and, possibly,
    under ["bad_frame"] the index of a frame that cannot be extracted. *)
Definition example_handler : OmDataEventHandler := {|
  open_event := fun event => event;
  get_num_frames_in_event := fun event =>
    match event !! "num_frames" with Some (VInt n) => n | _ => 1 end;
  extract_data := fun event =>
    match event !! "current_frame" with
    | Some (VInt f) =>
        match event !! "bad_frame" with
        | Some (VInt b) =>
            if f =? b then inr "cannot read frame"
            else inl {[ "frame" := VInt f ]}
        | _ => inl {[ "frame" := VInt f ]}
        end
    | _ => inr "no current frame"
    end
|}.

(** The payload is the data; the state counts the frames processed. *)
Definition example_processing : OmProcessing := {|
  PState := Z;
  process_data := fun node_rank _ ps data => ((data, node_rank), ps + 1);
  end_processing_on_processing_node := fun _ _ ps =>
    (Some {[ "processed_frames" := VInt ps ]}, ps)
|}.

(** The local variables when [start] enters its loop. *)
Definition example_locals : @Locals example_processing :=
  @mkLocals example_processing None 0%nat 0.

(** An event of five frames, and one of four frames whose frame 1 fails. *)
Definition example_event : Event := {[ "num_frames" := VInt 5 ]}.
Definition example_bad_event : Event :=
  {[ "num_frames" := VInt 4; "bad_frame" := VInt 1 ]}.

(** *** Further readings of a trace *)

(** The events passed to [open_event] in a trace, in order. *)
Definition opened (trace : list Action) : list Event :=
  omap (fun a => match a with OpenEvent event => Some event | _ => None end)
       trace.

(** The order of the calls of [open_event] ([true]) and [close_event]
    ([false]) in a trace. *)
Definition lifecycle (trace : list Action) : list bool :=
  omap (fun a => match a with
                 | OpenEvent _ => Some true
                 | CloseEvent _ => Some false
                 | _ => None
                 end) trace.

(** The calls that end a run in good order: the last call into the
    Processing Layer, [MPI.Finalize], [Abort], [exit]. *)
Definition ends_run (a : Action) : bool :=
  match a with
  | EndProcessingOnProcessingNode _ _ | EndProcessingOnCollectingNode _ _
  | MpiFinalize | MpiAbort _ | Exit _ => true
  | _ => false
  end.

(** The events the outer loop reaches before a [DIE] message is seen. *)
Fixpoint events_before_die (events : list (bool * Event)) : list Event :=
  match events with
  | (false, event) :: events' => event :: events_before_die events'
  | _ => []
  end.

(** The messages of a list that the collecting node takes for data. *)
Definition data_messages (msgs : list Message) : list Message :=
  filter (fun m => is_end m = false) msgs.

(** [m] is an interleaving of the lists [ls]: it takes the elements of each
    list in the order of that list. *)
Inductive Interleaving {A : Type} : list (list A) -> list A -> Prop :=
| interleaving_done (ls : list (list A)) :
    Forall (fun l => l = []) ls -> Interleaving ls []
| interleaving_step (pre : list (list A)) (x : A) (l : list A)
    (post : list (list A)) (m : list A) :
    Interleaving (pre ++ l :: post) m ->
    Interleaving (pre ++ (x :: l) :: post) (x :: m).

(** What a processing node that runs to the end of its events sends: data
    messages, then one [END] message. *)
Definition complete_stream (s : list Message) : Prop :=
  exists (data : list Message) (e : Message),
    s = data ++ [e]
    /\ Forall (fun m => is_end m = false) data
    /\ is_end e = true.

End Mpi.

(** ** The psana Data Event Handler *)

Module PsanaHandler.

(** [needle in s] on strings. *)
Fixpoint contains (needle s : string) : bool :=
  String.prefix needle s
  || match s with
     | EmptyString => false
     | String _ s' => contains needle s'
     end.

(** [s[-n:]]: the last [n] characters of [s], all of [s] when it is shorter. *)
Definition py_last (n : nat) (s : string) : string :=
  String.substring (String.length s - n) n s.

(** The first statements of [event_generator]: a source is online when it
    names a shared memory server; an offline source gets the suffix [:idx]
    unless it has it.  The result is the flag [offline] and the new value of
    [self._source]. *)
Definition event_generator_source (source : string) : bool * string :=
  let offline := negb (contains "shmem" source) in
  if offline && negb (String.eqb (py_last 4 source) ":idx")
  then (offline, source +:+ ":idx")
  else (offline, source).

(** [get_num_frames_in_event]: a psana event holds one frame. *)
Definition get_num_frames_in_event (event : Dict) : Z := 1.

(** An exception, as [extract_data] reads it from [sys.exc_info()]: the name
    of its type, its text, and whether its type derives from [Exception]
    ([KeyboardInterrupt], [SystemExit] and [GeneratorExit] do not), which is
    what [except Exception] tests. *)
Record PyExc : Type := mkExc {
  exc_type_name : string;
  exc_value : string;
  exc_is_Exception : bool
}.

(** A Data Source: [get_data] on an event gives a value or raises. *)
Definition DataSource : Type := Dict -> pyval + PyExc.

(** The fields of [PsanaDataEventHandler] that [extract_data] reads.  The
    required sources are listed in the order of iteration;
    [_lcls_extra] lists the items of the dictionary, in the order of
    iteration. *)
Record PsanaDataEventHandler : Type := mkHandler {
  _data_sources : gmap string DataSource;
  _required_data_sources : list string;
  _lcls_extra : option (list (string * DataSource))
}.

(** How a call of [extract_data] ends: with the data, with an
    [OmDataExtractionError], or with another exception, which the method
    does not catch. *)
Inductive Extraction : Type :=
| Extracted (data : Dict)
| OmDataExtractionError (msg : string)
| Uncaught (exc : PyExc).

(** [l[k]] and [l[k] = v] on the items of a dictionary. *)
Fixpoint assoc_get (l : list (string * pyval)) (k : string) : option pyval :=
  match l with
  | [] => None
  | (k', v) :: l' => if String.eqb k' k then Some v else assoc_get l' k
  end.

Fixpoint assoc_set (l : list (string * pyval)) (k : string) (v : pyval)
    : list (string * pyval) :=
  match l with
  | [] => [(k, v)]
  | (k', v') :: l' =>
      if String.eqb k' k then (k, v) :: l' else (k', v') :: assoc_set l' k v
  end.

Section ExtractData.

(** [repr] of a string, which is the text of a [KeyError], and the exception
    raised by [v["timestamp"]] when [v] is not a dictionary. *)
Variable py_repr : string -> string.
Variable subscript_error : pyval -> PyExc.

(** [event["additional_info"]["timestamp"]]. *)
Definition timestamp_of (event : Dict) : pyval + PyExc :=
  match event !! "additional_info" with
  | None => inr (mkExc "KeyError" (py_repr "additional_info") true)
  | Some (VDict info) =>
      match assoc_get info "timestamp" with
      | Some ts => inl ts
      | None => inr (mkExc "KeyError" (py_repr "timestamp") true)
      end
  | Some v => inr (subscript_error v)
  end.

(** [self._data_sources[source_name].get_data(event=event)]. *)
Definition get_data_of (self : PsanaDataEventHandler) (source_name : string)
    (event : Dict) : pyval + PyExc :=
  match _data_sources self !! source_name with
  | Some source => source event
  | None => inr (mkExc "KeyError" (py_repr source_name) true)
  end.

(** The text of the [OmDataExtractionError]. *)
Definition extraction_message (source_name : string) (exc : PyExc) : string :=
  "OM Warning: Cannot interpret " +:+ source_name
    +:+ " event data due to the following error: "
    +:+ exc_type_name exc +:+ ": " +:+ exc_value exc.

(** The loop over the required sources: [except Exception] turns an
    exception whose type derives from [Exception] into an
    [OmDataExtractionError]; any other one goes through. *)
Fixpoint extract_required (self : PsanaDataEventHandler) (names : list string)
    (event : Dict) (data : Dict) : Extraction :=
  match names with
  | [] => Extracted data
  | source_name :: names' =>
      match get_data_of self source_name event with
      | inl v => extract_required self names' event (<[source_name := v]> data)
      | inr exc =>
          if exc_is_Exception exc
          then OmDataExtractionError (extraction_message source_name exc)
          else Uncaught exc
      end
  end.

(** The loop over the LCLS-specific sources: exceptions are not caught. *)
Fixpoint extract_lcls (items : list (string * DataSource)) (event : Dict)
    (acc : list (string * pyval)) : list (string * pyval) + PyExc :=
  match items with
  | [] => inl acc
  | (name, source) :: items' =>
      match source event with
      | inl v => extract_lcls items' event (assoc_set acc name v)
      | inr exc => inr exc
      end
  end.

(** [extract_data]. *)
Definition extract_data (self : PsanaDataEventHandler) (event : Dict)
    : Extraction :=
  match timestamp_of event with
  | inr exc => Uncaught exc
  | inl ts =>
      match extract_required self (_required_data_sources self) event
                             (<["timestamp" := ts]> ∅) with
      | Extracted data =>
          match _lcls_extra self with
          | Some (item :: items) =>
              match extract_lcls (item :: items) event [] with
              | inl extra => Extracted (<["lcls_extra" := VDict extra]> data)
              | inr exc => Uncaught exc
              end
          | _ => Extracted data
          end
      | raised => raised
      end
  end.

(** [if self._lcls_extra:], the dictionary being non-empty. *)
Definition has_lcls_extra (self : PsanaDataEventHandler) : bool :=
  match _lcls_extra self with
  | Some (_ :: _) => true
  | _ => false
  end.

(** The source [source_name] gives a value for the event. *)
Definition source_succeeds (self : PsanaDataEventHandler) (event : Dict)
    (source_name : string) : Prop :=
  exists v, get_data_of self source_name event = inl v.

End ExtractData.

(** *** [event_generator]: the loop over the psana events *)

Section EventGenerator.

(** [repr] of a string, and the exception raised by [v["timestamp"] = ts]
    when [v] is not a dictionary. *)
Variable py_repr : string -> string.
Variable assignment_error : pyval -> PyExc.

(** One turn of the loop.  The generator yields the same dictionary
    [data_event] every time, so a turn starts from the dictionary as the
    consumer of the previous event has left it.  The right-hand side of
    [data_event["additional_info"]["timestamp"] = ...] is evaluated before
    its target.  The result is the dictionary at the [yield], or the
    exception that leaves the generator. *)
Definition next_event (timestamp : DataSource) (data_event : Dict)
    (psana_event : pyval) : Dict + PyExc :=
  let data_event := <["data" := psana_event]> data_event in
  match timestamp data_event with
  | inr exc => inr exc
  | inl ts =>
      match data_event !! "additional_info" with
      | None => inr (mkExc "KeyError" (py_repr "additional_info") true)
      | Some (VDict info) =>
          inl (<["additional_info" := VDict (assoc_set info "timestamp" ts)]>
                 data_event)
      | Some v => inr (assignment_error v)
      end
  end.

(** The loop, with what the consumer does to the dictionary after the
    [n]-th [yield] given by [consume n].  The result lists the dictionary as
    it is at each [yield], and the exception that ends the loop, if any. *)
Fixpoint events_loop (timestamp : DataSource) (consume : nat -> Dict -> Dict)
    (n : nat) (data_event : Dict) (psana_events : list pyval)
    : list Dict * option PyExc :=
  match psana_events with
  | [] => ([], None)
  | psana_event :: psana_events' =>
      match next_event timestamp data_event psana_event with
      | inr exc => ([], Some exc)
      | inl data_event =>
          let '(yielded, ending) :=
            events_loop timestamp consume (S n) (consume n data_event)
                        psana_events' in
          (data_event :: yielded, ending)
      end
  end.

(** The dictionary before the loop: [data_event["additional_info"] = {}]. *)
Definition initial_data_event : Dict := {[ "additional_info" := VDict [] ]}.

End EventGenerator.

(** *** A handler and an event for the examples *)

(** A detector that can be read and a beam energy that cannot. *)
Definition example_sources : gmap string DataSource :=
  <["detector_data" := fun _ => inl (VObject 1)]>
    {[ "beam_energy" := fun _ => inr (mkExc "RuntimeError" "no beam" true) ]}.

Definition example_handler : PsanaDataEventHandler :=
  mkHandler example_sources ["detector_data"] None.

(** A handler whose detector is being read when the user interrupts. *)
Definition interrupted_handler : PsanaDataEventHandler :=
  mkHandler {[ "detector_data" :=
                 fun _ => inr (mkExc "KeyboardInterrupt" EmptyString false) ]}
            ["detector_data"] None.

Definition example_event : Dict :=
  {[ "additional_info" := VDict [("timestamp", VFloat 3 0)] ]}.

Definition example_repr (s : string) : string := "'" +:+ s +:+ "'".

Definition example_subscript_error (v : pyval) : PyExc :=
  mkExc "TypeError" "object is not subscriptable" true.

(** *** [initialize_event_handling_on_processing_node]: the [lcls_extra]
    entry *)

(** The three classes of [data_sources_psana] an entry can ask for, and an
    instance with the name it is given. *)
Inductive DetectorKind : Type :=
| AcqirisDetector
| EpicsVariablePsana
| Wave8Detector.

Record Detector : Type := mkDetector {
  detector_kind : DetectorKind;
  data_source_name : string
}.

(** How the treatment of the entry ends: [self._lcls_extra] is set (to a
    dictionary or to [None]), or an exception is raised. *)
Inductive LclsInit : Type :=
| LclsSet (lcls_extra : option (gmap string Detector))
| RaiseOmWrongParameterTypeError
| RaiseTypeError.

(** A list or a dictionary cannot be the key of a dictionary. *)
Definition is_hashable (v : pyval) : bool :=
  match v with
  | VList _ | VDict _ => false
  | _ => true
  end.

(** [v == s] for a string literal [s]. *)
Definition py_eq_str (v : pyval) (s : string) : bool :=
  match v with
  | VStr s' => String.eqb s' s
  | _ => false
  end.

Section LclsExtra.

(** [str(v)], as an f-string formats a value; [str] of a string is the
    string. *)
Variable py_str : pyval -> string.

(** The chain of tests on [data_type]: the class to instantiate, if any. *)
Definition detector_for (data_type identifier : pyval) : option Detector :=
  let name := "psana-" +:+ py_str identifier in
  if py_eq_str data_type "acqiris_waveform" then
    Some (mkDetector AcqirisDetector name)
  else if py_eq_str data_type "epics_pv" then
    Some (mkDetector EpicsVariablePsana name)
  else if py_eq_str data_type "wave8_total_intensity" then
    Some (mkDetector Wave8Detector name)
  else None.

(** The dictionary under construction is kept as the list of the
    assignments [self._lcls_extra[name] = ...] made so far, in order. *)
Definition Assignments : Type := list (pyval * Detector).

(** The inner [for entry in data_item] loop, for an item of three values:
    each turn tests its own entry, then unpacks the whole item and makes the
    assignment. *)
Fixpoint entries_loop (entries : list pyval) (data_type identifier name : pyval)
    (log : Assignments) : Assignments + LclsInit :=
  match entries with
  | [] => inl log
  | entry :: entries' =>
      if negb (isinstance entry TStr) then inr RaiseOmWrongParameterTypeError
      else
        match detector_for data_type identifier with
        | None => inr RaiseOmWrongParameterTypeError
        | Some detector =>
            if is_hashable name
            then entries_loop entries' data_type identifier name
                              (log ++ [(name, detector)])
            else inr RaiseTypeError
        end
  end.

(** The outer [for data_item in lcls_extra_entry] loop. *)
Fixpoint items_loop (items : list pyval) (log : Assignments)
    : Assignments + LclsInit :=
  match items with
  | [] => inl log
  | data_item :: items' =>
      match data_item with
      | VList [data_type; identifier; name] =>
          match entries_loop [data_type; identifier; name]
                             data_type identifier name log with
          | inl log' => items_loop items' log'
          | inr e => inr e
          end
      | _ => inr RaiseOmWrongParameterTypeError
      end
  end.

(** The dictionary a list of assignments builds: a later assignment to a
    name replaces an earlier one. *)
Definition dict_of_assignments (log : Assignments) : gmap string Detector :=
  foldl (fun d a => match a.1 with
                    | VStr name => <[name := a.2]> d
                    | _ => d
                    end) ∅ log.

(** The treatment of [lcls_extra_entry], the value of the parameter
    [lcls_extra] read with the type [list] and not required: [None] or a
    list. *)
Definition initialize_lcls_extra (lcls_extra_entry : option (list pyval))
    : LclsInit :=
  match lcls_extra_entry with
  | Some (data_item :: items) =>
      match items_loop (data_item :: items) [] with
      | inl log => LclsSet (Some (dict_of_assignments log))
      | inr e => e
      end
  | _ => LclsSet None
  end.

(** An item of the entry as the code expects it: a list of three strings,
    the first one naming a supported kind of data. *)
Definition item_fields (data_item : pyval) : option (string * string * string) :=
  match data_item with
  | VList [VStr data_type; VStr identifier; VStr name] =>
      if (String.eqb data_type "acqiris_waveform"
          || String.eqb data_type "epics_pv"
          || String.eqb data_type "wave8_total_intensity")%bool
      then Some (data_type, identifier, name) else None
  | _ => None
  end.

(** The kinds of data an item can ask for. *)
Definition supported_kinds : list string :=
  ["acqiris_waveform"; "epics_pv"; "wave8_total_intensity"].

(** The first item of the entry that is not as expected is a list of three
    values that asks for a supported kind under a name that cannot be the
    key of a dictionary. *)
Definition fails_on_name (items : list pyval) : Prop :=
  exists pre data_type identifier name post,
    items = pre ++ VList [VStr data_type; identifier; name] :: post
    /\ mapM item_fields pre <> None
    /\ data_type ∈ supported_kinds
    /\ is_hashable name = false.

(** The kind a supported name stands for. *)
Definition kind_of (data_type : string) : DetectorKind :=
  if String.eqb data_type "acqiris_waveform" then AcqirisDetector
  else if String.eqb data_type "epics_pv" then EpicsVariablePsana
  else Wave8Detector.

(** The dictionary expected from well-formed items: one detector per name,
    the last item with a name deciding. *)
Definition expected_lcls_extra (fields : list (string * string * string))
    : gmap string Detector :=
  foldl (fun d f => <[f.2 := mkDetector (kind_of f.1.1) ("psana-" +:+ f.1.2)]> d)
        ∅ fields.

End LclsExtra.

(** A [str] for the examples: only strings are formatted in them. *)
Definition example_str (v : pyval) : string :=
  match v with
  | VStr s => s
  | _ => "<object>"
  end.

(** An [lcls_extra] entry with two items for the same name. *)
Definition example_lcls_entry : list pyval :=
  [VList [VStr "acqiris_waveform"; VStr "CxiEndstation.0:Acqiris.0"; VStr "tof"];
   VList [VStr "epics_pv"; VStr "CXI:DS1:MMS:06.RBV"; VStr "tof"]].

End PsanaHandler.

(** ** onda/utils/data_event.py *)

Module DataEvent.

Section Event.

(** The state of the event object the extraction functions read. *)
Context {EventState : Type}.

(** An extraction function: its [__name__] and what a call on the event
    gives, a value or an exception. *)
Record ExtractionFunction : Type := mkFunction {
  __name__ : string;
  call : EventState -> pyval + PsanaHandler.PyExc
}.

(** The text of the [DataExtractionError]. *)
Definition extraction_message (func : ExtractionFunction)
    (exc : PsanaHandler.PyExc) : string :=
  "OnDA Warning: Cannot interpret " +:+ __name__ func
    +:+ " event data due to the following error: "
    +:+ PsanaHandler.exc_type_name exc +:+ ": " +:+ PsanaHandler.exc_value exc.

(** How a call of [extract_data] ends: with the data, with a
    [DataExtractionError], or with an exception that [except Exception] does
    not catch. *)
Inductive Extraction : Type :=
| Extracted (data : Dict)
| DataExtractionError (msg : string)
| Uncaught (exc : PsanaHandler.PyExc).

(** The loop of [DataEvent.extract_data] over the items of
    [data_extraction_functions], listed in the order of iteration, inside
    its [try]: an exception whose class derives from [Exception] becomes a
    [DataExtractionError], any other one goes through. *)
Fixpoint extract_loop (functions : list (string * ExtractionFunction))
    (self : EventState) (data : Dict) : Extraction :=
  match functions with
  | [] => Extracted data
  | (f_name, func) :: functions' =>
      match call func self with
      | inl v => extract_loop functions' self (<[f_name := v]> data)
      | inr exc =>
          if PsanaHandler.exc_is_Exception exc
          then DataExtractionError (extraction_message func exc)
          else Uncaught exc
      end
  end.

(** [DataEvent.extract_data]. *)
Definition extract_data (functions : list (string * ExtractionFunction))
    (self : EventState) : Extraction :=
  extract_loop functions self ∅.

End Event.

End DataEvent.

(** ** The psana handler under the MPI loop *)

Module PsanaOnMpi.

(** A handler for the examples with the [open_event] and the
    [get_num_frames_in_event] of the psana handler: events are not opened
    and hold one frame. *)
Definition one_frame_handler : Mpi.OmDataEventHandler := {|
  Mpi.open_event := fun event => event;
  Mpi.get_num_frames_in_event := PsanaHandler.get_num_frames_in_event;
  Mpi.extract_data := fun event =>
    match event !! "data" with
    | Some v => inl {[ "detector_data" := v ]}
    | None => inr "no data in the event"
    end
|}.

(** An event as the psana generator yields it. *)
Definition psana_event : Dict :=
  {[ "data" := VObject 7 ]}.

End PsanaOnMpi.

(** ** om/graphical_interfaces/crystallography_ra_viewer.py *)

Module CrystallographyRAViewer.

(** [deque(maxlen=...).append(x)]: a full deque drops its oldest element. *)
Definition deque_append {A : Type} (maxlen : nat) (d : list A) (x : A) : list A :=
  if (length d <? maxlen)%nat then d ++ [x] else drop 1 d ++ [x].

(** [d[i]] on a deque: a negative index counts from the end; [None] stands
    for [IndexError]. *)
Definition deque_get {A : Type} (d : list A) (i : Z) : option A :=
  let len := Z.of_nat (length d) in
  if (i <? - len) || (len <=? i) then None
  else if i <? 0 then d !! Z.to_nat (i + len)
  else d !! Z.to_nat i.

(** The fields of the viewer that hold the frame buffer.  [_received_data]
    is written by the listening thread of the base class. *)
Record Viewer : Type := mkViewer {
  _frame_list : list Dict;
  _current_frame_index : Z;
  _received_data : Dict
}.

(** The fields as [__init__] sets them. *)
Definition init : Viewer := mkViewer [] (-1) ∅.

(** What the viewer puts out: a line on the standard output, and the frame
    that [_update_plot] reads from the buffer to draw it and to show its
    age in the status bar. *)
Inductive Output : Type :=
| Print (s : string)
| Plot (current_data : Dict).

(** [_update_plot]: the frame at the current index is drawn; with an
    [IndexError] nothing is. *)
Definition _update_plot (self : Viewer) : list Output :=
  match deque_get (_frame_list self) (_current_frame_index self) with
  | Some current_data => [Plot current_data]
  | None => []
  end.

(** [if self._received_data:], a dictionary being true when it has a key. *)
Definition truthy (d : Dict) : bool := negb (bool_decide (dom d = ∅)).

(** [update_gui]. *)
Definition update_gui (self : Viewer) : Viewer * list Output :=
  if truthy (_received_data self) then
    let local_data := _received_data self in
    let frame_list := deque_append 20 (_frame_list self) local_data in
    let self := mkViewer frame_list (Z.of_nat (length frame_list) - 1) ∅ in
    (self, _update_plot self)
  else (self, []).

Definition showing (index : Z) : string :=
  "Showing frame " +:+ pretty index +:+ " in the buffer".

(** [_back_button_clicked].  The call of [_stop_stream], which acts on the
    listening thread and on the text of a button, is left out here and in
    [_forward_button_clicked]. *)
Definition _back_button_clicked (self : Viewer) : Viewer * list Output :=
  let self :=
    if 0 <? _current_frame_index self
    then mkViewer (_frame_list self) (_current_frame_index self - 1)
                  (_received_data self)
    else self in
  (self, Print (showing (_current_frame_index self)) :: _update_plot self).

(** [_forward_button_clicked]. *)
Definition _forward_button_clicked (self : Viewer) : Viewer * list Output :=
  let self :=
    if _current_frame_index self + 1 <? Z.of_nat (length (_frame_list self))
    then mkViewer (_frame_list self) (_current_frame_index self + 1)
                  (_received_data self)
    else self in
  (self, Print (showing (_current_frame_index self)) :: _update_plot self).

(** What happens to a viewer: data arrive and are stored in
    [_received_data] by the listening thread, the timer calls [update_gui],
    a button is clicked. *)
Inductive Happening : Type :=
| Received (data : Dict)
| UpdateGui
| BackClicked
| ForwardClicked.

Definition step (self : Viewer) (h : Happening) : Viewer * list Output :=
  match h with
  | Received data =>
      (mkViewer (_frame_list self) (_current_frame_index self) data, [])
  | UpdateGui => update_gui self
  | BackClicked => _back_button_clicked self
  | ForwardClicked => _forward_button_clicked self
  end.

Fixpoint run (self : Viewer) (hs : list Happening) : Viewer * list Output :=
  match hs with
  | [] => (self, [])
  | h :: hs' =>
      let '(self, out) := step self h in
      let '(self', out') := run self hs' in
      (self', out ++ out')
  end.

(** The data that the calls of [update_gui] among [hs] find in
    [_received_data], which holds [received] at first. *)
Fixpoint taken (received : Dict) (hs : list Happening) : list Dict :=
  match hs with
  | [] => []
  | Received data :: hs' => taken data hs'
  | UpdateGui :: hs' =>
      if truthy received then received :: taken ∅ hs' else taken received hs'
  | _ :: hs' => taken received hs'
  end.

(** The last [n] elements of a list. *)
Definition lastn {A : Type} (n : nat) (l : list A) : list A :=
  drop (length l - n) l.

(** The index and the buffer agree: an empty buffer with index [-1], or an
    index that names a frame of the buffer. *)
Definition index_ok (self : Viewer) : Prop :=
  (length (_frame_list self) <= 20)%nat
  /\ ((_frame_list self = [] /\ _current_frame_index self = -1)
      \/ 0 <= _current_frame_index self
                 < Z.of_nat (length (_frame_list self))).

End CrystallographyRAViewer.

(** * Properties *)

(** ** The configuration accessor *)

Section ParametersFacts.

Import Parameters.

Lemma accepts_type_matches t v : accepts t v = true <-> type_matches t v.
Proof.
  unfold type_matches, accepts, isinstance_basestring.
  destruct t; simpl; rewrite ?orb_true_iff;
    try (split; [ intros H; by left | intros [H | [[? ?] | [? ?]]]; done ]).
  - split; [ intros [H | H]; [ by left | right; by left ]
           | intros [H | [[_ H] | [? _]]]; [ by left | by right | done ] ].
  - split; [ intros [H | H]; [ by left | right; by right ]
           | intros [H | [[? _] | [_ H]]]; [ by left | done | by right ] ].
Qed.

Lemma dict_get_Some (grp : Dict) k v : grp !! k = Some v -> dict_get grp k = v.
Proof. unfold dict_get. by intros ->. Qed.

Lemma dict_get_is_None (grp : Dict) k :
  is_None (dict_get grp k) = true <-> grp !! k = None \/ grp !! k = Some VNone.
Proof.
  unfold dict_get. destruct (grp !! k) as [v|]; simpl.
  - destruct v; simpl; split; try done; try (intros [? | ?]; congruence).
    intros _. by right.
  - split; [ by left | done ].
Qed.

Lemma is_None_false v : v <> VNone -> is_None v = false.
Proof. by destruct v. Qed.

Lemma VNone_dec v : v = VNone \/ v <> VNone.
Proof. destruct v; (by left) || (by right). Qed.

(** A call on a group that is absent. *)
Lemma get_param_no_group self g k ot req :
  _monitor_params self !! g = None ->
  get_param self g k ot req = (Raise OmMissingParameterGroupError, self).
Proof. unfold get_param. by intros ->. Qed.

(** A required parameter that is absent or null. *)
Lemma get_param_missing self g k ot grp :
  _monitor_params self !! g = Some grp ->
  grp !! k = None \/ grp !! k = Some VNone ->
  get_param self g k ot true = (Raise OmMissingParameterError, self).
Proof.
  unfold get_param. intros -> Hk.
  apply dict_get_is_None in Hk. by rewrite Hk.
Qed.

(** A parameter that is present and not null, with a requested type. *)
Lemma get_param_found self g k t req grp v :
  _monitor_params self !! g = Some grp ->
  grp !! k = Some v ->
  v <> VNone ->
  get_param self g k (Some t) req =
    (if accepts t v then Return v else Raise OmWrongParameterTypeError, self).
Proof.
  unfold get_param. intros -> Hk Hv.
  rewrite (dict_get_Some _ _ _ Hk), (is_None_false _ Hv). simpl.
  destruct t, v; reflexivity.
Qed.

(** C7, amended: with [required = True] and a requested type [t], the
    accessor returns a value [v] exactly when the group exists and holds,
    under the key, the non-null value [v], and [v] is an instance of [t] or
    an integer where [t] is [float] or a byte string where [t] is [str]; a
    missing group raises [OmMissingParameterGroupError], a missing or null
    parameter raises [OmMissingParameterError], any other value raises
    [OmWrongParameterTypeError]; the stored tree is the same after the
    call. *)
Theorem get_param_required_typed :
  forall (self : MonitorParams) (g k : string) (t : pytype),
    let r := get_param self g k (Some t) true in
    (forall v, r.1 = Return v <->
       exists grp, _monitor_params self !! g = Some grp
                   /\ grp !! k = Some v /\ v <> VNone /\ type_matches t v)
    /\ (_monitor_params self !! g = None <->
        r.1 = Raise OmMissingParameterGroupError)
    /\ ((exists grp, _monitor_params self !! g = Some grp
                     /\ (grp !! k = None \/ grp !! k = Some VNone)) <->
        r.1 = Raise OmMissingParameterError)
    /\ ((exists grp v, _monitor_params self !! g = Some grp
                       /\ grp !! k = Some v /\ v <> VNone
                       /\ ~ type_matches t v) <->
        r.1 = Raise OmWrongParameterTypeError)
    /\ r.2 = self.
Proof.
  intros self g k t r. subst r.
  destruct (_monitor_params self !! g) as [grp|] eqn:Hg.
  - destruct (grp !! k) as [v|] eqn:Hk.
    + destruct (VNone_dec v) as [-> | Hv].
      * rewrite (get_param_missing self g k _ grp Hg (or_intror Hk)). simpl.
        repeat split; try done.
        -- intros (grp' & ? & ? & ? & _). congruence.
        -- intros _. exists grp. split; [done | by right].
        -- intros (grp' & v & ? & ? & ? & _). congruence.
      * rewrite (get_param_found self g k t true grp v Hg Hk Hv). simpl.
        destruct (accepts t v) eqn:Ha.
        -- apply accepts_type_matches in Ha.
           repeat split; try done.
           ++ intros [= <-]. exists grp. done.
           ++ intros (grp' & ? & ? & _). congruence.
           ++ intros (grp' & ? & [? | ?]); congruence.
           ++ intros (grp' & v' & ? & ? & ? & Hn). destruct Hn. congruence.
        -- assert (~ type_matches t v) as Hn.
           { intros Hm. apply accepts_type_matches in Hm. congruence. }
           repeat split; try done.
           ++ intros (grp' & ? & ? & ? & ?). congruence.
           ++ intros (grp' & ? & [? | ?]); congruence.
           ++ intros _. exists grp, v. done.
    + rewrite (get_param_missing self g k _ grp Hg (or_introl Hk)). simpl.
      repeat split; try done.
      * intros (grp' & ? & ? & _). congruence.
      * intros _. exists grp. split; [done | by left].
      * intros (grp' & v & ? & ? & _). congruence.
  - rewrite (get_param_no_group self g k _ _ Hg). simpl.
    repeat split; try done.
    + intros (grp & ? & _). congruence.
    + intros (grp & ? & _). congruence.
    + intros (grp & v & ? & _). congruence.
Qed.

Lemma example_params_group :
  _monitor_params example_params !! "data_retrieval_layer" = Some example_group.
Proof. apply lookup_singleton_eq. Qed.

Lemma example_group_limit :
  example_group !! "num_frames_in_event_to_process" = Some (VInt 2).
Proof. apply lookup_insert_eq. Qed.

Lemma example_group_energy :
  example_group !! "fallback_beam_energy_in_eV" = Some (VInt 9000).
Proof.
  unfold example_group. rewrite lookup_insert_ne by discriminate.
  apply lookup_insert_eq.
Qed.

Lemma example_group_calibration :
  example_group !! "psana_calibration_directory" = Some VNone.
Proof.
  unfold example_group. rewrite !lookup_insert_ne by discriminate.
  apply lookup_singleton_eq.
Qed.

(** On the example configuration: the frame limit is returned for a request
    of type [int], and the null calibration directory counts as missing. *)
Lemma get_param_required_typed_witness :
  (get_param example_params "data_retrieval_layer"
             "num_frames_in_event_to_process" (Some TInt) true).1
  = Return (VInt 2)
  /\ (get_param example_params "data_retrieval_layer"
                "psana_calibration_directory" (Some TStr) true).1
     = Raise OmMissingParameterError.
Proof.
  split.
  - apply (proj1 (get_param_required_typed example_params
                    "data_retrieval_layer" "num_frames_in_event_to_process"
                    TInt)).
    exists example_group. split; [exact example_params_group|].
    split; [exact example_group_limit|].
    split; [discriminate | left; reflexivity].
  - apply (proj1 (proj2 (proj2 (get_param_required_typed example_params
                    "data_retrieval_layer" "psana_calibration_directory"
                    TStr)))).
    exists example_group. split; [exact example_params_group|].
    right. exact example_group_calibration.
Defined.

(** The integer beam energy of the example configuration asked for as a
    float, the parameter being required: the value is not an instance of
    [float], and yet it is returned and no [OmWrongParameterTypeError] is
    raised; so the value is not returned exactly when it is an instance of
    the requested type. *)
Lemma int_is_returned_for_float :
  let r := get_param example_params "data_retrieval_layer"
                     "fallback_beam_energy_in_eV" (Some TFloat) true in
  r.1 = Return (VInt 9000)
  /\ isinstance (VInt 9000) TFloat = false
  /\ r.1 <> Raise OmWrongParameterTypeError
  /\ ~ (forall v, r.1 = Return v <->
           exists grp, _monitor_params example_params
                         !! "data_retrieval_layer" = Some grp
                       /\ grp !! "fallback_beam_energy_in_eV" = Some v
                       /\ v <> VNone /\ isinstance v TFloat = true).
Proof.
  cbv zeta.
  rewrite (get_param_found example_params _ _ TFloat true example_group
             (VInt 9000) example_params_group example_group_energy)
    by discriminate.
  cbn [fst accepts isinstance orb].
  split; [done|]. split; [done|]. split; [done|].
  intros H. destruct (proj1 (H (VInt 9000)) eq_refl) as (_ & _ & _ & _ & Hi).
  discriminate Hi.
Qed.

(** C10: the accessor widens the test for [float] and [str]: an integer
    stored where a float is requested is returned as it is, any string-like
    value (text or bytes) is returned where a string is requested; for every
    other requested type the value is returned exactly when it is an instance
    of that type, and [OmWrongParameterTypeError] is raised otherwise. *)
Theorem get_param_widening :
  forall (self : MonitorParams) (g k : string) (grp : Dict) (v : pyval)
         (req : bool),
    _monitor_params self !! g = Some grp ->
    grp !! k = Some v ->
    v <> VNone ->
    (forall z, v = VInt z ->
       get_param self g k (Some TFloat) req = (Return (VInt z), self))
    /\ (isinstance_basestring v = true ->
        get_param self g k (Some TStr) req = (Return v, self))
    /\ (forall t, t <> TFloat -> t <> TStr ->
          get_param self g k (Some t) req =
            (if isinstance v t then Return v
             else Raise OmWrongParameterTypeError, self)).
Proof.
  intros self g k grp v req Hg Hk Hv. repeat split.
  - intros z ->. by rewrite (get_param_found self g k TFloat req grp _ Hg Hk).
  - intros Hs. rewrite (get_param_found self g k TStr req grp v Hg Hk Hv).
    simpl. by rewrite Hs.
  - intros t Hf Hs. rewrite (get_param_found self g k t req grp v Hg Hk Hv).
    by destruct t.
Qed.

(** On the example configuration: the integer beam energy is returned for a
    request of type [float]. *)
Lemma get_param_widening_witness :
  get_param example_params "data_retrieval_layer" "fallback_beam_energy_in_eV"
            (Some TFloat) true
  = (Return (VInt 9000), example_params).
Proof.
  refine (proj1 (get_param_widening example_params "data_retrieval_layer"
                   "fallback_beam_energy_in_eV" example_group (VInt 9000) true
                   example_params_group example_group_energy _) 9000 eq_refl).
  discriminate.
Defined.

End ParametersFacts.

(** ** The offline event generator *)

Section PsanaFacts.

Import Psana.

Context {Time : Type}.

(** A slice between two non-negative bounds is a [take] of a [drop]. *)
Lemma py_slice_nonneg (l : list Time) (a b : Z) :
  0 <= a -> a <= b ->
  py_slice l a b = take (Z.to_nat (b - a)) (drop (Z.to_nat a) l).
Proof.
  intros Ha Hab. unfold py_slice.
  destruct (Z.ltb_spec a 0) as [?|_]; [lia|].
  destruct (Z.ltb_spec b 0) as [?|_]; [lia|].
  set (len := Z.of_nat (length l)).
  destruct (Z.ltb_spec (Z.min a len) (Z.min b len)) as [Hlt|Hge].
  - assert (Z.min a len = a) as -> by lia.
    destruct (Z.le_gt_cases b len) as [Hb|Hb].
    + by assert (Z.min b len = b) as -> by lia.
    + assert (Z.min b len = len) as -> by lia.
      rewrite !take_ge; [done| |]; rewrite length_drop; subst len; lia.
  - symmetry. destruct (Z.eq_dec a b) as [->|Hne].
    + by rewrite Z.sub_diag.
    + rewrite drop_ge; [by rewrite take_nil | subst len; lia].
Qed.

(** Consecutive chunks of [c] elements, enough of them, give the list back. *)
Lemma concat_chunks (c w : nat) (l : list Time) :
  (length l <= w * c)%nat ->
  concat (map (fun i => take c (drop (i * c) l)) (seq 0 w)) = l.
Proof.
  revert l. induction w as [|w IH]; intros l Hl.
  - simpl in *. destruct l; [done | simpl in Hl; lia].
  - rewrite <- cons_seq, <- fmap_S_seq. simpl. rewrite drop_0.
    rewrite <- list_fmap_compose.
    rewrite <- (take_drop c l) at 2. f_equal.
    rewrite <- (IH (drop c l)) by (rewrite length_drop; lia).
    f_equal. apply list_fmap_ext. intros _ i _. simpl.
    by rewrite drop_drop.
Qed.

(** The number of events per node is the ceiling of the quotient. *)
Lemma num_events_curr_node_spec (len mpi_pool_size : Z) :
  0 <= len -> 2 <= mpi_pool_size ->
  exists num, num_events_curr_node len mpi_pool_size = Some num
              /\ 0 <= num
              /\ len <= (mpi_pool_size - 1) * num < len + (mpi_pool_size - 1).
Proof.
  intros Hlen Hpool. unfold num_events_curr_node.
  destruct (Z.eqb_spec (mpi_pool_size - 1) 0) as [?|_]; [lia|].
  eexists; split; [reflexivity|].
  pose proof (Z.div_mod (- len) (mpi_pool_size - 1) ltac:(lia)) as Hdm.
  pose proof (Z.mod_pos_bound (- len) (mpi_pool_size - 1) ltac:(lia)) as Hm.
  nia.
Qed.

Lemma mapM_total {A B : Type} (f : A -> option B) (g : A -> B) (l : list A) :
  (forall x, f x = Some (g x)) -> mapM f l = Some (map g l).
Proof.
  intros Hf. induction l as [|x l IH]; [done|].
  simpl. rewrite Hf. simpl. by rewrite IH.
Qed.

(** The slice of the node of rank [i + 1], counted in elements. *)
Lemma slice_of_rank (times : list Time) (num : Z) (i : nat) :
  0 <= num ->
  py_slice times ((Z.of_nat i + 1 - 1) * num) ((Z.of_nat i + 1) * num)
  = take (Z.to_nat num) (drop (i * Z.to_nat num) times).
Proof.
  intros Hnum. rewrite py_slice_nonneg by nia.
  f_equal; [f_equal; lia | f_equal; nia].
Qed.

(** The slices of the processing nodes, by increasing rank, concatenate to
    the run. *)
Lemma slices_concat (times : list Time) (mpi_pool_size : Z) :
  2 <= mpi_pool_size ->
  exists num,
    num_events_curr_node (Z.of_nat (length times)) mpi_pool_size = Some num
    /\ 0 <= num
    /\ Z.of_nat (length times) <= (mpi_pool_size - 1) * num
       < Z.of_nat (length times) + (mpi_pool_size - 1)
    /\ concat (map (fun r => py_slice times ((r - 1) * num) (r * num))
                   (processing_ranks mpi_pool_size)) = times.
Proof.
  intros Hpool.
  destruct (num_events_curr_node_spec (Z.of_nat (length times)) mpi_pool_size)
    as (num & Hnum & Hpos & Hlo & Hhi); [lia | done |].
  exists num. split; [done|]. split; [done|]. split; [done|].
  unfold processing_ranks, py_range, seqZ.
  rewrite <- list_fmap_compose.
  etrans; [|apply (concat_chunks (Z.to_nat num)
                     (Z.to_nat (mpi_pool_size - 1)) times); nia].
  f_equal. apply list_fmap_ext. intros _ i _. simpl.
  by rewrite slice_of_rank.
Qed.

(** C3: for a pool of at least two nodes (one processing node or more) and
    a run of any length, every processing node gets a slice; the slices, by
    increasing rank, concatenate to the whole run, so that every event is in
    some slice; the slice of rank [r] holds the events at the indices from
    [(r-1) * num] up to [r * num - 1] that exist, [num] being the ceiling of
    the length over the number of processing nodes; and every index of the
    run falls in the range of exactly one rank. *)
Theorem offline_slices_partition :
  forall (times : list Time) (mpi_pool_size : Z),
    2 <= mpi_pool_size ->
    exists (num : Z) (slices : list (list Time)),
      num_events_curr_node (Z.of_nat (length times)) mpi_pool_size = Some num
      /\ slices_of_pool times mpi_pool_size = Some slices
      /\ length slices = Z.to_nat (mpi_pool_size - 1)
      /\ concat slices = times
      /\ (forall (r : Z) (sl : list Time),
            1 <= r < mpi_pool_size ->
            slices !! Z.to_nat (r - 1) = Some sl ->
            events_curr_node times r mpi_pool_size = Some sl
            /\ forall j : nat,
                 sl !! j = if decide (Z.of_nat j < num)
                           then times !! (Z.to_nat ((r - 1) * num) + j)%nat
                           else None)
      /\ (forall i : Z,
            0 <= i < Z.of_nat (length times) ->
            exists r, (1 <= r < mpi_pool_size
                       /\ (r - 1) * num <= i < r * num)
                      /\ forall r', 1 <= r' < mpi_pool_size ->
                                    (r' - 1) * num <= i < r' * num -> r' = r).
Proof.
  intros times mpi_pool_size Hpool.
  destruct (slices_concat times mpi_pool_size Hpool)
    as (num & Hnum & Hpos & [Hlo Hhi] & Hconcat).
  set (g := fun r : Z => py_slice times ((r - 1) * num) (r * num)).
  assert (forall r, events_curr_node times r mpi_pool_size = Some (g r)) as Hev.
  { intros r. unfold events_curr_node. by rewrite Hnum. }
  exists num, (map g (processing_ranks mpi_pool_size)).
  split; [done|].
  split; [by apply mapM_total|].
  split.
  { rewrite length_map. unfold processing_ranks, py_range.
    rewrite length_seqZ. lia. }
  split; [exact Hconcat|].
  split.
  { intros r sl Hr Hsl. rewrite list_lookup_fmap in Hsl.
    unfold processing_ranks, py_range in Hsl.
    rewrite (lookup_seqZ_lt _ _ _) in Hsl by lia. simpl in Hsl.
    replace (1 + Z.of_nat (Z.to_nat (r - 1))) with r in Hsl by lia.
    injection Hsl as <-.
    split; [done|]. intros j. unfold g.
    rewrite py_slice_nonneg by nia.
    replace (Z.to_nat (r * num - (r - 1) * num)) with (Z.to_nat num) by lia.
    case_decide as Hj.
    - rewrite lookup_take_lt by lia. by rewrite lookup_drop.
    - apply lookup_take_ge. lia. }
  intros i Hi.
  assert (0 < num) as Hnum_pos by nia.
  exists (i `div` num + 1).
  pose proof (Z.div_mod i num ltac:(lia)) as Hdm.
  pose proof (Z.mod_pos_bound i num ltac:(lia)) as Hm.
  assert (0 <= i `div` num) as Hq by (apply Z.div_pos; lia).
  split.
  - split; [|nia].
    split; [lia|].
    assert (i `div` num < mpi_pool_size - 1); [|lia].
    apply Z.div_lt_upper_bound; nia.
  - intros r' Hr' Hin.
    assert (i `div` num = r' - 1); [|lia].
    symmetry. apply (Z.div_unique i num (r' - 1) (i - num * (r' - 1))); lia.
Qed.

End PsanaFacts.

(** A pool of 4 nodes and a run of 11 events, here numbered from 0: the three
    processing nodes get 4, 4 and 3 events. *)
Lemma offline_slices_partition_witness :
  2 <= 4
  /\ exists slices,
       Psana.slices_of_pool (seqZ 0 11) 4 = Some slices
       /\ concat slices = seqZ 0 11
       /\ slices = [[0; 1; 2; 3]; [4; 5; 6; 7]; [8; 9; 10]]
       /\ map length slices = [4; 4; 3]%nat.
Proof.
  split; [lia|].
  destruct (offline_slices_partition (seqZ 0 11) 4 ltac:(lia))
    as (num & slices & _ & Hs & _ & Hc & _).
  exists slices. split; [exact Hs|]. split; [exact Hc|].
  vm_compute in Hs. injection Hs as <-. split; reflexivity.
Defined.

Section GeneratorFacts.

Import Psana.

Context {Run Time Event : Type}.
Variable run_times : Run -> list Time.
Variable run_event : Run -> Time -> Event.

Lemma concat_map_app {A B : Type} (f g : A -> list B) (l : list A) :
  concat (map (fun x => f x ++ g x) l) ≡ₚ concat (map f l) ++ concat (map g l).
Proof.
  induction l as [|x l IH]; [done|]. simpl. rewrite IH.
  rewrite <- !(assoc_L (++)). f_equiv.
  rewrite !(assoc_L (++)). f_equiv. apply Permutation_app_comm.
Qed.

Lemma concat_map_swap {A B C : Type} (X : A -> B -> list C)
    (la : list A) (lb : list B) :
  concat (map (fun a => concat (map (X a) lb)) la)
  ≡ₚ concat (map (fun b => concat (map (fun a => X a b) la)) lb).
Proof.
  induction la as [|a la IH]; simpl.
  - induction lb as [|b lb IHb]; [done|]. simpl. by rewrite <- IHb.
  - rewrite IH. symmetry.
    apply (concat_map_app (X a) (fun b => concat (map (fun a => X a b) la))).
Qed.

(** The generator, for a pool with a processing node, yields for each run
    the events of the node's slice. *)
Lemma offline_generator_total (runs : list Run) (node_rank mpi_pool_size : Z) :
  mpi_pool_size - 1 <> 0 ->
  _psana_offline_event_generator run_times run_event runs node_rank mpi_pool_size
  = Some (concat (map (fun run =>
            map (run_event run)
                (default [] (events_curr_node (run_times run) node_rank
                                              mpi_pool_size))) runs)).
Proof.
  intros Hpool. induction runs as [|run runs IH]; [done|].
  simpl. rewrite IH. unfold events_curr_node, num_events_curr_node.
  destruct (Z.eqb_spec (mpi_pool_size - 1) 0) as [?|_]; [lia|]. done.
Qed.

(** X14: over all the runs of a source, the events yielded by the
    processing nodes together are the events of the runs, each one once. *)
Lemma offline_generator_yields_all (runs : list Run) (mpi_pool_size : Z) :
  2 <= mpi_pool_size ->
  exists outs,
    mapM (fun node_rank =>
            _psana_offline_event_generator run_times run_event runs node_rank
                                           mpi_pool_size)
         (processing_ranks mpi_pool_size) = Some outs
    /\ concat outs
       ≡ₚ concat (map (fun run => map (run_event run) (run_times run)) runs).
Proof.
  intros Hpool. eexists. split.
  { apply mapM_total. intros r.
    apply (offline_generator_total runs r mpi_pool_size). lia. }
  rewrite (concat_map_swap
             (fun r run => map (run_event run)
                (default [] (events_curr_node (run_times run) r mpi_pool_size)))).
  induction runs as [|run runs IH]; [done|]. simpl. rewrite IH. f_equiv.
  destruct (slices_concat (run_times run) mpi_pool_size Hpool)
    as (num & Hnum & _ & _ & Hc).
  trans (map (run_event run)
           (concat (map (fun r => py_slice (run_times run) ((r - 1) * num)
                                           (r * num))
                        (processing_ranks mpi_pool_size))));
    [|by rewrite Hc].
  unfold events_curr_node. rewrite Hnum. simpl.
  clear IH Hc Hnum. generalize (run_times run). intros times.
  induction (processing_ranks mpi_pool_size) as [|r l IHl]; [done|].
  simpl. rewrite map_app. by rewrite IHl.
Qed.

End GeneratorFacts.

(** ** The collecting node *)

Section CollectingFacts.

Import Mpi.

Lemma dict_has_key_dom (d : Dict) (k : string) :
  dict_has_key d k = true <-> k ∈ dom d.
Proof.
  unfold dict_has_key. rewrite elem_of_dom.
  destruct (d !! k); split; done.
Qed.

Lemma count_end_cons (m : Message) (msgs : list Message) :
  count_end (m :: msgs) = (if is_end m then 1 else 0) + count_end msgs.
Proof.
  unfold count_end. rewrite filter_cons.
  destruct (is_end m); case_decide; try done; simpl length; lia.
Qed.

Lemma count_end_app (l1 l2 : list Message) :
  count_end (l1 ++ l2) = count_end l1 + count_end l2.
Proof.
  induction l1 as [|m l1 IH]; [done|].
  simpl. rewrite !count_end_cons, IH. lia.
Qed.

Lemma count_end_nonneg (msgs : list Message) : 0 <= count_end msgs.
Proof. unfold count_end. lia. Qed.

Lemma flush_count_cons (a : Action) (trace : list Action) :
  flush_count (a :: trace)
  = ((if is_flush a then 1 else 0) + flush_count trace)%nat.
Proof.
  unfold flush_count. rewrite filter_cons.
  destruct (is_flush a); case_decide; done.
Qed.

Lemma flush_count_app (t1 t2 : list Action) :
  flush_count (t1 ++ t2) = (flush_count t1 + flush_count t2)%nat.
Proof. unfold flush_count. by rewrite filter_app, length_app. Qed.

Lemma flush_count_none (trace : list Action) :
  Forall (fun a => is_flush a = false) trace -> flush_count trace = 0%nat.
Proof.
  induction 1 as [|a trace Ha _ IH]; [done|].
  by rewrite flush_count_cons, Ha, IH.
Qed.

(** The shutdown procedure never calls the final flush. *)
Lemma shutdown_confirm_loop_no_flush self c obs :
  Forall (fun a => is_flush a = false) (shutdown_confirm_loop self c obs).1.
Proof.
  revert c. induction obs as [|o obs IH]; intros c; simpl; [done|].
  destruct o as [d dd|]; [|by repeat constructor].
  set (c' := if dd then c + 1 else c).
  destruct (c' =? _mpi_size self - 1).
  - simpl. destruct d; by repeat constructor.
  - specialize (IH c'). destruct (shutdown_confirm_loop self c' obs) as [acts out].
    simpl in *. destruct d; [by constructor | done].
Qed.

Lemma shutdown_no_flush self msg obs :
  Forall (fun a => is_flush a = false) (shutdown self msg obs).1.
Proof.
  unfold shutdown. destruct (_rank self =? 0); [|by repeat constructor].
  pose proof (shutdown_confirm_loop_no_flush self 0 obs) as H.
  destruct (shutdown_confirm_loop self 0 obs) as [acts out]. simpl in *.
  constructor; [done|]. apply Forall_app. split; [|done].
  apply Forall_fmap. by apply Forall_true.
Qed.

Lemma reaches_nil self : ~ reaches_all_ends self [].
Proof. intros (pre & m & post & H & _). by destruct pre. Qed.

(** An [END] that does not complete the count passes the question on to the
    rest of the messages, with the count one higher. *)
Lemma reaches_cons_end self m msgs :
  is_end m = true ->
  _num_nomore self + 1 <> _mpi_size self - 1 ->
  reaches_all_ends self (m :: msgs)
  <-> reaches_all_ends (set_num_nomore self (_num_nomore self + 1)) msgs.
Proof.
  intros Hm Hne. unfold reaches_all_ends. simpl. split.
  - intros (pre & m' & post & Heq & Hm' & Hc).
    destruct pre as [|x pre]; simpl in Heq; injection Heq as -> ->.
    + simpl in Hc. rewrite count_end_cons, Hm' in Hc.
      unfold count_end in Hc. simpl in Hc. lia.
    + exists pre, m', post. split; [done|]. split; [done|].
      simpl in Hc. rewrite count_end_cons, Hm in Hc. lia.
  - intros (pre & m' & post & -> & Hm' & Hc).
    exists (m :: pre), m', post. split; [done|]. split; [done|].
    simpl. rewrite count_end_cons, Hm. lia.
Qed.

(** A message that is not an [END] leaves the question to the rest. *)
Lemma reaches_cons_data self m msgs c :
  is_end m = false ->
  reaches_all_ends self (m :: msgs)
  <-> reaches_all_ends (set_num_collected_events self c) msgs.
Proof.
  intros Hm. unfold reaches_all_ends. simpl. split.
  - intros (pre & m' & post & Heq & Hm' & Hc).
    destruct pre as [|x pre]; simpl in Heq; injection Heq as -> ->.
    + congruence.
    + exists pre, m', post. split; [done|]. split; [done|].
      simpl in Hc. rewrite count_end_cons, Hm in Hc. lia.
  - intros (pre & m' & post & -> & Hm' & Hc).
    exists (m :: pre), m', post. split; [done|]. split; [done|].
    simpl. rewrite count_end_cons, Hm. lia.
Qed.

(** The two ways a run of the collecting loop can go. *)
Lemma collecting_loop_cases self incoming :
  (reaches_all_ends self (received incoming)
   /\ exists acts,
        trace_of (collecting_loop self incoming)
        = acts ++ [EndProcessingOnCollectingNode (_rank self) (_mpi_size self);
                   MpiFinalize; Exit 0]
        /\ flush_count acts = 0%nat
        /\ outcome_of (collecting_loop self incoming) = Exited 0)
  \/ (~ reaches_all_ends self (received incoming)
      /\ flush_count (trace_of (collecting_loop self incoming)) = 0%nat).
Proof.
  revert self. induction incoming as [|i incoming IH]; intros self.
  - right. split; [apply reaches_nil | done].
  - destruct i as [m | exc obs]; simpl.
    + fold (is_end m). destruct (is_end m) eqn:Hm.
      * simpl. destruct (Z.eqb_spec (_num_nomore self + 1) (_mpi_size self - 1))
          as [Heq | Hne].
        -- left. split.
           ++ exists [], m, (received incoming). split; [done|]. split; [done|].
              simpl. rewrite count_end_cons, Hm. unfold count_end. simpl. lia.
           ++ eexists [_; _; _]. done.
        -- specialize (IH (set_num_nomore self (_num_nomore self + 1))).
           rewrite <- (reaches_cons_end self m _ Hm Hne) in IH.
           destruct (collecting_loop _ incoming) as [[self' acts] out].
           unfold trace_of, outcome_of in *. simpl in *.
           destruct IH as [[Hr (acts' & -> & Hf & ->)] | [Hr Hf]].
           ++ left. split; [done|]. eexists (_ :: acts'). done.
           ++ right. split; [done|]. by rewrite flush_count_cons.
      * specialize (IH (set_num_collected_events self
                          (_num_collected_events self + 1))).
        rewrite <- (reaches_cons_data self m _ _ Hm) in IH.
        destruct (collecting_loop _ incoming) as [[self' acts] out].
        unfold trace_of, outcome_of in *. simpl in *.
        destruct IH as [[Hr (acts' & -> & Hf & ->)] | [Hr Hf]].
        -- left. split; [done|]. eexists (_ :: acts'). done.
        -- right. split; [done|]. by rewrite flush_count_cons.
    + right. split; [apply reaches_nil|].
      pose proof (shutdown_no_flush self "Reason not provided." obs) as H.
      destruct (shutdown self _ obs) as [acts out].
      unfold trace_of. simpl in *.
      apply flush_count_none. by repeat constructor.
Qed.

(** With at least one processing node still to finish, the count is reached
    exactly when enough [END]s are among the messages. *)
Lemma reaches_iff_enough self msgs :
  _num_nomore self < _mpi_size self - 1 ->
  reaches_all_ends self msgs
  <-> _mpi_size self - 1 <= _num_nomore self + count_end msgs.
Proof.
  revert self. induction msgs as [|m msgs IH]; intros self Hlt.
  - split; [by intros ?%reaches_nil|]. unfold count_end. simpl. lia.
  - rewrite count_end_cons. destruct (is_end m) eqn:Hm.
    + destruct (Z.eq_dec (_num_nomore self + 1) (_mpi_size self - 1))
        as [Heq | Hne].
      * split; [pose proof (count_end_nonneg msgs); lia|]. intros _.
        exists [], m, msgs. split; [done|]. split; [done|].
        simpl. rewrite count_end_cons, Hm. unfold count_end. simpl. lia.
      * rewrite (reaches_cons_end self m msgs Hm Hne), IH; simpl; lia.
    + rewrite (reaches_cons_data self m msgs (_num_collected_events self) Hm).
      rewrite IH; simpl; lia.
Qed.

(** C1: on the collecting node the final flush
    [end_processing_on_collecting_node] is called at most once; it is called
    exactly when, before any interrupt, an [END] message arrives that brings
    the count of [END]s received to [mpi_size - 1]; it is then followed by
    [MPI.Finalize()] and [exit(0)], which end the run; and, in a pool with at
    least one processing node, that moment comes exactly when the messages
    received hold at least [mpi_size - 1] [END]s. *)
Theorem final_flush_exactly_once :
  forall (mpi_size : Z) (lim : option Z) (incoming : list Incoming),
    let self := init 0 mpi_size lim in
    let r := start_collecting self incoming in
    (flush_count (trace_of r) <= 1)%nat
    /\ (flush_count (trace_of r) = 1%nat
        <-> reaches_all_ends self (received incoming))
    /\ (flush_count (trace_of r) = 1%nat ->
        exists acts,
          trace_of r = acts ++ [EndProcessingOnCollectingNode 0 mpi_size;
                                MpiFinalize; Exit 0]
          /\ flush_count acts = 0%nat
          /\ outcome_of r = Exited 0)
    /\ (2 <= mpi_size ->
        (reaches_all_ends self (received incoming)
         <-> mpi_size - 1 <= count_end (received incoming))).
Proof.
  intros mpi_size lim incoming self r.
  assert (exists banner,
            trace_of r
            = Print banner
                :: InitializeCollectingNode 0 mpi_size
                :: trace_of (collecting_loop self incoming)
            /\ outcome_of r = outcome_of (collecting_loop self incoming))
    as (banner & Htr & Hout).
  { subst r. unfold start_collecting.
    destruct (collecting_loop self incoming) as [[? ?] ?]. by eexists. }
  rewrite Htr, Hout, !flush_count_cons. simpl.
  destruct (collecting_loop_cases self incoming)
    as [[Hr (acts & -> & Hf & ->)] | [Hr Hf]].
  - rewrite flush_count_app, Hf. simpl.
    split; [done|]. split; [done|]. split.
    + intros _. eexists (_ :: _ :: acts). split; [done|].
      by rewrite !flush_count_cons.
    + intros Hsize. apply (reaches_iff_enough self). simpl. lia.
  - rewrite Hf. split; [lia|]. split; [done|]. split; [done|].
    intros Hsize.
    pose proof (reaches_iff_enough self (received incoming)) as H.
    simpl in H. apply H. lia.
Qed.

(** A pool of three nodes: data and [END] from rank 1, then data and [END]
    from rank 2, then a late message that is never received. *)
Lemma final_flush_exactly_once_witness :
  let d : Dict := {[ "peak_count" := VInt 12 ]} in
  let r := start_collecting (init 0 3 None)
             [Recv (d, 1); Recv (end_dict, 1); Recv (d, 2); Recv (end_dict, 2);
              Recv (d, 1)] in
  flush_count (trace_of r) = 1%nat
  /\ outcome_of r = Exited 0
  /\ collected (trace_of r) = [(d, 1); (d, 2)].
Proof.
  pose proof (final_flush_exactly_once 3 None
                [Recv ({[ "peak_count" := VInt 12 ]}, 1); Recv (end_dict, 1);
                 Recv ({[ "peak_count" := VInt 12 ]}, 2); Recv (end_dict, 2);
                 Recv ({[ "peak_count" := VInt 12 ]}, 1)])
    as (_ & H2 & H3 & H4).
  assert (flush_count
            (trace_of
               (start_collecting (init 0 3 None)
                  [Recv ({[ "peak_count" := VInt 12 ]}, 1); Recv (end_dict, 1);
                   Recv ({[ "peak_count" := VInt 12 ]}, 2); Recv (end_dict, 2);
                   Recv ({[ "peak_count" := VInt 12 ]}, 1)])) = 1%nat) as Hf.
  { apply H2, H4; [lia|]. vm_compute. discriminate. }
  split; [exact Hf|]. destruct (H3 Hf) as (acts & _ & _ & Hout).
  split; [exact Hout|]. vm_compute. reflexivity.
Defined.

(** An [END] received twice from rank 1 in a pool of four nodes: the count
    is 2 although one rank only has finished, and the second [END] changes
    the state; in a pool of three nodes the same two messages trigger the
    final flush. *)
Lemma duplicate_end_is_counted :
  let m : Message := (end_dict, 1) in
  _num_nomore (state_of (collecting_loop (init 0 4 None) [Recv m; Recv m])) = 2
  /\ end_ranks [m; m] = [1]
  /\ _num_nomore (state_of (collecting_loop (init 0 4 None) [Recv m])) = 1
  /\ flush_count (trace_of (collecting_loop (init 0 3 None) [Recv m; Recv m]))
     = 1%nat.
Proof. vm_compute. done. Qed.

(** C2, amended: the collecting node counts [END] messages, not ranks: as
    long as the run has not ended, [_num_nomore] has grown by the number of
    messages received that carry the key, whoever sent them; once the run
    has ended it is [mpi_size - 1]; and the rank in a message has no effect
    on the state. *)
Theorem end_messages_are_counted :
  forall (self : MpiParallelization) (msgs : list Message),
    let r := collecting_loop self (map Recv msgs) in
    match outcome_of r with
    | Blocked => _num_nomore (state_of r) = _num_nomore self + count_end msgs
    | Exited _ => _num_nomore (state_of r) = _mpi_size self - 1
    | Raised _ => False
    end
    /\ forall (d : Dict) (rank rank' : Z),
         state_of (collecting_loop self [Recv (d, rank)])
         = state_of (collecting_loop self [Recv (d, rank')]).
Proof.
  intros self msgs r. subst r. split.
  - revert self. induction msgs as [|m msgs IH]; intros self.
    + unfold count_end, state_of, outcome_of. simpl. lia.
    + simpl. rewrite count_end_cons. fold (is_end m). destruct (is_end m).
      * simpl. destruct (Z.eqb_spec (_num_nomore self + 1) (_mpi_size self - 1))
          as [Heq | Hne]; [done|].
        specialize (IH (set_num_nomore self (_num_nomore self + 1))).
        destruct (collecting_loop _ (map Recv msgs)) as [[self' acts] out].
        unfold state_of, outcome_of in *. simpl in *.
        destruct out; [done | lia | done].
      * specialize (IH (set_num_collected_events self
                          (_num_collected_events self + 1))).
        destruct (collecting_loop _ (map Recv msgs)) as [[self' acts] out].
        unfold state_of, outcome_of in *. simpl in *.
        destruct out; [done | lia | done].
  - intros d rank rank'. simpl.
    destruct (dict_has_key d "end"); [|done]. simpl.
    by destruct (_ =? _).
Qed.

(** C9: a message is taken for a termination record exactly when its
    dictionary has the key ["end"], whatever the value under the key and
    whatever the rank; such a message adds one to [_num_nomore], is not
    handed to [collect_data] and leaves [_num_collected_events] as it is;
    any other message is handed to [collect_data] and counted as collected. *)
Theorem end_key_classifies :
  forall (self : MpiParallelization) (d : Dict) (rank : Z),
    let r := collecting_loop self [Recv (d, rank)] in
    (is_end (d, rank) = true <-> "end" ∈ dom d)
    /\ (forall (v : pyval) (rank' : Z), is_end (<["end" := v]> d, rank') = true)
    /\ if is_end (d, rank) then
         _num_nomore (state_of r) = _num_nomore self + 1
         /\ _num_collected_events (state_of r) = _num_collected_events self
         /\ collected (trace_of r) = []
       else
         _num_nomore (state_of r) = _num_nomore self
         /\ _num_collected_events (state_of r) = _num_collected_events self + 1
         /\ collected (trace_of r) = [(d, rank)].
Proof.
  intros self d rank r. subst r. split; [apply dict_has_key_dom|]. split.
  { intros v rank'. unfold is_end, dict_has_key. simpl.
    by rewrite lookup_insert_eq. }
  simpl. unfold is_end. simpl. destruct (dict_has_key d "end"); [|done].
  simpl. by destruct (_ =? _).
Qed.

(** A payload of data that happens to hold the key ["end"], sent with a rank
    outside the pool: it is counted as a termination and never collected. *)
Lemma end_key_classifies_witness :
  let d : Dict := {[ "end" := VInt 0; "peak_count" := VInt 12 ]} in
  let r := collecting_loop (init 0 4 None) [Recv (d, 17)] in
  _num_nomore (state_of r) = 1
  /\ _num_collected_events (state_of r) = 0
  /\ collected (trace_of r) = [].
Proof.
  pose proof (end_key_classifies (init 0 4 None)
                {[ "end" := VInt 0; "peak_count" := VInt 12 ]} 17) as H.
  apply proj2, proj2 in H. exact H.
Defined.

Lemma dead_count_cons (o : ShutdownObs) (obs : list ShutdownObs) :
  dead_count (o :: obs) = (if dead_seen o then 1 else 0) + dead_count obs.
Proof.
  unfold dead_count. rewrite filter_cons.
  destruct (dead_seen o); case_decide; try done; simpl length; lia.
Qed.

(** The confirmation loop ends, and ends with [exit(0)], once the probe for
    [DEAD] has succeeded as many times as there are processing nodes. *)
Lemma shutdown_confirm_loop_exits self c obs :
  c < _mpi_size self - 1 ->
  _mpi_size self - 1 <= c + dead_count obs ->
  (shutdown_confirm_loop self c obs).2 = Exited 0
  /\ last (shutdown_confirm_loop self c obs).1 = Some (Exit 0).
Proof.
  revert c. induction obs as [|o obs IH]; intros c Hc Hd.
  - unfold dead_count in Hd. simpl in Hd. lia.
  - rewrite dead_count_cons in Hd. destruct o as [d dd|]; simpl; [|done].
    simpl in Hd. set (c' := if dd then c + 1 else c) in *.
    destruct (Z.eqb_spec c' (_mpi_size self - 1)) as [Heq | Hne].
    + simpl. split; [done|]. by destruct d.
    + destruct (IH c') as [Hout Hlast]; [subst c'; destruct dd; lia .. |].
      destruct (shutdown_confirm_loop self c' obs) as [acts out].
      simpl in *. split; [done|].
      destruct d; [|done]. simpl. by destruct acts.
Qed.

(** The confirmation loop sends no [DIE] and, when it exits, exits with 0. *)
Lemma shutdown_confirm_loop_quiet self c obs :
  die_dests (shutdown_confirm_loop self c obs).1 = []
  /\ ((shutdown_confirm_loop self c obs).2 = Blocked
      \/ (shutdown_confirm_loop self c obs).2 = Exited 0).
Proof.
  revert c. induction obs as [|o obs IH]; intros c; simpl.
  - split; [done | by left].
  - destruct o as [d dd|]; [|split; [done | by right]].
    set (c' := if dd then c + 1 else c).
    destruct (c' =? _mpi_size self - 1).
    + simpl. split; [by destruct d | by right].
    + specialize (IH c').
      destruct (shutdown_confirm_loop self c' obs) as [acts out].
      simpl in *. destruct IH as [IH1 IH2].
      split; [destruct d; exact IH1 | exact IH2].
Qed.


(** Whatever the collecting node receives, a run that exits, exits with 0. *)
Lemma collecting_exit_status self incoming code :
  outcome_of (collecting_loop self incoming) = Exited code -> code = 0.
Proof.
  revert self. induction incoming as [|i incoming IH]; intros self; [done|].
  destruct i as [m | exc obs]; simpl.
  - destruct (dict_has_key m.1 "end").
    + simpl. destruct (_ =? _); [by intros [= <-]|].
      specialize (IH (set_num_nomore self (_num_nomore self + 1))).
      by destruct (collecting_loop _ incoming) as [[? ?] ?].
    + specialize (IH (set_num_collected_events self
                        (_num_collected_events self + 1))).
      by destruct (collecting_loop _ incoming) as [[? ?] ?].
  - unfold shutdown. destruct (_rank self =? 0); [|by intros [= <-]].
    destruct (shutdown_confirm_loop_quiet self 0 obs) as [_ H].
    destruct (shutdown_confirm_loop self 0 obs) as [acts out]. simpl in *.
    unfold outcome_of. simpl. destruct H as [-> | ->]; [done | by intros [= <-]].
Qed.

Lemma collected_app (t1 t2 : list Action) :
  collected (t1 ++ t2) = collected t1 ++ collected t2.
Proof. unfold collected. apply omap_app. Qed.

Lemma shutdown_confirm_loop_collects_nothing self c obs :
  collected (shutdown_confirm_loop self c obs).1 = [].
Proof.
  revert c. induction obs as [|o obs IH]; intros c; simpl; [done|].
  destruct o as [d dd|]; [|done].
  set (c' := if dd then c + 1 else c).
  destruct (c' =? _mpi_size self - 1).
  - by destruct d.
  - specialize (IH c'). destruct (shutdown_confirm_loop self c' obs) as [acts out].
    cbn [fst] in *. rewrite collected_app, IH. by destruct d.
Qed.

Lemma shutdown_confirm_loop_outcome self c obs :
  c < _mpi_size self - 1 ->
  (shutdown_confirm_loop self c obs).2 = Exited 0
  <-> RuntimeError ∈ obs \/ _mpi_size self - 1 <= c + dead_count obs.
Proof.
  revert c. induction obs as [|o obs IH]; intros c Hc.
  - cbn. unfold dead_count. cbn. split; [done|].
    intros [H | H]; [by apply elem_of_nil in H | lia].
  - rewrite dead_count_cons. destruct o as [d dd|]; cbn.
    + set (c' := if dd then c + 1 else c).
      assert (c + (if dd then 1 else 0) = c') as Hc' by (subst c'; destruct dd; lia).
      destruct (Z.eqb_spec c' (_mpi_size self - 1)) as [Heq | Hne].
      * cbn. split; [|done]. intros _. right.
        unfold dead_count. lia.
      * specialize (IH c').
        destruct (shutdown_confirm_loop self c' obs) as [acts out]. cbn in *.
        rewrite IH by (subst c'; destruct dd; lia).
        rewrite elem_of_cons. split.
        -- intros [H | H]; [left; by right | right; lia].
        -- intros [[H | H] | H]; [done | by left | right; lia].
    + split; [|done]. intros _. left. by left.
Qed.









End CollectingFacts.

(** ** The processing nodes *)

Section ProcessingFacts.

Import Mpi.

Context `{Handler : OmDataEventHandler} `{Processing : OmProcessing}.

Lemma at_frame_at_frame (event : Event) (f f' : Z) :
  at_frame (at_frame event f) f' = at_frame event f'.
Proof. unfold at_frame. apply insert_insert_eq. Qed.

Lemma at_frame_current (event : Event) (f : Z) :
  at_frame event f !! "current_frame" = Some (VInt f).
Proof. unfold at_frame. apply lookup_insert_eq. Qed.

(** The actions of [if req: req.Wait()]. *)
Lemma wait_if_req_cases (st : Locals) :
  (req st = None /\ wait_if_req st = ([], st))
  \/ (exists r, req st = Some r
                /\ wait_if_req st
                   = ([ReqWait r], mkLocals None (next_req st) (pstate st))).
Proof.
  unfold wait_if_req. destruct (req st) as [r|]; [right; by exists r | by left].
Qed.

(** What the inner loop does, frame by frame: every frame is passed to
    [extract_data]; the data of the frames that could be extracted, and only
    those, are processed and sent; no event is closed. *)
Lemma frame_loop_spec self event n offsets st :
  let acts := (frame_loop self event n offsets st).1.1 in
  let events := map (fun o => at_frame event (n + o)) offsets in
  extracted acts = events
  /\ frames_visited acts = map (fun o => VInt (n + o)) offsets
  /\ processed acts = extractable events
  /\ sent acts = payloads self (pstate st) (extractable events)
  /\ closed acts = []
  /\ printed acts = skip_log (failures events).
Proof.
  revert event st. induction offsets as [|o offsets IH]; intros event st; [done|].
  simpl. fold (at_frame event (n + o)).
  assert (map (fun o' => at_frame (at_frame event (n + o)) (n + o')) offsets
          = map (fun o' => at_frame event (n + o')) offsets) as Hmap.
  { apply list_fmap_ext. intros _ o' _. apply at_frame_at_frame. }
  unfold extractable, failures. simpl.
  destruct (extract_data (at_frame event (n + o))) as [data | exc] eqn:He.
  - destruct (process_data (_rank self) (_mpi_size self) (pstate st) data)
      as [m ps] eqn:Hp.
    destruct (wait_if_req st) as [waits st1] eqn:Hw.
    specialize (IH (at_frame event (n + o))
                   (mkLocals (Some (next_req st1)) (S (next_req st1)) ps)).
    destruct (frame_loop self (at_frame event (n + o)) n offsets _)
      as [[acts st'] event'].
    simpl in IH. rewrite Hmap in IH.
    destruct IH as (E1 & E2 & E3 & E4 & E5 & E6).
    unfold extracted, frames_visited, processed, sent, closed, printed,
      extractable, failures in *.
    simpl. rewrite at_frame_current.
    destruct (wait_if_req_cases st) as [[_ Hw'] | (r & _ & Hw')];
      rewrite Hw' in Hw; injection Hw as <- <-; simpl; rewrite Hp;
      (repeat split; [f_equal; exact E1 | f_equal; exact E2 | f_equal; exact E3
                     | f_equal; exact E4 | exact E5 | exact E6]).
  - specialize (IH (at_frame event (n + o)) st).
    destruct (frame_loop self (at_frame event (n + o)) n offsets st)
      as [[acts st'] event'].
    simpl in IH. rewrite Hmap in IH.
    destruct IH as (E1 & E2 & E3 & E4 & E5 & E6).
    unfold extracted, frames_visited, processed, sent, closed, printed,
      extractable, failures in *.
    simpl. rewrite at_frame_current.
    repeat split; [f_equal; exact E1 | f_equal; exact E2 | exact E3
                  | exact E4 | exact E5 | do 2 f_equal; exact E6].
Qed.

(** [range(-k, 0)] shifted by [n] lists the last [k] frames. *)
Lemma range_last_frames (n k : Z) :
  map (fun o => n + o) (py_range (- k) 0) = last_frames n k.
Proof.
  unfold py_range, last_frames.
  trans (Z.add n <$> seqZ (- k) (0 - - k)); [done|].
  rewrite fmap_add_seqZ. f_equal; lia.
Qed.

Lemma extracted_app t1 t2 : extracted (t1 ++ t2) = extracted t1 ++ extracted t2.
Proof. apply omap_app. Qed.
Lemma frames_visited_app t1 t2 :
  frames_visited (t1 ++ t2) = frames_visited t1 ++ frames_visited t2.
Proof. apply omap_app. Qed.
Lemma processed_app t1 t2 : processed (t1 ++ t2) = processed t1 ++ processed t2.
Proof. apply omap_app. Qed.
Lemma sent_app t1 t2 : sent (t1 ++ t2) = sent t1 ++ sent t2.
Proof. apply omap_app. Qed.
Lemma closed_app t1 t2 : closed (t1 ++ t2) = closed t1 ++ closed t2.
Proof. apply omap_app. Qed.
Lemma printed_app t1 t2 : printed (t1 ++ t2) = printed t1 ++ printed t2.
Proof. apply omap_app. Qed.

(** What the body of the outer loop does for one event. *)
Lemma process_event_spec self event st :
  let opened := open_event event in
  let n := get_num_frames_in_event opened in
  let k := num_frames_to_process self n in
  let events := map (at_frame opened) (last_frames n k) in
  let tr := (process_event self event st).1 in
  extracted tr = events
  /\ frames_visited tr = map VInt (last_frames n k)
  /\ processed tr = extractable events
  /\ sent tr = payloads self (pstate st) (extractable events)
  /\ printed tr = skip_log (failures events)
  /\ exists acts event',
       tr = OpenEvent event :: acts ++ [CloseEvent event']
       /\ closed acts = [].
Proof.
  intros opened n k events tr. subst tr. unfold process_event.
  fold opened. fold n. fold k.
  pose proof (frame_loop_spec self opened n (py_range (- k) 0) st) as H.
  simpl in H.
  replace (map (fun o => at_frame opened (n + o)) (py_range (- k) 0))
    with events in H
    by (subst events; rewrite <- range_last_frames, <- list_fmap_compose; done).
  replace (map (fun o => VInt (n + o)) (py_range (- k) 0))
    with (map VInt (last_frames n k)) in H
    by (rewrite <- range_last_frames, <- list_fmap_compose; done).
  destruct (frame_loop self opened n (py_range (- k) 0) st)
    as [[acts st'] event'].
  simpl in H. destruct H as (E1 & E2 & E3 & E4 & E5 & E6).
  assert (exists waits, wait_if_req st' = (waits, (wait_if_req st').2)
                        /\ extracted waits = [] /\ frames_visited waits = []
                        /\ processed waits = [] /\ sent waits = []
                        /\ closed waits = [] /\ printed waits = [])
    as (waits & Hw & W1 & W2 & W3 & W4 & W5 & W6).
  { destruct (wait_if_req_cases st') as [[_ ->] | (r & _ & ->)];
      eexists; done. }
  rewrite Hw. simpl.
  change (OpenEvent event :: acts ++ waits ++ [CloseEvent event'])
    with ([OpenEvent event] ++ acts ++ waits ++ [CloseEvent event']).
  rewrite !extracted_app, !frames_visited_app, !processed_app, !sent_app,
    !printed_app.
  rewrite E1, E2, E3, E4, E6, W1, W2, W3, W4, W6. simpl. rewrite !app_nil_r.
  repeat split; try done.
  exists (acts ++ waits), event'. rewrite <- (assoc_L (++)). split; [done|].
  by rewrite closed_app, E5, W5.
Qed.


(** C5: an extraction error on a frame costs that frame only.  Every one of
    the last [k] frames of the event is passed to [extract_data], whether or
    not an earlier one failed; the frames whose extraction succeeds, and no
    others, are processed, and one payload is sent for each of them, in
    order; for each frame that fails the message of the error is printed,
    followed by a line saying that it is skipped; the event is closed at the
    end, once; and the loop goes on with the events that follow. *)
Theorem extraction_error_skips_one_frame :
  forall (self : MpiParallelization) (event : Event) (st : Locals)
         (rest : list (bool * Event)),
    let opened := open_event event in
    let n := get_num_frames_in_event opened in
    let k := num_frames_to_process self n in
    let events := map (at_frame opened) (last_frames n k) in
    let r := process_event self event st in
    extracted r.1 = events
    /\ processed r.1 = extractable events
    /\ sent r.1 = payloads self (pstate st) (extractable events)
    /\ printed r.1 = skip_log (failures events)
    /\ (exists acts event',
          r.1 = OpenEvent event :: acts ++ [CloseEvent event']
          /\ closed acts = [])
    /\ (event_loop self ((false, event) :: rest) st).1.1
       = r.1 ++ (event_loop self rest r.2).1.1.
Proof.
  intros self event st rest opened n k events r.
  destruct (process_event_spec self event st) as (E1 & _ & E3 & E4 & E5 & E6).
  fold opened n k events r in E1, E3, E4, E5, E6.
  repeat split; try done.
  simpl. fold r. destruct r as [acts st1]. simpl.
  by destruct (event_loop self rest st1) as [[acts' st'] out].
Qed.

End ProcessingFacts.


(** An event of four frames whose frame 1 cannot be extracted, followed by
    an event of five frames, with no limit: frames 0, 2 and 3 of the first
    event are sent, the event is closed and the second event is processed. *)
Lemma extraction_error_skips_one_frame_witness :
  let self := Mpi.init 1 2 None in
  let st := Mpi.example_locals in
  let r := @Mpi.process_event Mpi.example_handler Mpi.example_processing
             self Mpi.example_bad_event st in
  map fst (Mpi.sent r.1)
  = [ {[ "frame" := VInt 0 ]}; {[ "frame" := VInt 2 ]}; {[ "frame" := VInt 3 ]} ]
  /\ length (Mpi.extracted r.1) = 4%nat
  /\ Mpi.printed r.1 = ["cannot read frame"; "Skipping event..."]
  /\ length (Mpi.closed r.1) = 1%nat
  /\ (@Mpi.event_loop Mpi.example_handler Mpi.example_processing self
        [(false, Mpi.example_bad_event); (false, Mpi.example_event)] st).1.1
     = r.1 ++ (@Mpi.event_loop Mpi.example_handler Mpi.example_processing self
                 [(false, Mpi.example_event)] r.2).1.1.
Proof.
  pose proof (@extraction_error_skips_one_frame
                Mpi.example_handler Mpi.example_processing
                (Mpi.init 1 2 None) Mpi.example_bad_event
                Mpi.example_locals [(false, Mpi.example_event)])
    as (H1 & _ & H3 & H4 & _ & H6).
  split; [rewrite H3; vm_compute; reflexivity|].
  split; [rewrite H1; vm_compute; reflexivity|].
  split; [rewrite H4; vm_compute; reflexivity|].
  split; [vm_compute; reflexivity | exact H6].
Defined.

(** ** One send in flight *)

Section TransportFacts.

Import Mpi.

Lemma net_after_from (net : Net) (t1 t2 : list Action) :
  fold_left net_step (t1 ++ t2) net
  = fold_left net_step t2 (fold_left net_step t1 net).
Proof. apply fold_left_app. Qed.

(** The discipline of a trace made of two parts. *)
Lemma one_in_flight_app (net : Net) (t1 t2 : list Action) :
  one_in_flight net (t1 ++ t2)
  <-> one_in_flight net t1 /\ one_in_flight (fold_left net_step t1 net) t2.
Proof.
  revert net. induction t1 as [|a t1 IH]; intros net; simpl; [tauto|].
  rewrite IH. tauto.
Qed.

(** Under the discipline no prefix of the trace leaves two sends pending. *)
Lemma one_in_flight_prefix (net : Net) (trace p : list Action) :
  (length (pending net) <= 1)%nat ->
  one_in_flight net trace ->
  p `prefix_of` trace ->
  (length (pending (fold_left net_step p net)) <= 1)%nat.
Proof.
  intros Hnet Hd [q ->]. apply one_in_flight_app in Hd as [Hd _]. clear q.
  revert net Hnet Hd. induction p as [|a p IH]; intros net Hnet Hd; [done|].
  simpl in *. destruct Hd as (_ & Hlen & Hd). by apply IH.
Qed.

(** Under the discipline a send starts, and an event is closed, with no send
    pending. *)
Lemma one_in_flight_before (net : Net) (trace p : list Action) (a : Action) :
  one_in_flight net trace ->
  (p ++ [a]) `prefix_of` trace ->
  match a with
  | IsendData _ _ _ _ | CloseEvent _ => pending (fold_left net_step p net) = []
  | _ => True
  end.
Proof.
  intros Hd [q ->]. apply one_in_flight_app in Hd as [Hd _].
  apply one_in_flight_app in Hd as [_ Hd]. simpl in Hd. tauto.
Qed.

(** Under the discipline the messages leave in the order of their sends. *)
Lemma one_in_flight_fifo (net : Net) (trace : list Action) :
  (length (pending net) <= 1)%nat ->
  one_in_flight net trace ->
  delivered (fold_left net_step trace net)
    ++ map snd (pending (fold_left net_step trace net))
  = delivered net ++ map snd (pending net) ++ sent trace.
Proof.
  revert net. induction trace as [|a trace IH]; intros net Hnet Hd.
  - simpl. by rewrite app_nil_r.
  - simpl in Hd. destruct Hd as (Hpre & Hlen & Hd).
    simpl. rewrite (IH _ Hlen Hd). clear IH Hd.
    destruct a; try (simpl; done).
    + simpl in *. rewrite Hpre. simpl. done.
    + simpl in *. destruct (pending net) as [|[r m] [|? ?]]; simpl in *;
        [by rewrite app_nil_r | | lia].
      rewrite !filter_cons, !filter_nil. simpl.
      match goal with
      | |- context [decide (r = ?r')] => destruct (decide (r = r')) as [->|Hne]
      end.
      * rewrite decide_False by (intros H; by apply H).
        simpl. by rewrite <- (assoc_L (++)).
      * rewrite decide_True by done. simpl. by rewrite app_nil_r.
Qed.

End TransportFacts.

Section DisciplineFacts.

Import Mpi.

Context `{Handler : OmDataEventHandler} `{Processing : OmProcessing}.

Lemma req_tracks_length (st : Locals) (net : Net) :
  req_tracks st net -> (length (pending net) <= 1)%nat.
Proof.
  unfold req_tracks. destruct (req st); [intros [m ->] | intros ->]; simpl; lia.
Qed.

(** Quiet actions keep the discipline and leave the transport as it is. *)
Lemma quiet_discipline (net : Net) (trace : list Action) :
  (length (pending net) <= 1)%nat ->
  Forall (fun a => is_quiet a = true) trace ->
  one_in_flight net trace /\ fold_left net_step trace net = net.
Proof.
  intros Hnet. induction 1 as [|a trace Ha _ IH]; [done|].
  assert (net_step net a = net) as Hstep by (by destruct a).
  simpl. rewrite Hstep. destruct IH as [IH1 IH2].
  split; [|done]. split; [by destruct a|]. done.
Qed.

(** [if req: req.Wait()] keeps the discipline and leaves no send pending. *)
Lemma wait_discipline (st : Locals) (net : Net) :
  req_tracks st net ->
  one_in_flight net (wait_if_req st).1
  /\ pending (fold_left net_step (wait_if_req st).1 net) = []
  /\ req (wait_if_req st).2 = None.
Proof.
  unfold req_tracks, wait_if_req. destruct (req st) as [r|] eqn:Hr.
  - intros [m Hm]. simpl. rewrite Hm.
    rewrite filter_cons, filter_nil. simpl.
    rewrite decide_False by (intros H; by apply H).
    simpl. repeat split; (done || lia).
  - intros Hp. simpl. done.
Qed.

(** The inner loop keeps the discipline. *)
Lemma frame_loop_discipline self event n offsets st net :
  req_tracks st net ->
  one_in_flight net (frame_loop self event n offsets st).1.1
  /\ req_tracks (frame_loop self event n offsets st).1.2
       (fold_left net_step (frame_loop self event n offsets st).1.1 net).
Proof.
  revert event st net.
  induction offsets as [|o offsets IH]; intros event st net Hinv; [done|].
  pose proof (req_tracks_length st net Hinv) as Hlen.
  simpl. destruct (extract_data _) as [data | exc].
  - destruct (process_data _ _ _ data) as [m ps].
    destruct (wait_discipline st net Hinv) as (Hw1 & Hw2 & Hw3).
    destruct (wait_if_req st) as [waits st1]. simpl in Hw1, Hw2, Hw3.
    set (st2 := mkLocals (Some (next_req st1)) (S (next_req st1)) ps).
    set (net1 := fold_left net_step waits net) in *.
    set (net2 := net_step net1 (IsendData (next_req st1) m 0 0)).
    assert (req_tracks st2 net2) as Hinv2.
    { unfold req_tracks. simpl. rewrite Hw2. by eexists. }
    specialize (IH (<["current_frame" := VInt (n + o)]> event) st2 net2 Hinv2).
    destruct (frame_loop self _ n offsets st2) as [[acts st'] event'].
    simpl in *. destruct IH as [IH1 IH2].
    rewrite net_after_from. fold net1. simpl. fold net2.
    split; [|done].
    split; [done|]. split; [done|]. split; [done|]. split; [done|].
    apply one_in_flight_app. split; [done|]. fold net1. simpl.
    split; [done|]. split; [|done].
    subst net2. simpl. rewrite Hw2. simpl. lia.
  - specialize (IH (<["current_frame" := VInt (n + o)]> event) st net Hinv).
    destruct (frame_loop self _ n offsets st) as [[acts st'] event'].
    simpl in *. tauto.
Qed.

(** The body of the outer loop keeps the discipline and ends with no send
    pending. *)
Lemma process_event_discipline self event st net :
  req_tracks st net ->
  one_in_flight net (process_event self event st).1
  /\ pending (fold_left net_step (process_event self event st).1 net) = []
  /\ req (process_event self event st).2 = None.
Proof.
  intros Hinv. unfold process_event.
  pose proof (frame_loop_discipline self (open_event event)
                (get_num_frames_in_event (open_event event))
                (py_range (- num_frames_to_process self
                               (get_num_frames_in_event (open_event event))) 0)
                st net Hinv) as [Hf1 Hf2].
  destruct (frame_loop self _ _ _ st) as [[acts st1] event'].
  simpl in Hf1, Hf2.
  destruct (wait_discipline st1 _ Hf2) as (Hw1 & Hw2 & Hw3).
  destruct (wait_if_req st1) as [waits st2]. simpl in *.
  rewrite !net_after_from. simpl.
  split; [|done].
  split; [done|]. split; [exact (req_tracks_length st net Hinv)|].
  apply one_in_flight_app. split; [done|].
  apply one_in_flight_app. split; [done|].
  simpl. rewrite Hw2. repeat split; first [done | simpl; lia].
Qed.

(** The outer loop keeps the discipline and ends with no send pending. *)
Lemma event_loop_discipline self events st net :
  req st = None -> pending net = [] ->
  one_in_flight net (event_loop self events st).1.1
  /\ pending (fold_left net_step (event_loop self events st).1.1 net) = []
  /\ req (event_loop self events st).1.2 = None.
Proof.
  revert st net.
  induction events as [|[die event] events IH]; intros st net Hreq Hnet; [done|].
  simpl. destruct die.
  - assert (Forall (fun a => is_quiet a = true)
              (shutdown self
                 ("Shutting down RANK: " ++ pretty (_rank self) ++ ".") []).1)
      as Hq.
    { unfold shutdown. destruct (_rank self =? 0); simpl.
      - constructor; [done|]. rewrite app_nil_r.
        apply Forall_fmap. by apply Forall_true.
      - by repeat constructor. }
    destruct (shutdown self _ []) as [acts out]. simpl in *.
    destruct (quiet_discipline net acts) as [Hq1 Hq2];
      [rewrite Hnet; simpl; lia | done |].
    rewrite Hq2. done.
  - assert (req_tracks st net) as Hinv by (unfold req_tracks; by rewrite Hreq).
    destruct (process_event_discipline self event st net Hinv)
      as (Hp1 & Hp2 & Hp3).
    destruct (process_event self event st) as [acts st1]. simpl in *.
    specialize (IH st1 _ Hp3 Hp2).
    destruct (event_loop self events st1) as [[acts' st'] out]. simpl in *.
    rewrite net_after_from. split; [|tauto].
    apply one_in_flight_app. tauto.
Qed.

(** What follows the outer loop keeps the discipline as well. *)
Lemma finish_discipline self st net :
  pending net = [] ->
  one_in_flight net (finish self st)
  /\ pending (fold_left net_step (finish self st) net) = [].
Proof.
  intros Hnet. unfold finish.
  destruct (end_processing_on_processing_node _ _ _) as [[d|] ps]; simpl;
    rewrite ?Hnet; simpl;
    rewrite ?filter_cons, ?filter_nil; simpl;
    rewrite ?decide_False by (intros H; by apply H);
    rewrite ?decide_True by done; simpl;
    rewrite ?filter_cons, ?filter_nil; simpl;
    rewrite ?decide_False by (intros H; by apply H);
    rewrite ?decide_True by done; simpl;
    repeat split; try done; lia.
Qed.

(** A whole run of a processing node keeps the discipline and ends with no
    send pending. *)
Lemma start_processing_discipline self events ps0 :
  one_in_flight (mkNet [] []) (start_processing self events ps0).1
  /\ pending (net_after (start_processing self events ps0).1) = [].
Proof.
  unfold start_processing, net_after.
  destruct (event_loop_discipline self events (mkLocals None 0%nat ps0)
              (mkNet [] []) eq_refl eq_refl) as (He1 & He2 & He3).
  destruct (event_loop self events _) as [[acts st] [code|]]; simpl in *.
  - repeat split; first [done | simpl; lia].
  - rewrite net_after_from.
    destruct (finish_discipline self st _ He2) as [Hf1 Hf2].
    split; [|done]. split; [done|]. split; [simpl; lia|].
    apply one_in_flight_app. done.
Qed.

(** C6: at every point of the run of a processing node at most one send is
    pending; every send (of a frame's payload, of the final payload, of the
    [END] sentinel) is started when no send is pending, the previous one
    having been waited for; an event is closed when no send is pending; the
    run ends with no send pending, and the messages have left in the order
    in which their sends were started. *)
Theorem one_send_in_flight :
  forall (self : MpiParallelization) (events : list (bool * Event))
         (ps0 : PState),
    let tr := (start_processing self events ps0).1 in
    (forall p, p `prefix_of` tr -> (length (pending (net_after p)) <= 1)%nat)
    /\ (forall p r m dest tag,
          (p ++ [IsendData r m dest tag]) `prefix_of` tr ->
          pending (net_after p) = [])
    /\ (forall p event,
          (p ++ [CloseEvent event]) `prefix_of` tr ->
          pending (net_after p) = [])
    /\ pending (net_after tr) = []
    /\ delivered (net_after tr) = sent tr.
Proof.
  intros self events ps0 tr.
  destruct (start_processing_discipline self events ps0) as [Hd Hp].
  fold tr in Hd, Hp.
  split.
  { intros p Hpre. apply (one_in_flight_prefix _ tr); [simpl; lia | done..]. }
  split.
  { intros p r m dest tag Hpre.
    apply (one_in_flight_before _ tr p (IsendData r m dest tag) Hd Hpre). }
  split.
  { intros p event Hpre.
    apply (one_in_flight_before _ tr p (CloseEvent event) Hd Hpre). }
  split; [done|].
  pose proof (one_in_flight_fifo (mkNet [] []) tr ltac:(simpl; lia) Hd) as H.
  unfold net_after in *. rewrite Hp in H. simpl in H.
  by rewrite app_nil_r in H.
Qed.

End DisciplineFacts.

(** A run over two events, the first with a frame that fails: the payloads
    of eight frames, the final payload and the sentinel leave in order, one
    at a time. *)
Lemma one_send_in_flight_witness :
  let tr := (@Mpi.start_processing Mpi.example_handler Mpi.example_processing
               (Mpi.init 1 2 None)
               [(false, Mpi.example_bad_event); (false, Mpi.example_event)]
               0).1 in
  Mpi.pending (Mpi.net_after tr) = []
  /\ Mpi.delivered (Mpi.net_after tr) = Mpi.sent tr
  /\ length (Mpi.sent tr) = 10%nat.
Proof.
  pose proof (@one_send_in_flight Mpi.example_handler Mpi.example_processing
                (Mpi.init 1 2 None)
                [(false, Mpi.example_bad_event); (false, Mpi.example_event)]
                0) as (_ & _ & _ & H4 & H5).
  split; [exact H4|]. split; [exact H5|]. vm_compute. reflexivity.
Defined.

(** * Further properties *)

(** ** The accessor outside the required and typed case *)

Section ParametersMore.

Import Parameters.

(** X1: [required] matters for an absent or null parameter only: a call
    with [required = False] gives what the call with [required = True]
    gives, except that where the latter raises [OmMissingParameterError] the
    former returns [None]. *)
Theorem get_param_not_required :
  forall (self : MonitorParams) (g k : string) (ot : option pytype),
    get_param self g k ot false
    = match get_param self g k ot true with
      | (Raise OmMissingParameterError, self') => (Return VNone, self')
      | r => r
      end.
Proof.
  intros self g k ot. unfold get_param.
  destruct (_monitor_params self !! g) as [grp|]; [|done].
  destruct (VNone_dec (dict_get grp k)) as [-> | Hv]; [by destruct ot|].
  rewrite (is_None_false _ Hv). simpl.
  destruct ot as [t|]; [|done].
  destruct t, (dict_get grp k); done.
Qed.

(** An absent or null parameter that is not required. *)
Lemma get_param_missing_optional self g k ot grp :
  _monitor_params self !! g = Some grp ->
  grp !! k = None \/ grp !! k = Some VNone ->
  get_param self g k ot false = (Return VNone, self).
Proof.
  unfold get_param. intros -> Hk.
  pose proof (proj2 (dict_get_is_None grp k) Hk) as Hn.
  destruct (dict_get grp k); try discriminate. by destruct ot.
Qed.

(** X2: what a typed call returns is of the requested type, up to the two
    widenings, and is the value stored in the tree; the one exception is
    [None], returned for an absent or null parameter that is not required. *)
Theorem get_param_returns_typed :
  forall (self : MonitorParams) (g k : string) (t : pytype) (req : bool)
         (v : pyval),
    (get_param self g k (Some t) req).1 = Return v ->
    (v = VNone /\ req = false)
    \/ (v <> VNone /\ type_matches t v
        /\ exists grp, _monitor_params self !! g = Some grp
                       /\ grp !! k = Some v).
Proof.
  intros self g k t req v.
  destruct (_monitor_params self !! g) as [grp|] eqn:Hg;
    [|by rewrite (get_param_no_group self g k _ _ Hg)].
  destruct (grp !! k) as [w|] eqn:Hk.
  - destruct (VNone_dec w) as [-> | Hw].
    + destruct req.
      * by rewrite (get_param_missing self g k _ grp Hg (or_intror Hk)).
      * rewrite (get_param_missing_optional self g k _ grp Hg (or_intror Hk)).
        intros [= <-]. by left.
    + rewrite (get_param_found self g k t req grp w Hg Hk Hw). simpl.
      destruct (accepts t w) eqn:Ha; [|done].
      intros [= <-]. right. split; [done|].
      split; [by apply accepts_type_matches|]. by exists grp.
  - destruct req.
    + by rewrite (get_param_missing self g k _ grp Hg (or_introl Hk)).
    + rewrite (get_param_missing_optional self g k _ grp Hg (or_introl Hk)).
      intros [= <-]. by left.
Qed.

(** On the example configuration, the beam energy asked for as a float. *)
Lemma get_param_returns_typed_witness :
  (get_param example_params "data_retrieval_layer" "fallback_beam_energy_in_eV"
             (Some TFloat) false).1 = Return (VInt 9000)
  /\ type_matches TFloat (VInt 9000).
Proof.
  assert ((get_param example_params "data_retrieval_layer"
             "fallback_beam_energy_in_eV" (Some TFloat) false).1
          = Return (VInt 9000)) as H.
  { rewrite (get_param_found example_params _ _ TFloat false example_group
               (VInt 9000) example_params_group example_group_energy);
      [reflexivity | discriminate]. }
  split; [exact H|].
  destruct (get_param_returns_typed example_params "data_retrieval_layer"
              "fallback_beam_energy_in_eV" TFloat false (VInt 9000) H)
    as [[? _] | (_ & Hm & _)]; [discriminate | exact Hm].
Defined.

End ParametersMore.

(** ** The offline generator beyond the partition *)

Section PsanaMore.

Import Psana.

Context {Time : Type}.

(** X3: how many events a processing node gets.  With [num] the ceiling of
    the length of the run over the number of processing nodes, the node of
    rank [r >= 1] gets [min(num, max(0, T - (r-1)*num))] events: [num] of
    them while the run lasts, the remainder for the node where it ends, and
    none at all for the nodes after it, which happens as soon as
    [T <= (r-1)*num]. *)
Theorem offline_slice_length :
  forall (times : list Time) (mpi_pool_size r : Z),
    2 <= mpi_pool_size ->
    1 <= r ->
    exists num sl,
      num_events_curr_node (Z.of_nat (length times)) mpi_pool_size = Some num
      /\ events_curr_node times r mpi_pool_size = Some sl
      /\ Z.of_nat (length sl)
         = Z.min num (Z.max 0 (Z.of_nat (length times) - (r - 1) * num))
      /\ (sl = [] <-> Z.of_nat (length times) <= (r - 1) * num).
Proof.
  intros times mpi_pool_size r Hpool Hr.
  destruct (num_events_curr_node_spec (Z.of_nat (length times)) mpi_pool_size)
    as (num & Hnum & Hpos & Hlo & Hhi); [lia | done |].
  exists num, (py_slice times ((r - 1) * num) (r * num)).
  split; [done|].
  split; [unfold events_curr_node; by rewrite Hnum|].
  rewrite py_slice_nonneg by nia.
  assert (Z.of_nat (length (take (Z.to_nat (r * num - (r - 1) * num))
                              (drop (Z.to_nat ((r - 1) * num)) times)))
          = Z.min num (Z.max 0 (Z.of_nat (length times) - (r - 1) * num)))
    as Hlen.
  { rewrite length_take, length_drop. nia. }
  split; [exact Hlen|].
  split.
  - intros Hnil. rewrite Hnil in Hlen. simpl in Hlen. nia.
  - intros Hle. apply length_zero_iff_nil. nia.
Qed.

(** X4: the generator gives no event to a rank that is not the rank of a
    processing node: rank 0, the collecting node, and any rank from the size
    of the pool on. *)
Theorem offline_slice_outside_pool :
  forall (times : list Time) (mpi_pool_size r : Z),
    2 <= mpi_pool_size ->
    r = 0 \/ mpi_pool_size <= r ->
    events_curr_node times r mpi_pool_size = Some [].
Proof.
  intros times mpi_pool_size r Hpool Hr.
  destruct (num_events_curr_node_spec (Z.of_nat (length times)) mpi_pool_size)
    as (num & Hnum & Hpos & Hlo & Hhi); [lia | done |].
  unfold events_curr_node. rewrite Hnum. simpl. f_equal.
  destruct Hr as [-> | Hr].
  - replace (0 * num) with 0 by lia.
    generalize ((0 - 1) * num), (ltac:(lia) : (0 - 1) * num <= 0).
    intros a Ha. unfold py_slice. cbv zeta.
    destruct (Z.ltb_spec a 0), (Z.ltb_spec 0 0); try lia;
      match goal with
      | |- (if ?c then _ else _) = _ => destruct c eqn:E
      end; try done; apply Z.ltb_lt in E; lia.
  - rewrite py_slice_nonneg by nia.
    rewrite drop_ge by nia. by rewrite take_nil.
Qed.

End PsanaMore.

(** A run of five events in a pool of five nodes: the processing nodes of
    ranks 1 to 3 get 2, 2 and 1 events, the node of rank 4 gets none. *)
Lemma offline_slice_length_witness :
  Psana.events_curr_node (seqZ 0 5) 4 5 = Some []
  /\ Psana.events_curr_node (seqZ 0 5) 3 5 = Some [4].
Proof.
  split.
  - destruct (offline_slice_length (seqZ 0 5) 5 4 ltac:(lia) ltac:(lia))
      as (num & sl & Hnum & Hsl & _ & Hnil).
    rewrite Hsl. f_equal. apply Hnil.
    vm_compute in Hnum. injection Hnum as <-. vm_compute. discriminate.
  - vm_compute. reflexivity.
Defined.

(** The collecting node of a pool of four nodes asking for events. *)
Lemma offline_slice_outside_pool_witness :
  Psana.events_curr_node (seqZ 0 11) 0 4 = Some []
  /\ Psana.events_curr_node (seqZ 0 11) 4 4 = Some [].
Proof.
  split.
  - apply (offline_slice_outside_pool (seqZ 0 11) 4 0); [lia | by left].
  - apply (offline_slice_outside_pool (seqZ 0 11) 4 4); [lia | right; lia].
Defined.

(** ** The psana source string *)

Section SourceFacts.

Import PsanaHandler.

Lemma length_append_idx (s : string) :
  (4 <= String.length (s +:+ ":idx"))%nat.
Proof. induction s as [|c s IH]; simpl; lia. Qed.

Lemma py_last_append_idx (s : string) : py_last 4 (s +:+ ":idx") = ":idx".
Proof.
  unfold py_last. induction s as [|c s IH]; [reflexivity|].
  pose proof (length_append_idx s) as Hlen.
  change (String c s +:+ ":idx") with (String c (s +:+ ":idx")).
  change (String.length (String c (s +:+ ":idx")))
    with (S (String.length (s +:+ ":idx"))).
  replace (S (String.length (s +:+ ":idx")) - 4)%nat
    with (S (String.length (s +:+ ":idx") - 4)) by lia.
  exact IH.
Qed.

(** A needle without a colon starts [s +:+ ":idx"] exactly when it starts
    [s]. *)
Lemma prefix_append_idx (p s : string) :
  p <> EmptyString ->
  contains ":" p = false ->
  String.prefix p (s +:+ ":idx") = String.prefix p s.
Proof.
  revert p. induction s as [|c s IH]; intros p Hp Hcolon.
  - destruct p as [|a p]; [done|].
    change (EmptyString +:+ ":idx") with ":idx".
    cbn -[Ascii.ascii_dec] in *.
    match type of Hcolon with
    | context [Ascii.ascii_dec ?x ?y] =>
        destruct (Ascii.ascii_dec x y) as [Heq | Hne]
    end.
    + by destruct p.
    + match goal with
      | |- context [Ascii.ascii_dec ?x ?y] =>
          destruct (Ascii.ascii_dec x y) as [Heq' | _]
      end; [by destruct Hne | done].
  - destruct p as [|a p]; [done|].
    change (String c s +:+ ":idx") with (String c (s +:+ ":idx")).
    cbn -[Ascii.ascii_dec] in *.
    destruct (Ascii.ascii_dec a c) as [_|_]; [|done].
    destruct p as [|b p]; [by destruct s|].
    apply IH; [done|]. apply orb_false_iff in Hcolon as [_ H].
    exact H.
Qed.

(** A needle without a colon that is not inside ["idx"] is found in
    [s +:+ ":idx"] exactly when it is found in [s]. *)
Lemma contains_append_idx (p s : string) :
  p <> EmptyString ->
  contains ":" p = false ->
  contains p "idx" = false ->
  contains p (s +:+ ":idx") = contains p s.
Proof.
  intros Hp Hcolon Hidx. induction s as [|c s IH].
  - change (contains p (EmptyString +:+ ":idx"))
      with (String.prefix p ":idx" || contains p "idx").
    pose proof (prefix_append_idx p EmptyString Hp Hcolon) as H.
    change (EmptyString +:+ ":idx") with ":idx" in H.
    rewrite Hidx, H. by destruct p.
  - change (String c s +:+ ":idx") with (String c (s +:+ ":idx")).
    change (contains p (String c (s +:+ ":idx")))
      with (String.prefix p (String c (s +:+ ":idx"))
            || contains p (s +:+ ":idx")).
    change (contains p (String c s))
      with (String.prefix p (String c s) || contains p s).
    rewrite IH. f_equal.
    apply (prefix_append_idx p (String c s) Hp Hcolon).
Qed.

Lemma length_append (s t : string) :
  String.length (s +:+ t) = (String.length s + String.length t)%nat.
Proof.
  induction s as [|c s IH]; [done|].
  change (S (String.length (s +:+ t)) = S (String.length s + String.length t)).
  by rewrite IH.
Qed.

Lemma append_idx_longer (s : string) : s +:+ ":idx" <> s.
Proof.
  intros H. apply (f_equal String.length) in H.
  rewrite length_append in H. cbn in H. lia.
Qed.

(** X5: the source string of a psana handler.  A source is online exactly
    when it names a shared memory server.  After the first statements of
    [event_generator] an online source is as it was, an offline source that
    ends with [:idx] is as it was, and any other offline source is the old
    one followed by [:idx]; so an offline source always ends with [:idx],
    and it is changed exactly when it did not.  The suffix does not change
    whether the source is online, and going through the statements again,
    as a second call of the generator does, changes nothing more. *)
Theorem event_generator_source_idx :
  forall source : string,
    let r := event_generator_source source in
    r.1 = negb (contains "shmem" source)
    /\ (r.1 = false -> r.2 = source)
    /\ (r.1 = true -> py_last 4 source = ":idx" -> r.2 = source)
    /\ (r.1 = true -> py_last 4 source <> ":idx" -> r.2 = source +:+ ":idx")
    /\ (r.2 <> source <-> r.1 = true /\ py_last 4 source <> ":idx")
    /\ (if r.1 then py_last 4 r.2 = ":idx" else r.2 = source)
    /\ contains "shmem" r.2 = contains "shmem" source
    /\ event_generator_source r.2 = r.
Proof.
  intros source r. subst r. unfold event_generator_source.
  assert (contains "shmem" (source +:+ ":idx") = contains "shmem" source)
    as Hsh by (by apply contains_append_idx).
  pose proof (append_idx_longer source) as Hlong.
  destruct (contains "shmem" source) eqn:Hc; cbn [negb andb fst snd].
  - rewrite Hc. cbn [negb andb]. repeat split; try done.
    by intros [? _].
  - destruct (String.eqb_spec (py_last 4 source) ":idx") as [Heq | Hne];
      cbn [negb andb fst snd].
    + rewrite Hc. cbn [negb andb]. rewrite Heq. cbn.
      repeat split; try done. by intros [_ ?].
    + rewrite Hsh. cbn [negb andb]. rewrite py_last_append_idx. cbn.
      repeat split; try done.
Qed.

End SourceFacts.

(** ** [extract_data] of the psana handler *)

Section ExtractFacts.

Import PsanaHandler.

Variable py_repr : string -> string.
Variable subscript_error : pyval -> PyExc.

(** The loop over the required sources, when it ends well. *)
Lemma extract_required_ok self names event data data' :
  extract_required py_repr self names event data = Extracted data' ->
  dom data' = dom data ∪ list_to_set names
  /\ (forall n, n ∈ names ->
        exists v, get_data_of py_repr self n event = inl v
                  /\ data' !! n = Some v)
  /\ (forall k, k ∉ names -> data' !! k = data !! k).
Proof.
  revert data. induction names as [|n names IH]; intros data H; simpl in H.
  - injection H as <-.
    split; [by rewrite list_to_set_nil, (right_id_L ∅ (∪))|]. split; [|done].
    intros n Hn. by apply elem_of_nil in Hn.
  - destruct (get_data_of py_repr self n event) as [v|exc] eqn:Hget;
      [|by destruct (exc_is_Exception exc)].
    destruct (IH _ H) as (Hdom & Hin & Hout).
    split.
    { rewrite Hdom, dom_insert_L, list_to_set_cons.
      by rewrite (comm_L (∪) {[n]} (dom data)), <- (assoc_L (∪)). }
    split.
    + intros m Hm. destruct (decide (m ∈ names)) as [Hmn | Hmn].
      * by apply Hin.
      * apply elem_of_cons in Hm as [-> | Hm]; [|done].
        exists v. split; [done|]. by rewrite Hout, lookup_insert_eq.
    + intros k Hk. apply not_elem_of_cons in Hk as [Hkn Hk].
      by rewrite Hout, lookup_insert_ne.
Qed.

(** The loop over the required sources, when it raises: the first source
    that fails decides, by the class of its exception. *)
Lemma extract_required_raised self names event data :
  match extract_required py_repr self names event data with
  | Extracted _ => True
  | OmDataExtractionError msg =>
      exists pre n post exc,
        names = pre ++ n :: post
        /\ Forall (source_succeeds py_repr self event) pre
        /\ get_data_of py_repr self n event = inr exc
        /\ exc_is_Exception exc = true
        /\ msg = extraction_message n exc
  | Uncaught exc =>
      exists pre n post,
        names = pre ++ n :: post
        /\ Forall (source_succeeds py_repr self event) pre
        /\ get_data_of py_repr self n event = inr exc
        /\ exc_is_Exception exc = false
  end.
Proof.
  revert data. induction names as [|n names IH]; intros data; simpl; [done|].
  destruct (get_data_of py_repr self n event) as [v|exc] eqn:Hget.
  - specialize (IH (<[n := v]> data)).
    destruct (extract_required py_repr self names event _) as [d|msg|exc];
      [done| |].
    + destruct IH as (pre & m & post & exc & -> & Hpre & Hm & Hexc & ->).
      exists (n :: pre), m, post, exc. split; [done|].
      split; [|done]. constructor; [by exists v | done].
    + destruct IH as (pre & m & post & -> & Hpre & Hm & Hexc).
      exists (n :: pre), m, post. split; [done|].
      split; [|done]. constructor; [by exists v | done].
  - destruct (exc_is_Exception exc) eqn:Hexc.
    + by exists [], n, names, exc.
    + by exists [], n, names.
Qed.

(** The loop over the LCLS-specific sources. *)
Lemma extract_lcls_cases items event acc :
  match extract_lcls items event acc with
  | inl _ => Forall (fun p => exists v, p.2 event = inl v) items
  | inr exc =>
      exists pre name source post,
        items = pre ++ (name, source) :: post
        /\ Forall (fun p => exists v, p.2 event = inl v) pre
        /\ source event = inr exc
  end.
Proof.
  revert acc. induction items as [|[name source] items IH]; intros acc; simpl.
  - done.
  - destruct (source event) as [v|exc] eqn:Hs.
    + specialize (IH (assoc_set acc name v)).
      destruct (extract_lcls items event _) as [extra|exc].
      * constructor; [by exists v | done].
      * destruct IH as (pre & name' & source' & post & -> & Hpre & Hs').
        exists ((name, source) :: pre), name', source', post.
        split; [done|]. split; [|done]. constructor; [by exists v | done].
    + exists [], name, source, items. done.
Qed.

(** X6: the data a successful [extract_data] returns.  Its keys are
    ["timestamp"], the names of the required sources and, when LCLS-specific
    sources are configured, ["lcls_extra"]; under ["timestamp"] sits the
    timestamp stored in the event (unless a required source has that name);
    under the name of a required source sits what the source gives for the
    event; under ["lcls_extra"] sits a dictionary. *)
Theorem extract_data_keys :
  forall (self : PsanaDataEventHandler) (event data : Dict),
    extract_data py_repr subscript_error self event = Extracted data ->
    exists ts,
      timestamp_of py_repr subscript_error event = inl ts
      /\ dom data
         = {["timestamp"]} ∪ list_to_set (_required_data_sources self)
           ∪ (if has_lcls_extra self then {["lcls_extra"]} else ∅)
      /\ ("timestamp" ∉ _required_data_sources self ->
          data !! "timestamp" = Some ts)
      /\ (forall n, n ∈ _required_data_sources self -> n <> "lcls_extra" ->
            exists v, get_data_of py_repr self n event = inl v
                      /\ data !! n = Some v)
      /\ (has_lcls_extra self = true ->
          exists extra, data !! "lcls_extra" = Some (VDict extra)).
Proof.
  intros self event data. unfold extract_data, has_lcls_extra.
  destruct (timestamp_of py_repr subscript_error event) as [ts|exc]; [|done].
  destruct (extract_required py_repr self _ event _) as [data0|msg|exc]
    eqn:Hreq; [|done|done].
  destruct (extract_required_ok _ _ _ _ _ Hreq) as (Hdom & Hin & Hout).
  rewrite dom_insert_L, dom_empty_L, (right_id_L ∅ (∪)) in Hdom.
  intros H. exists ts. split; [done|].
  destruct (_lcls_extra self) as [[|item items]|].
  - injection H as <-. split; [by rewrite (right_id_L ∅ (∪))|].
    split; [intros Hn; by rewrite Hout, lookup_insert_eq|].
    split; [intros n Hn _; by apply Hin | done].
  - destruct (extract_lcls (item :: items) event []) as [extra|exc]; [|done].
    injection H as <-. split.
    { rewrite dom_insert_L, Hdom.
      by rewrite (comm_L (∪) {["lcls_extra"]}). }
    split.
    { intros Hn. rewrite lookup_insert_ne by done.
      by rewrite Hout, lookup_insert_eq. }
    split.
    { intros n Hn Hne. destruct (Hin n Hn) as (v & Hv & Hd).
      exists v. split; [done|]. by rewrite lookup_insert_ne. }
    intros _. exists extra. by rewrite lookup_insert_eq.
  - injection H as <-. split; [by rewrite (right_id_L ∅ (∪))|].
    split; [intros Hn; by rewrite Hout, lookup_insert_eq|].
    split; [intros n Hn _; by apply Hin | done].
Qed.

(** The first required source that fails decides, by the class of its
    exception. *)
Lemma extract_data_first_failure self event ts pre n post exc :
  timestamp_of py_repr subscript_error event = inl ts ->
  _required_data_sources self = pre ++ n :: post ->
  Forall (source_succeeds py_repr self event) pre ->
  get_data_of py_repr self n event = inr exc ->
  extract_data py_repr subscript_error self event
  = if exc_is_Exception exc
    then OmDataExtractionError (extraction_message n exc)
    else Uncaught exc.
Proof.
  intros Hts Hreq Hpre Hn. unfold extract_data. rewrite Hts, Hreq.
  generalize (<["timestamp" := ts]> (∅ : Dict)). clear Hreq.
  induction Hpre as [|m pre (v & Hm) _ IH]; intros data; simpl.
  - rewrite Hn. by destruct (exc_is_Exception exc).
  - rewrite Hm. apply IH.
Qed.

(** X7: which failures [extract_data] turns into an
    [OmDataExtractionError].  It does so when the first required source, in
    the order of iteration, that raises or is missing fails with an
    exception whose class derives from [Exception], and the message names
    that source and the exception.  An exception of that source of another
    class, such as [KeyboardInterrupt] or [SystemExit], a timestamp missing
    from the event, and an exception raised by an LCLS-specific source are
    not caught and leave the method as they are.  The method returns data
    exactly when the timestamp is there and every source gives a value. *)
Theorem extract_data_outcomes :
  forall (self : PsanaDataEventHandler) (event : Dict),
    match extract_data py_repr subscript_error self event with
    | Extracted _ =>
        (exists ts, timestamp_of py_repr subscript_error event = inl ts)
        /\ Forall (source_succeeds py_repr self event)
                  (_required_data_sources self)
        /\ Forall (fun p => exists v, p.2 event = inl v)
                  (default [] (_lcls_extra self))
    | OmDataExtractionError msg =>
        (exists ts, timestamp_of py_repr subscript_error event = inl ts)
        /\ exists pre n post exc,
             _required_data_sources self = pre ++ n :: post
             /\ Forall (source_succeeds py_repr self event) pre
             /\ get_data_of py_repr self n event = inr exc
             /\ exc_is_Exception exc = true
             /\ msg = extraction_message n exc
    | Uncaught exc =>
        timestamp_of py_repr subscript_error event = inr exc
        \/ ((exists ts, timestamp_of py_repr subscript_error event = inl ts)
            /\ exists pre n post,
                 _required_data_sources self = pre ++ n :: post
                 /\ Forall (source_succeeds py_repr self event) pre
                 /\ get_data_of py_repr self n event = inr exc
                 /\ exc_is_Exception exc = false)
        \/ ((exists ts, timestamp_of py_repr subscript_error event = inl ts)
            /\ Forall (source_succeeds py_repr self event)
                      (_required_data_sources self)
            /\ exists pre name source post,
                 _lcls_extra self = Some (pre ++ (name, source) :: post)
                 /\ Forall (fun p => exists v, p.2 event = inl v) pre
                 /\ source event = inr exc)
    end
    /\ forall ts pre n post exc,
         timestamp_of py_repr subscript_error event = inl ts ->
         _required_data_sources self = pre ++ n :: post ->
         Forall (source_succeeds py_repr self event) pre ->
         get_data_of py_repr self n event = inr exc ->
         extract_data py_repr subscript_error self event
         = if exc_is_Exception exc
           then OmDataExtractionError (extraction_message n exc)
           else Uncaught exc.
Proof.
  intros self event.
  split; [|intros ts pre n post exc; apply extract_data_first_failure].
  unfold extract_data.
  destruct (timestamp_of py_repr subscript_error event) as [ts|exc];
    [|by left].
  pose proof (extract_required_raised self (_required_data_sources self) event
                (<["timestamp" := ts]> ∅)) as Hraised.
  destruct (extract_required py_repr self _ event _) as [data0|msg|exc]
    eqn:Hreq.
  - assert (Forall (source_succeeds py_repr self event)
              (_required_data_sources self)) as Hall.
    { destruct (extract_required_ok _ _ _ _ _ Hreq) as (_ & Hin & _).
      apply Forall_forall. intros n Hn. destruct (Hin n Hn) as (v & Hv & _).
      by exists v. }
    destruct (_lcls_extra self) as [[|item items]|] eqn:Hl.
    + split; [by exists ts|]. split; [done|]. simpl. done.
    + pose proof (extract_lcls_cases (item :: items) event []) as Hc.
      destruct (extract_lcls (item :: items) event []) as [extra|exc].
      * split; [by exists ts|]. done.
      * right. right. split; [by exists ts|]. split; [done|].
        destruct Hc as (pre & name & source & post & -> & Hpre & Hs).
        by exists pre, name, source, post.
    + split; [by exists ts|]. split; [done|]. simpl. done.
  - split; [by exists ts | exact Hraised].
  - right. left. split; [by exists ts | exact Hraised].
Qed.

End ExtractFacts.

(** The example handler on the example event: the timestamp and the detector
    data. *)
Lemma extract_data_keys_witness :
  let data : Dict :=
    <["detector_data" := VObject 1]> (<["timestamp" := VFloat 3 0]> ∅) in
  PsanaHandler.extract_data PsanaHandler.example_repr
    PsanaHandler.example_subscript_error PsanaHandler.example_handler
    PsanaHandler.example_event = PsanaHandler.Extracted data
  /\ dom data = {["timestamp"]} ∪ {["detector_data"]} ∪ ∅.
Proof.
  assert (PsanaHandler.extract_data PsanaHandler.example_repr
            PsanaHandler.example_subscript_error PsanaHandler.example_handler
            PsanaHandler.example_event
          = PsanaHandler.Extracted
              (<["detector_data" := VObject 1]> (<["timestamp" := VFloat 3 0]> ∅)))
    as H.
  { unfold PsanaHandler.extract_data, PsanaHandler.timestamp_of,
      PsanaHandler.example_event.
    rewrite lookup_singleton_eq. simpl.
    unfold PsanaHandler.get_data_of. simpl.
    unfold PsanaHandler.example_sources. rewrite lookup_insert_eq. done. }
  split; [exact H|].
  destruct (extract_data_keys _ _ _ _ _ H) as (ts & _ & Hdom & _).
  rewrite Hdom. simpl. by rewrite (right_id_L ∅ (∪)).
Defined.

(** A [KeyboardInterrupt] raised while a required source is read is not
    turned into an [OmDataExtractionError]. *)
Lemma interrupt_goes_through :
  PsanaHandler.extract_data PsanaHandler.example_repr
    PsanaHandler.example_subscript_error PsanaHandler.interrupted_handler
    PsanaHandler.example_event
  = PsanaHandler.Uncaught
      (PsanaHandler.mkExc "KeyboardInterrupt" EmptyString false).
Proof.
  unfold PsanaHandler.extract_data, PsanaHandler.timestamp_of,
    PsanaHandler.example_event.
  rewrite lookup_singleton_eq. simpl.
  unfold PsanaHandler.get_data_of. simpl.
  by rewrite lookup_singleton_eq.
Qed.

(** ** The [lcls_extra] entry *)

Section LclsExtraFacts.

Import PsanaHandler.

Variable py_str : pyval -> string.
Hypothesis py_str_str : forall s, py_str (VStr s) = s.

(** An assignment to a name replaces what the dictionary held for it. *)
Lemma dict_of_assignments_snoc (log : Assignments) (name : string) (d : Detector) :
  dict_of_assignments (log ++ [(VStr name, d)])
  = <[name := d]> (dict_of_assignments log).
Proof. unfold dict_of_assignments. by rewrite foldl_app. Qed.

(** The inner loop on one item. *)
Lemma entries_loop_spec (a b c : pyval) (log : Assignments) :
  match item_fields (VList [a; b; c]) with
  | Some (data_type, identifier, name) =>
      exists log',
        entries_loop py_str [a; b; c] a b c log = inl log'
        /\ dict_of_assignments log'
           = <[name := mkDetector (kind_of data_type) ("psana-" +:+ identifier)]>
               (dict_of_assignments log)
  | None =>
      entries_loop py_str [a; b; c] a b c log
      = inr RaiseOmWrongParameterTypeError
      \/ (entries_loop py_str [a; b; c] a b c log = inr RaiseTypeError
          /\ is_hashable c = false
          /\ exists data_type, a = VStr data_type
                               /\ detector_for py_str a b <> None)
  end.
Proof.
  destruct a as [| | | |data_type| | | |]; try (by left).
  assert (forall det,
            detector_for py_str (VStr data_type) b = Some det ->
            match (match b, c with
                   | VStr identifier, VStr name =>
                       Some (data_type, identifier, name)
                   | _, _ => None
                   end) with
            | Some (data_type, identifier, name) =>
                exists log',
                  entries_loop py_str [VStr data_type; b; c]
                               (VStr data_type) b c log = inl log'
                  /\ dict_of_assignments log'
                     = <[name := det]> (dict_of_assignments log)
            | None =>
                entries_loop py_str [VStr data_type; b; c]
                             (VStr data_type) b c log
                = inr RaiseOmWrongParameterTypeError
                \/ (entries_loop py_str [VStr data_type; b; c]
                                 (VStr data_type) b c log = inr RaiseTypeError
                    /\ is_hashable c = false
                    /\ exists data_type0,
                         VStr data_type = VStr data_type0
                         /\ detector_for py_str (VStr data_type) b <> None)
            end) as Hsupported.
  { intros det Hdet.
    destruct b as [| | | |identifier| | | |], c as [| | | |name| | | |];
      cbn -[detector_for]; rewrite ?Hdet; cbn -[detector_for];
      rewrite ?Hdet; cbn -[detector_for]; rewrite ?Hdet;
      try (by left);
      try (right; split; [done|]; split; [done|];
           eexists; split; [reflexivity | discriminate]).
    eexists. split; [reflexivity|].
    rewrite !dict_of_assignments_snoc. by rewrite !insert_insert_eq. }
  unfold item_fields, kind_of.
  destruct (String.eqb data_type "acqiris_waveform") eqn:E1;
    [|destruct (String.eqb data_type "epics_pv") eqn:E2;
      [|destruct (String.eqb data_type "wave8_total_intensity") eqn:E3]];
    simpl orb; cbv iota.
  - assert (detector_for py_str (VStr data_type) b
            = Some (mkDetector AcqirisDetector ("psana-" +:+ py_str b)))
      as Hdet by (unfold detector_for, py_eq_str; by rewrite E1).
    specialize (Hsupported _ Hdet).
    destruct b as [| | | |identifier| | | |], c as [| | | |name| | | |];
      try exact Hsupported.
    rewrite py_str_str in Hsupported. rewrite ?E1, ?E2, ?E3.
    exact Hsupported.
  - assert (detector_for py_str (VStr data_type) b
            = Some (mkDetector EpicsVariablePsana ("psana-" +:+ py_str b)))
      as Hdet by (unfold detector_for, py_eq_str; by rewrite E1, E2).
    specialize (Hsupported _ Hdet).
    destruct b as [| | | |identifier| | | |], c as [| | | |name| | | |];
      try exact Hsupported.
    rewrite py_str_str in Hsupported. rewrite ?E1, ?E2, ?E3.
    exact Hsupported.
  - assert (detector_for py_str (VStr data_type) b
            = Some (mkDetector Wave8Detector ("psana-" +:+ py_str b)))
      as Hdet by (unfold detector_for, py_eq_str; by rewrite E1, E2, E3).
    specialize (Hsupported _ Hdet).
    destruct b as [| | | |identifier| | | |], c as [| | | |name| | | |];
      try exact Hsupported.
    rewrite py_str_str in Hsupported. rewrite ?E1, ?E2, ?E3.
    exact Hsupported.
  - clear Hsupported.
    assert (entries_loop py_str [VStr data_type; b; c] (VStr data_type) b c log
            = inr RaiseOmWrongParameterTypeError) as ->.
    { unfold entries_loop, detector_for, py_eq_str. simpl isinstance.
      by rewrite E1, E2, E3. }
    destruct b, c; by left.
Qed.

(** The outer loop, from any list of assignments. *)
Lemma items_loop_spec (items : list pyval) (log : Assignments) :
  match mapM item_fields items with
  | Some fields =>
      exists log',
        items_loop py_str items log = inl log'
        /\ dict_of_assignments log'
           = foldl (fun d f => <[f.2 := mkDetector (kind_of f.1.1)
                                                  ("psana-" +:+ f.1.2)]> d)
                   (dict_of_assignments log) fields
  | None =>
      items_loop py_str items log = inr RaiseOmWrongParameterTypeError
      \/ (items_loop py_str items log = inr RaiseTypeError
          /\ exists pre data_type identifier name post,
               items = pre ++ VList [VStr data_type; identifier; name] :: post
               /\ is_hashable name = false
               /\ mapM item_fields pre <> None
               /\ detector_for py_str (VStr data_type) identifier <> None)
  end.
Proof.
  revert log. induction items as [|item items IH]; intros log.
  - simpl. by exists log.
  - assert ((exists a b c, item = VList [a; b; c])
            \/ (item_fields item = None
                /\ forall log0, items_loop py_str (item :: items) log0
                                = inr RaiseOmWrongParameterTypeError))
      as [(a & b & c & ->) | [Hnone Hwrong]].
    { destruct item as [| | | | | |l| |];
        try (right; split; [reflexivity | intros; reflexivity]).
      destruct l as [|a [|b [|c [|d l]]]];
        try (right; split; [reflexivity | intros; reflexivity]).
      - right. split; [by destruct a | intros; reflexivity].
      - right. split; [by destruct a, b | intros; reflexivity].
      - left. by exists a, b, c.
      - right. split; [by destruct a, b, c | intros; reflexivity]. }
    + pose proof (entries_loop_spec a b c log) as He.
      cbn [mapM]. unfold mbind, option_bind at 1.
      destruct (item_fields (VList [a; b; c])) as [[[data_type identifier] name]|]
        eqn:Hf.
      * destruct He as (log1 & He & Hd1). specialize (IH log1).
        cbn [items_loop]. rewrite He.
        destruct (mapM item_fields items) as [fields|]; simpl.
        -- destruct IH as (log' & Hl & Hd). exists log'. split; [done|].
           by rewrite Hd, Hd1.
        -- destruct IH as [IH | (IH & pre & dt & ident & nm & post & -> & Hh
                                   & Hpre & Hdet)]; [by left|].
           right. split; [done|].
           exists (VList [a; b; c] :: pre), dt, ident, nm, post.
           split; [done|]. split; [done|]. split; [|done].
           cbn [mapM]. unfold mbind, option_bind at 1. rewrite Hf.
           by destruct (mapM item_fields pre).
      * cbn [items_loop].
        destruct He as [He | (He & Hh & data_type & -> & Hdet)];
          rewrite He; [by left|].
        right. split; [done|]. exists [], data_type, b, c, items. done.
    + cbn [mapM]. unfold mbind, option_bind at 1. rewrite Hnone.
      left. apply Hwrong.
Qed.

Lemma detector_for_supported (data_type : string) (identifier : pyval) :
  detector_for py_str (VStr data_type) identifier <> None
  <-> data_type ∈ supported_kinds.
Proof.
  unfold detector_for, supported_kinds, py_eq_str.
  rewrite !elem_of_cons, elem_of_nil.
  destruct (String.eqb_spec data_type "acqiris_waveform") as [-> | H1];
    [split; [by left | done]|].
  destruct (String.eqb_spec data_type "epics_pv") as [-> | H2];
    [split; [right; by left | done]|].
  destruct (String.eqb_spec data_type "wave8_total_intensity") as [-> | H3];
    [split; [right; right; by left | done]|].
  split; [done|]. by intros [? | [? | [? | []]]].
Qed.

Lemma items_loop_app (pre rest : list pyval) (log : Assignments) :
  items_loop py_str (pre ++ rest) log
  = match items_loop py_str pre log with
    | inl log' => items_loop py_str rest log'
    | inr e => inr e
    end.
Proof.
  revert log. induction pre as [|item pre IH]; intros log; [done|].
  cbn [app items_loop].
  destruct item as [| | | | | |l| |]; try done.
  destruct l as [|a [|b [|c [|d l]]]]; try done.
  destruct (entries_loop py_str [a; b; c] a b c log) as [log1|e]; [|done].
  apply IH.
Qed.

(** A supported kind under a name that cannot be a key: the assignment made
    on the first turn of the inner loop raises [TypeError]. *)
Lemma items_loop_type_error (items : list pyval) (log : Assignments) :
  fails_on_name items -> items_loop py_str items log = inr RaiseTypeError.
Proof.
  intros (pre & data_type & identifier & name & post & -> & Hpre & Hkind & Hname).
  rewrite items_loop_app.
  pose proof (items_loop_spec pre log) as Hs.
  destruct (mapM item_fields pre) as [fields|]; [|done].
  destruct Hs as (log' & -> & _).
  apply detector_for_supported with (identifier := identifier) in Hkind.
  cbn [items_loop entries_loop isinstance negb].
  destruct (detector_for py_str (VStr data_type) identifier); [|done].
  by rewrite Hname.
Qed.

(** X8: what the [lcls_extra] entry of the configuration does to a psana
    handler.  With no entry, or an empty one, [_lcls_extra] is [None].
    Otherwise the entry is accepted exactly when every item is a list of
    three strings, the first one being [acqiris_waveform], [epics_pv] or
    [wave8_total_intensity]; [_lcls_extra] then maps each name to a source of
    the kind asked for, named [psana-] followed by the identifier, the last
    item with a name deciding.  [TypeError] is raised exactly when the first
    item that is not of that form is a list of three values that asks for a
    supported kind under a name that is a list or a dictionary; every other
    entry raises [OmWrongParameterTypeError]. *)
Theorem initialize_lcls_extra_spec :
  forall entry : option (list pyval),
    (initialize_lcls_extra py_str entry = LclsSet None
     <-> entry = None \/ entry = Some [])
    /\ (forall d,
          initialize_lcls_extra py_str entry = LclsSet (Some d)
          <-> exists items fields,
                entry = Some items /\ items <> []
                /\ mapM item_fields items = Some fields
                /\ d = expected_lcls_extra fields)
    /\ (initialize_lcls_extra py_str entry = RaiseTypeError
        <-> exists items, entry = Some items /\ fails_on_name items)
    /\ (initialize_lcls_extra py_str entry = RaiseOmWrongParameterTypeError
        <-> exists items,
              entry = Some items
              /\ mapM item_fields items = None
              /\ ~ fails_on_name items).
Proof.
  intros [[|item items]|].
  - cbn. split; [split; [by right | done]|].
    split; [intros d; split; [done | by intros (? & ? & [= <-] & ? & _)]|].
    split.
    + split; [done|].
      intros (? & [= <-] & pre & ? & ? & ? & ? & Heq & _). by destruct pre.
    + split; [done|]. by intros (? & [= <-] & ? & _).
  - unfold initialize_lcls_extra.
    pose proof (items_loop_spec (item :: items) []) as Hspec.
    pose proof (items_loop_type_error (item :: items) []) as Hname.
    destruct (mapM item_fields (item :: items)) as [fields|] eqn:Hm.
    + destruct Hspec as (log' & Hloop & Hd). rewrite Hloop in *.
      split; [split; [done | by intros [? | ?]]|].
      split.
      { intros d. split.
        - intros [= <-]. exists (item :: items), fields.
          split; [done|]. split; [done|]. split; [done|]. by rewrite Hd.
        - intros (? & fields' & [= <-] & _ & Hf & ->).
          rewrite Hm in Hf. injection Hf as <-. by rewrite Hd. }
      split.
      * split; [done|]. intros (? & [= <-] & Hbad). by specialize (Hname Hbad).
      * split; [done|]. intros (? & [= <-] & Hnone & _). by rewrite Hm in Hnone.
    + destruct Hspec
        as [Hloop | (Hloop & pre & dt & ident & nm & post & Heq & Hh & Hpre
                     & Hdet)];
        rewrite Hloop in *.
      * split; [split; [done | by intros [? | ?]]|].
        split.
        { intros d. split; [done|].
          intros (? & ? & [= <-] & _ & Hf & _). by rewrite Hm in Hf. }
        split.
        -- split; [done|].
           intros (? & [= <-] & Hbad). by specialize (Hname Hbad).
        -- split; [|done]. intros _. exists (item :: items).
           split; [done|]. split; [done|].
           intros Hbad. by specialize (Hname Hbad).
      * assert (fails_on_name (item :: items)) as Hbad.
        { exists pre, dt, ident, nm, post. split; [done|]. split; [done|].
          split; [by apply (detector_for_supported dt ident) | done]. }
        split; [split; [done | by intros [? | ?]]|].
        split.
        { intros d. split; [done|].
          intros (? & ? & [= <-] & _ & Hf & _). by rewrite Hm in Hf. }
        split.
        -- split; [|done]. intros _. by exists (item :: items).
        -- split; [done|]. by intros (? & [= <-] & _ & Hnot).
  - cbn. split; [split; [by left | done]|].
    split; [intros d; split; [done | by intros (? & ? & ? & _)]|].
    split; [split; [done | by intros (? & ? & _)]|].
    split; [done | by intros (? & ? & _)].
Qed.

End LclsExtraFacts.

(** An entry with two items for the name [tof]: the second one decides.
    An entry whose one item asks for an EPICS variable under a name that is
    a list: [TypeError]. *)
Lemma initialize_lcls_extra_spec_witness :
  PsanaHandler.initialize_lcls_extra PsanaHandler.example_str
    (Some PsanaHandler.example_lcls_entry)
  = PsanaHandler.LclsSet
      (Some {[ "tof" := PsanaHandler.mkDetector PsanaHandler.EpicsVariablePsana
                          "psana-CXI:DS1:MMS:06.RBV" ]})
  /\ PsanaHandler.initialize_lcls_extra PsanaHandler.example_str
       (Some [VList [VStr "epics_pv"; VStr "CXI:DS1:MMS:06.RBV"; VList []]])
     = PsanaHandler.RaiseTypeError.
Proof.
  split.
  - apply (proj1 (proj2 (initialize_lcls_extra_spec PsanaHandler.example_str
                           (fun s => eq_refl)
                           (Some PsanaHandler.example_lcls_entry)))).
    exists PsanaHandler.example_lcls_entry,
      [("acqiris_waveform", "CxiEndstation.0:Acqiris.0", "tof");
       ("epics_pv", "CXI:DS1:MMS:06.RBV", "tof")].
    split; [reflexivity|]. split; [discriminate|]. split; [reflexivity|].
    unfold PsanaHandler.expected_lcls_extra. cbn [foldl fst snd].
    symmetry. apply insert_insert_eq.
  - apply (proj1 (proj2 (proj2 (initialize_lcls_extra_spec
                                  PsanaHandler.example_str (fun s => eq_refl)
                                  (Some [VList [VStr "epics_pv";
                                                VStr "CXI:DS1:MMS:06.RBV";
                                                VList []]]))))).
    eexists. split; [reflexivity|].
    exists [], "epics_pv", (VStr "CXI:DS1:MMS:06.RBV"), (VList []), [].
    split; [reflexivity|]. split; [discriminate|]. split; [|reflexivity].
    right. left.
Defined.

(** ** [DataEvent.extract_data] *)

Section DataEventFacts.

Import DataEvent.

Context {EventState : Type}.

Lemma extract_loop_spec (functions : list (string * ExtractionFunction))
    (self : EventState) (data0 : Dict) :
  match extract_loop functions self data0 with
  | Extracted data =>
      Forall (fun p => exists v, call p.2 self = inl v) functions
      /\ dom data = dom data0 ∪ list_to_set (map fst functions)
      /\ (forall k, k ∉ map fst functions -> data !! k = data0 !! k)
      /\ forall pre f_name func post,
           functions = pre ++ (f_name, func) :: post ->
           f_name ∉ map fst post ->
           exists v, call func self = inl v /\ data !! f_name = Some v
  | DataExtractionError msg =>
      exists pre f_name func post exc,
        functions = pre ++ (f_name, func) :: post
        /\ Forall (fun p => exists v, call p.2 self = inl v) pre
        /\ call func self = inr exc
        /\ PsanaHandler.exc_is_Exception exc = true
        /\ msg = extraction_message func exc
  | Uncaught exc =>
      exists pre f_name func post,
        functions = pre ++ (f_name, func) :: post
        /\ Forall (fun p => exists v, call p.2 self = inl v) pre
        /\ call func self = inr exc
        /\ PsanaHandler.exc_is_Exception exc = false
  end.
Proof.
  revert data0.
  induction functions as [|[f_name func] functions IH]; intros data0.
  - simpl. split; [done|].
    split; [by rewrite (right_id_L ∅ (∪))|].
    split; [done|]. intros pre f_name func post H. by destruct pre.
  - simpl. destruct (call func self) as [v|exc] eqn:Hcall.
    + specialize (IH (<[f_name := v]> data0)).
      destruct (extract_loop functions self _) as [data|msg|exc].
      * destruct IH as (Hall & Hdom & Hout & Hlast).
        split; [constructor; [by exists v | done]|].
        split.
        { rewrite Hdom, dom_insert_L, ?list_to_set_cons.
          by rewrite (comm_L (∪) {[f_name]} (dom data0)), <- (assoc_L (∪)). }
        split.
        { intros k Hk. apply not_elem_of_cons in Hk as [Hne Hk].
          by rewrite (Hout k Hk), lookup_insert_ne. }
        intros pre g_name g post Heq Hnot.
        destruct pre as [|p pre]; simpl in Heq.
        -- simplify_eq. exists v. split; [done|].
           by rewrite (Hout _ Hnot), lookup_insert_eq.
        -- simplify_eq. by apply (Hlast pre g_name g post).
      * destruct IH
          as (pre & g_name & g & post & exc & -> & Hpre & Hg & Hexc & ->).
        exists ((f_name, func) :: pre), g_name, g, post, exc.
        split; [done|]. split; [|done]. constructor; [by exists v | done].
      * destruct IH as (pre & g_name & g & post & -> & Hpre & Hg & Hexc).
        exists ((f_name, func) :: pre), g_name, g, post.
        split; [done|]. split; [|done]. constructor; [by exists v | done].
    + destruct (PsanaHandler.exc_is_Exception exc) eqn:Hexc.
      * by exists [], f_name, func, functions, exc.
      * by exists [], f_name, func, functions.
Qed.

(** X9: [DataEvent.extract_data] returns data exactly when every extraction
    function gives a value: the keys of the data are then the keys of the
    functions, with under each key what its function gave.  Otherwise the
    first function, in the order of iteration, that raises decides: when
    the class of its exception derives from [Exception], a
    [DataExtractionError] is raised, whose message carries the [__name__] of
    that function, not the key it is stored under, and the exception; an
    exception of another class, such as [KeyboardInterrupt] or
    [SystemExit], is not caught and leaves the method as it is. *)
Theorem data_event_extract_data :
  forall (functions : list (string * ExtractionFunction)) (self : EventState),
    match extract_data functions self with
    | Extracted data =>
        Forall (fun p => exists v, call p.2 self = inl v) functions
        /\ dom data = list_to_set (map fst functions)
        /\ forall pre f_name func post,
             functions = pre ++ (f_name, func) :: post ->
             f_name ∉ map fst post ->
             exists v, call func self = inl v /\ data !! f_name = Some v
    | DataExtractionError msg =>
        exists pre f_name func post exc,
          functions = pre ++ (f_name, func) :: post
          /\ Forall (fun p => exists v, call p.2 self = inl v) pre
          /\ call func self = inr exc
          /\ PsanaHandler.exc_is_Exception exc = true
          /\ msg = extraction_message func exc
    | Uncaught exc =>
        exists pre f_name func post,
          functions = pre ++ (f_name, func) :: post
          /\ Forall (fun p => exists v, call p.2 self = inl v) pre
          /\ call func self = inr exc
          /\ PsanaHandler.exc_is_Exception exc = false
    end.
Proof.
  intros functions self. unfold extract_data.
  pose proof (extract_loop_spec functions self ∅) as H.
  destruct (extract_loop functions self ∅) as [data|msg|exc]; [|done|done].
  destruct H as (Hall & Hdom & _ & Hlast).
  split; [done|]. split; [|done].
  by rewrite Hdom, dom_empty_L, (left_id_L ∅ (∪)).
Qed.

End DataEventFacts.

(** ** More on the processing nodes *)

Section WorkerMore.

Import Mpi.

Context `{Handler : OmDataEventHandler} `{Processing : OmProcessing}.

Lemma opened_app t1 t2 : opened (t1 ++ t2) = opened t1 ++ opened t2.
Proof. apply omap_app. Qed.
Lemma lifecycle_app t1 t2 : lifecycle (t1 ++ t2) = lifecycle t1 ++ lifecycle t2.
Proof. apply omap_app. Qed.

(** Quiet actions other than [open_event] leave no mark in these readings. *)
Lemma wait_if_req_lifecycle (st : Locals) :
  opened (wait_if_req st).1 = [] /\ lifecycle (wait_if_req st).1 = [].
Proof. unfold wait_if_req. by destruct (req st). Qed.

(** The inner loop opens and closes nothing. *)
Lemma frame_loop_lifecycle self event n offsets st :
  opened (frame_loop self event n offsets st).1.1 = []
  /\ lifecycle (frame_loop self event n offsets st).1.1 = [].
Proof.
  revert event st. induction offsets as [|o offsets IH]; intros event st; [done|].
  simpl. destruct (extract_data _) as [data | exc].
  - destruct (process_data _ _ _ data) as [m ps].
    pose proof (wait_if_req_lifecycle st) as [Hw1 Hw2].
    destruct (wait_if_req st) as [waits st1]. simpl in Hw1, Hw2.
    specialize (IH (<["current_frame" := VInt (n + o)]> event)
                   (mkLocals (Some (next_req st1)) (S (next_req st1)) ps)).
    destruct (frame_loop self _ n offsets _) as [[acts st'] event'].
    cbn [fst snd] in *. destruct IH as [IH1 IH2].
    change (ExtractData (<["current_frame":=VInt (n + o)]> event)
              :: ProcessData (_rank self) (_mpi_size self) data
              :: waits ++ IsendData (next_req st1) m 0 0 :: acts)
      with ([ExtractData (<["current_frame":=VInt (n + o)]> event);
             ProcessData (_rank self) (_mpi_size self) data]
              ++ waits ++ [IsendData (next_req st1) m 0 0] ++ acts).
    rewrite !opened_app, !lifecycle_app, Hw1, Hw2, IH1, IH2. done.
  - specialize (IH (<["current_frame" := VInt (n + o)]> event) st).
    destruct (frame_loop self _ n offsets st) as [[acts st'] event'].
    cbn [fst snd] in *. exact IH.
Qed.

(** One event: opened, then closed. *)
Lemma process_event_lifecycle self event st :
  opened (process_event self event st).1 = [event]
  /\ lifecycle (process_event self event st).1 = [true; false].
Proof.
  unfold process_event.
  pose proof (frame_loop_lifecycle self (open_event event)
                (get_num_frames_in_event (open_event event))
                (py_range (- num_frames_to_process self
                               (get_num_frames_in_event (open_event event))) 0)
                st) as [Hf1 Hf2].
  destruct (frame_loop self _ _ _ st) as [[acts st1] event'].
  pose proof (wait_if_req_lifecycle st1) as [Hw1 Hw2].
  destruct (wait_if_req st1) as [waits st2]. cbn [fst snd] in *.
  change (OpenEvent event :: acts ++ waits ++ [CloseEvent event'])
    with ([OpenEvent event] ++ acts ++ waits ++ [CloseEvent event']).
  rewrite !opened_app, !lifecycle_app, Hf1, Hf2, Hw1, Hw2. done.
Qed.

(** [shutdown] opens and closes nothing and sends no data. *)
Lemma shutdown_lifecycle self msg :
  opened (shutdown self msg []).1 = []
  /\ lifecycle (shutdown self msg []).1 = []
  /\ sent (shutdown self msg []).1 = [].
Proof.
  unfold shutdown. destruct (_rank self =? 0); [|done]. simpl.
  rewrite app_nil_r. unfold opened, lifecycle, sent. simpl.
  induction (py_range 1 (_mpi_size self)) as [|r l IH]; done.
Qed.

(** The outer loop: the events before a [DIE] is seen are opened and closed
    in turn, the others are not touched. *)
Lemma event_loop_lifecycle self events st :
  opened (event_loop self events st).1.1 = events_before_die events
  /\ lifecycle (event_loop self events st).1.1
     = concat (replicate (length (events_before_die events)) [true; false]).
Proof.
  revert st. induction events as [|[die event] events IH]; intros st; [done|].
  simpl. destruct die.
  - pose proof (shutdown_lifecycle self
                  ("Shutting down RANK: " ++ pretty (_rank self) ++ "."))
      as (H1 & H2 & _).
    by destruct (shutdown self _ []) as [acts out].
  - pose proof (process_event_lifecycle self event st) as [Hp1 Hp2].
    destruct (process_event self event st) as [acts st1].
    specialize (IH st1).
    destruct (event_loop self events st1) as [[acts' st'] out].
    cbn [fst snd] in *. destruct IH as [IH1 IH2].
    rewrite opened_app, lifecycle_app, Hp1, Hp2, IH1, IH2. done.
Qed.

Lemma finish_lifecycle self st :
  opened (finish self st) = [] /\ lifecycle (finish self st) = [].
Proof.
  unfold finish.
  by destruct (end_processing_on_processing_node _ _ _) as [[d|] ps].
Qed.

(** X10: the order of [open_event] and [close_event] on a processing node
    whose [extract_data] raises nothing but [OmDataExtractionError], the one
    exception the loop catches (another exception leaves [start] at once and
    is outside this statement).  The events handed to [open_event] are the
    events the generator yields before a [DIE] message is seen, in order,
    and no others; each of them is closed before the next one is opened and
    before the probe that finds the [DIE], so that the calls of [open_event]
    and [close_event] strictly alternate. *)
Theorem events_opened_and_closed :
  forall (self : MpiParallelization) (events : list (bool * Event))
         (ps0 : PState),
    let tr := (start_processing self events ps0).1 in
    opened tr = events_before_die events
    /\ lifecycle tr
       = concat (replicate (length (events_before_die events)) [true; false]).
Proof.
  intros self events ps0 tr. subst tr. unfold start_processing.
  pose proof (event_loop_lifecycle self events (mkLocals None 0%nat ps0))
    as [He1 He2].
  destruct (event_loop self events _) as [[acts st] [code|]];
    cbn [fst snd] in *.
  - done.
  - pose proof (finish_lifecycle self st) as [Hf1 Hf2].
    change (InitializeProcessingNode (_rank self) (_mpi_size self)
              :: acts ++ finish self st)
      with ([InitializeProcessingNode (_rank self) (_mpi_size self)]
              ++ acts ++ finish self st).
    rewrite !opened_app, !lifecycle_app, He1, He2, Hf1, Hf2. simpl.
    by rewrite !app_nil_r.
Qed.

(** Events that come with no [DIE] are processed one after the other. *)
Lemma event_loop_app self pre rest st :
  Forall (fun p : bool * Event => p.1 = false) pre ->
  event_loop self (pre ++ rest) st
  = let '(acts, st1, _) := event_loop self pre st in
    let '(acts', st2, out) := event_loop self rest st1 in
    (acts ++ acts', st2, out).
Proof.
  intros Hpre. revert st.
  induction Hpre as [|[die event] pre Hdie _ IH]; intros st.
  - simpl. by destruct (event_loop self rest st) as [[? ?] ?].
  - simpl in Hdie. subst die. simpl.
    destruct (process_event self event st) as [acts st1].
    rewrite IH.
    destruct (event_loop self pre st1) as [[acts1 st2] out1].
    destruct (event_loop self rest st2) as [[acts2 st3] out2].
    by rewrite (assoc_L (++)).
Qed.

Lemma event_loop_no_die self events st :
  Forall (fun p : bool * Event => p.1 = false) events ->
  (event_loop self events st).2 = None.
Proof.
  intros Hev. revert st.
  induction Hev as [|[die event] events Hdie _ IH]; intros st; [done|].
  simpl in Hdie. subst die. simpl.
  destruct (process_event self event st) as [acts st1].
  specialize (IH st1). by destruct (event_loop self events st1) as [[? ?] ?].
Qed.

Lemma frame_loop_runs_on self event n offsets st :
  Forall (fun a => ends_run a = false) (frame_loop self event n offsets st).1.1.
Proof.
  revert event st. induction offsets as [|o offsets IH]; intros event st; [done|].
  simpl. destruct (extract_data _) as [data | exc].
  - destruct (process_data _ _ _ data) as [m ps].
    unfold wait_if_req.
    destruct (req st) as [r|];
      match goal with
      | |- context [frame_loop self ?e n offsets ?st'] =>
          specialize (IH e st');
          destruct (frame_loop self e n offsets st') as [[acts st''] event']
      end; by repeat constructor.
  - specialize (IH (<["current_frame" := VInt (n + o)]> event) st).
    destruct (frame_loop self _ n offsets st) as [[acts st'] event'].
    by repeat constructor.
Qed.

Lemma process_event_runs_on self event st :
  Forall (fun a => ends_run a = false) (process_event self event st).1.
Proof.
  unfold process_event.
  pose proof (frame_loop_runs_on self (open_event event)
                (get_num_frames_in_event (open_event event))
                (py_range (- num_frames_to_process self
                               (get_num_frames_in_event (open_event event))) 0)
                st) as Hf.
  destruct (frame_loop self _ _ _ st) as [[acts st1] event'].
  unfold wait_if_req. cbn [fst snd] in *.
  destruct (req st1); cbn [fst];
    (constructor; [done|]; apply Forall_app; split; [done|];
     by repeat constructor).
Qed.

(** Before the events are used up, or a [DIE] is seen, nothing ends the
    run. *)
Lemma event_loop_runs_on self events st :
  Forall (fun p : bool * Event => p.1 = false) events ->
  Forall (fun a => ends_run a = false) (event_loop self events st).1.1.
Proof.
  intros Hev. revert st.
  induction Hev as [|[die event] events Hdie _ IH]; intros st; [done|].
  simpl in Hdie. subst die. simpl.
  pose proof (process_event_runs_on self event st) as Hp.
  destruct (process_event self event st) as [acts st1].
  specialize (IH st1). destruct (event_loop self events st1) as [[acts' st'] out].
  cbn [fst snd] in *. apply Forall_app. done.
Qed.

(** X11: a [DIE] message on a processing node.  When the probe made on
    reaching an event finds a [DIE] message, the run of the node is the run
    over the events before it followed by the start of [shutdown]: the
    message is printed, and the call meant to send the [DEAD] confirmation
    raises [TypeError], which leaves [start] uncaught.  So no confirmation is
    sent, [MPI.Finalize()] and [exit(0)] are not reached, that event and the
    events after it are never opened, [end_processing_on_processing_node] is
    not called, and the messages sent are those of the events before. *)
Theorem die_stops_the_node :
  forall (self : MpiParallelization) (pre : list (bool * Event))
         (event : Event) (rest : list (bool * Event)) (ps0 : PState),
    _rank self <> 0 ->
    Forall (fun p : bool * Event => p.1 = false) pre ->
    let before := (event_loop self pre (mkLocals None 0%nat ps0)).1.1 in
    let r := start_processing self (pre ++ (true, event) :: rest) ps0 in
    r = (InitializeProcessingNode (_rank self) (_mpi_size self)
           :: before
           ++ [Print ("Shutting down: Shutting down RANK: "
                      +:+ pretty (_rank self) +:+ ".")],
         Raised "TypeError")
    /\ Forall (fun a => ends_run a = false) r.1
    /\ sent r.1 = sent before
    /\ opened r.1 = map snd pre.
Proof.
  intros self pre event rest ps0 Hrank Hpre before r.
  assert (r = (InitializeProcessingNode (_rank self) (_mpi_size self)
                 :: before
                 ++ [Print ("Shutting down: Shutting down RANK: "
                            +:+ pretty (_rank self) +:+ ".")],
               Raised "TypeError")) as Heq.
  { subst r. unfold start_processing. rewrite (event_loop_app self pre _ _ Hpre).
    subst before.
    destruct (event_loop self pre _) as [[acts st1] out1]. simpl.
    unfold shutdown. destruct (Z.eqb_spec (_rank self) 0) as [?|_]; [done|].
    done. }
  split; [exact Heq|]. rewrite Heq. cbn [fst].
  split.
  { constructor; [done|]. apply Forall_app. split; [|by repeat constructor].
    subst before. by apply event_loop_runs_on. }
  change (InitializeProcessingNode (_rank self) (_mpi_size self) :: before ++ ?l)
    with ([InitializeProcessingNode (_rank self) (_mpi_size self)]
            ++ before ++ l).
  split.
  - do 2 rewrite sent_app. simpl. by rewrite app_nil_r.
  - do 2 rewrite opened_app. simpl. rewrite app_nil_r.
    subst before. clear Heq r.
    generalize (mkLocals None 0%nat ps0). intros st.
    pose proof (event_loop_lifecycle self pre st) as [H _]. rewrite H.
    clear H. induction Hpre as [|[die ev] pre Hdie _ IH]; [done|].
    simpl in Hdie. subst die. simpl. by rewrite IH.
Qed.

(** X12: what a processing node that is not told to die sends.  After the
    payloads of its events come the final payload, when
    [end_processing_on_processing_node] returns one, and then the [END]
    sentinel, both with the rank of the node; the sentinel is the last
    message of the node, the collecting node takes it for a termination
    record, and the node exits with status 0. *)
Theorem node_ends_with_sentinel :
  forall (self : MpiParallelization) (events : list (bool * Event))
         (ps0 : PState),
    Forall (fun p : bool * Event => p.1 = false) events ->
    let r := event_loop self events (mkLocals None 0%nat ps0) in
    let final :=
      (end_processing_on_processing_node (_rank self) (_mpi_size self)
         (pstate r.1.2)).1 in
    sent (start_processing self events ps0).1
    = sent r.1.1
      ++ match final with Some d => [(d, _rank self)] | None => [] end
      ++ [(end_dict, _rank self)]
    /\ is_end (end_dict, _rank self) = true
    /\ last (start_processing self events ps0).1 = Some (Exit 0)
    /\ (start_processing self events ps0).2 = Exited 0.
Proof.
  intros self events ps0 Hev r final. subst r final.
  unfold start_processing.
  pose proof (event_loop_no_die self events (mkLocals None 0%nat ps0) Hev) as Hout.
  destruct (event_loop self events _) as [[acts st] out].
  cbn [fst snd] in *. subst out.
  split; [|split; [reflexivity|split; [|reflexivity]]].
  - cbn [fst].
    change (InitializeProcessingNode (_rank self) (_mpi_size self)
              :: acts ++ finish self st)
      with ([InitializeProcessingNode (_rank self) (_mpi_size self)]
              ++ acts ++ finish self st).
    do 2 rewrite sent_app. simpl. f_equal. unfold finish.
    by destruct (end_processing_on_processing_node _ _ _) as [[d|] ps].
  - cbn [fst]. rewrite last_cons, last_app. unfold finish.
    by destruct (end_processing_on_processing_node _ _ _) as [[d|] ps].
Qed.

(** X13: events of one frame, as the psana handler has them
    ([get_num_frames_in_event] returns 1).  For such an event the loop
    extracts frame 0 and nothing else, and sends at most one payload; it
    extracts nothing at all when the configured number of frames to process
    is below 1. *)
Theorem one_frame_events :
  forall (self : MpiParallelization) (event : Event) (st : Locals),
    get_num_frames_in_event (open_event event)
    = PsanaHandler.get_num_frames_in_event (open_event event) ->
    let tr := (process_event self event st).1 in
    frames_visited tr
    = match _num_frames_in_event_to_process self with
      | Some limit => if limit <? 1 then [] else [VInt 0]
      | None => [VInt 0]
      end
    /\ (length (sent tr) <= 1)%nat.
Proof.
  intros self event st Hn tr.
  destruct (process_event_spec self event st) as (_ & E2 & _ & E4 & _).
  fold tr in E2, E4. rewrite Hn in E2, E4.
  unfold PsanaHandler.get_num_frames_in_event, num_frames_to_process in E2, E4.
  assert (forall ps ds, (length (payloads self ps ds) <= length ds)%nat) as Hlen.
  { intros ps ds. revert ps. induction ds as [|d ds IH]; intros ps; [done|].
    simpl. destruct (process_data _ _ ps d) as [m ps']. simpl.
    specialize (IH ps'). lia. }
  assert (forall evs, (length (extractable evs) <= length evs)%nat) as Hext.
  { intros evs. unfold extractable.
    induction evs as [|ev evs IH]; [done|].
    simpl. destruct (extract_data ev); simpl;
      [apply le_n_S | apply le_S]; exact IH. }
  rewrite E2, E4. split.
  - destruct (_num_frames_in_event_to_process self) as [limit|]; [|done].
    destruct (Z.ltb_spec limit 1).
    + unfold last_frames. rewrite seqZ_nil; [done | lia].
    + by replace (Z.min 1 limit) with 1 by lia.
  - etrans; [apply Hlen|]. etrans; [apply Hext|].
    rewrite length_map. unfold last_frames. rewrite length_seqZ.
    destruct (_num_frames_in_event_to_process self) as [limit|]; lia.
Qed.

End WorkerMore.

(** A node of rank 1 that finds a [DIE] message on reaching its second
    event: the five frames of the first event are sent, the second event is
    not opened, and the run ends in a [TypeError]. *)
Lemma die_stops_the_node_witness :
  let r := @Mpi.start_processing Mpi.example_handler Mpi.example_processing
             (Mpi.init 1 2 None)
             ([(false, Mpi.example_event)] ++ [(true, Mpi.example_bad_event)])
             0 in
  r.2 = Mpi.Raised "TypeError"
  /\ Forall (fun a => Mpi.ends_run a = false) r.1
  /\ Mpi.opened r.1 = [Mpi.example_event]
  /\ length (Mpi.sent r.1) = 5%nat.
Proof.
  destruct (@die_stops_the_node Mpi.example_handler Mpi.example_processing
              (Mpi.init 1 2 None) [(false, Mpi.example_event)]
              Mpi.example_bad_event [] 0)
    as (H1 & H2 & H3 & H4).
  - simpl. lia.
  - repeat constructor.
  - split; [by rewrite H1|]. split; [exact H2|]. split; [exact H4|].
    rewrite H3. vm_compute. reflexivity.
Defined.

(** A node of rank 1 with one event of five frames and a limit of two
    frames: two payloads, the final payload, the sentinel. *)
Lemma node_ends_with_sentinel_witness :
  let r := @Mpi.start_processing Mpi.example_handler Mpi.example_processing
             (Mpi.init 1 2 (Some 2)) [(false, Mpi.example_event)] 0 in
  length (Mpi.sent r.1) = 4%nat
  /\ last (Mpi.sent r.1) = Some (Mpi.end_dict, 1)
  /\ last r.1 = Some (Mpi.Exit 0)
  /\ r.2 = Mpi.Exited 0.
Proof.
  destruct (@node_ends_with_sentinel Mpi.example_handler Mpi.example_processing
              (Mpi.init 1 2 (Some 2)) [(false, Mpi.example_event)] 0)
    as (H1 & _ & H3 & H4).
  - repeat constructor.
  - split; [rewrite H1; vm_compute; reflexivity|].
    split; [rewrite H1; vm_compute; reflexivity|].
    split; [exact H3 | exact H4].
Defined.

(** An event of the psana kind under a node with no limit on the frames. *)
Lemma one_frame_events_witness :
  let tr := (@Mpi.process_event PsanaOnMpi.one_frame_handler
               Mpi.example_processing (Mpi.init 1 2 None)
               PsanaOnMpi.psana_event Mpi.example_locals).1 in
  Mpi.frames_visited tr = [VInt 0]
  /\ (length (Mpi.sent tr) <= 1)%nat.
Proof.
  apply (@one_frame_events PsanaOnMpi.one_frame_handler Mpi.example_processing
           (Mpi.init 1 2 None) PsanaOnMpi.psana_event Mpi.example_locals).
  reflexivity.
Defined.

(** ** More on the collecting node *)

Section CollectingMore.

Import Mpi.

Lemma data_messages_cons (m : Message) (msgs : list Message) :
  data_messages (m :: msgs)
  = if is_end m then data_messages msgs else m :: data_messages msgs.
Proof.
  unfold data_messages. rewrite filter_cons.
  destruct (is_end m); case_decide; done.
Qed.

Lemma data_messages_app (l1 l2 : list Message) :
  data_messages (l1 ++ l2) = data_messages l1 ++ data_messages l2.
Proof. unfold data_messages. apply filter_app. Qed.

Lemma shutdown_collects_nothing self msg obs :
  collected (shutdown self msg obs).1 = [].
Proof.
  unfold shutdown. destruct (_rank self =? 0); [|done].
  pose proof (shutdown_confirm_loop_collects_nothing self 0 obs) as H.
  destruct (shutdown_confirm_loop self 0 obs) as [acts out]. cbn [fst] in *.
  change (collected (map (fun node_num => IsendDie node_num _DIETAG)
                         (py_range 1 (_mpi_size self)) ++ acts) = []).
  rewrite collected_app, H, app_nil_r.
  induction (py_range 1 (_mpi_size self)) as [|r l IHl]; done.
Qed.

(** X15: the collecting node hands the data messages to [collect_data] in
    the order of their arrival, and counts them: [_num_collected_events]
    grows by the number of calls.  When the [END] messages received complete
    the count, the messages collected are the data messages received before
    the [END] that completes it; otherwise they are all the data messages
    received before an interrupt. *)
Theorem collected_in_arrival_order :
  forall (self : MpiParallelization) (incoming : list Incoming),
    let r := collecting_loop self incoming in
    _num_collected_events (state_of r)
    = _num_collected_events self + Z.of_nat (length (collected (trace_of r)))
    /\ (reaches_all_ends self (received incoming) ->
        exists pre m post,
          received incoming = pre ++ m :: post
          /\ is_end m = true
          /\ _num_nomore self + count_end (pre ++ [m]) = _mpi_size self - 1
          /\ collected (trace_of r) = data_messages pre)
    /\ (~ reaches_all_ends self (received incoming) ->
        collected (trace_of r) = data_messages (received incoming)).
Proof.
  intros self incoming. cbv zeta. revert self.
  induction incoming as [|i incoming IH]; intros self.
  - cbn. split; [lia|]. split; [by intros ?%reaches_nil | done].
  - destruct i as [m | exc obs].
    + cbn [collecting_loop received].
      change (dict_has_key m.1 "end") with (is_end m).
      destruct (is_end m) eqn:Hm.
      * cbn [_num_nomore set_num_nomore _mpi_size].
        destruct (Z.eqb_spec (_num_nomore self + 1) (_mpi_size self - 1))
          as [Heq | Hne].
        -- cbn. split; [lia|]. split.
           ++ intros _. exists [], m, (received incoming).
              split; [done|]. split; [done|]. split; [|done].
              cbn. rewrite count_end_cons, Hm. unfold count_end. cbn. lia.
           ++ intros Hn. exfalso. apply Hn.
              exists [], m, (received incoming).
              split; [done|]. split; [done|].
              cbn. rewrite count_end_cons, Hm. unfold count_end. cbn. lia.
        -- specialize (IH (set_num_nomore self (_num_nomore self + 1))).
           destruct (collecting_loop _ incoming) as [[self' acts] out].
           unfold state_of, trace_of in *. cbn [fst snd] in *.
           destruct IH as (Hn & Hyes & Hno).
           change (collected (Print ("Finalizing " ++ pretty m.2) :: acts))
             with (collected acts).
           split; [exact Hn|]. split.
           ++ intros Hr.
              apply (proj1 (reaches_cons_end self m (received incoming) Hm Hne))
                in Hr.
              destruct (Hyes Hr) as (pre & m' & post & Heq & Hm' & Hc & Hcol).
              exists (m :: pre), m', post.
              split; [by rewrite Heq|]. split; [done|]. split.
              ** cbn in Hc. cbn. rewrite count_end_cons, Hm. lia.
              ** by rewrite data_messages_cons, Hm.
           ++ intros Hr. rewrite data_messages_cons, Hm. apply Hno.
              intros Hr'. apply Hr.
              by apply (proj2 (reaches_cons_end self m (received incoming)
                                 Hm Hne)).
      * specialize (IH (set_num_collected_events self
                          (_num_collected_events self + 1))).
        destruct (collecting_loop _ incoming) as [[self' acts] out].
        unfold state_of, trace_of in *. cbn [fst snd] in *.
        destruct IH as (Hn & Hyes & Hno).
        match goal with
        | |- context [collected (?a :: acts)] =>
            change (collected (a :: acts)) with (m :: collected acts)
        end.
        split; [cbn in Hn; cbn [length]; lia|]. split.
        -- intros Hr.
           apply (proj1 (reaches_cons_data self m (received incoming)
                           (_num_collected_events self + 1) Hm)) in Hr.
           destruct (Hyes Hr) as (pre & m' & post & Heq & Hm' & Hc & Hcol).
           exists (m :: pre), m', post.
           split; [by rewrite Heq|]. split; [done|]. split.
           ++ cbn in Hc. cbn. rewrite count_end_cons, Hm. lia.
           ++ by rewrite data_messages_cons, Hm, Hcol.
        -- intros Hr. rewrite data_messages_cons, Hm. f_equal. apply Hno.
           intros Hr'. apply Hr.
           by apply (proj2 (reaches_cons_data self m (received incoming)
                              (_num_collected_events self + 1) Hm)).
    + cbn [collecting_loop received].
      pose proof (shutdown_collects_nothing self "Reason not provided." obs) as H.
      destruct (shutdown self "Reason not provided." obs) as [acts out].
      unfold state_of, trace_of. cbn [fst snd] in *.
      change (collected (Print "Received keyboard sigterm..." :: Print exc
                           :: Print "shutting down MPI." :: acts))
        with (collected acts).
      rewrite H. cbn. split; [lia|]. split; [by intros ?%reaches_nil | done].
Qed.

End CollectingMore.

Section CompleteRun.

Import Mpi.

Lemma interleaving_nil_inv {A : Type} (ls : list (list A)) :
  Interleaving ls [] -> Forall (fun l => l = []) ls.
Proof. by inversion 1. Qed.

Lemma interleaving_filter {A : Type} (P : A -> Prop) `{!forall x, Decision (P x)}
    (ls : list (list A)) (m : list A) :
  Interleaving ls m -> Interleaving (map (filter P) ls) (filter P m).
Proof.
  induction 1 as [ls Hnil | pre x l post m _ IH].
  - apply interleaving_done. apply Forall_fmap.
    eapply Forall_impl; [exact Hnil|]. by intros l ->.
  - rewrite map_app in *. cbn [map] in *. rewrite !filter_cons.
    case_decide; [by apply interleaving_step | exact IH].
Qed.

Lemma interleaving_length {A : Type} (ls : list (list A)) (m : list A) :
  Interleaving ls m -> length m = sum_list_with length ls.
Proof.
  induction 1 as [ls Hnil | pre x l post m _ IH].
  - induction Hnil as [|l ls -> _ IHl]; [done|]. cbn. by rewrite <- IHl.
  - cbn [length]. rewrite IH, !sum_list_with_app. cbn. lia.
Qed.

Lemma interleaving_last {A : Type} (ls : list (list A)) (m : list A) :
  Interleaving ls m -> m <> [] -> exists l, l ∈ ls /\ last l = last m.
Proof.
  induction 1 as [ls Hnil | pre x l post m Hm IH]; [done|]. intros _.
  destruct m as [|y m].
  - apply interleaving_nil_inv in Hm.
    apply Forall_app in Hm as [_ Hm]. apply Forall_cons in Hm as [-> _].
    exists [x]. split; [|done]. apply elem_of_app. right. by left.
  - destruct IH as (l' & Hin & Hlast); [done|].
    change (last (x :: y :: m)) with (last (y :: m)).
    apply elem_of_app in Hin as [Hin | Hin].
    { exists l'. split; [|done]. apply elem_of_app. by left. }
    apply elem_of_cons in Hin as [-> | Hin].
    + exists (x :: l). split; [apply elem_of_app; right; by left|].
      destruct l as [|z l]; [|exact Hlast].
      symmetry in Hlast. by apply last_None in Hlast.
    + exists l'. split; [|done]. apply elem_of_app. right. by right.
Qed.

Lemma data_messages_none (msgs : list Message) :
  Forall (fun m => is_end m = false) msgs -> data_messages msgs = msgs.
Proof.
  induction 1 as [|m msgs Hm _ IH]; [done|].
  by rewrite data_messages_cons, Hm, IH.
Qed.

Lemma count_end_none (msgs : list Message) :
  Forall (fun m => is_end m = false) msgs -> count_end msgs = 0.
Proof.
  induction 1 as [|m msgs Hm _ IH]; [done|].
  by rewrite count_end_cons, Hm, IH.
Qed.

Lemma count_end_data (msgs : list Message) :
  count_end msgs + Z.of_nat (length (data_messages msgs))
  = Z.of_nat (length msgs).
Proof.
  induction msgs as [|m msgs IH]; [done|].
  rewrite count_end_cons, data_messages_cons.
  destruct (is_end m); cbn [length]; lia.
Qed.

(** The collecting loop fed with messages whose last one is the [END] that
    completes the count. *)
Lemma collecting_loop_complete self body e rest :
  is_end e = true ->
  _num_nomore self + count_end body + 1 = _mpi_size self - 1 ->
  outcome_of (collecting_loop self (map Recv (body ++ [e]) ++ rest)) = Exited 0
  /\ collected (trace_of (collecting_loop self (map Recv (body ++ [e]) ++ rest)))
     = data_messages body
  /\ flush_count
       (trace_of (collecting_loop self (map Recv (body ++ [e]) ++ rest)))
     = 1%nat
  /\ last (trace_of (collecting_loop self (map Recv (body ++ [e]) ++ rest)))
     = Some (Exit 0)
  /\ _num_collected_events
       (state_of (collecting_loop self (map Recv (body ++ [e]) ++ rest)))
     = _num_collected_events self + Z.of_nat (length (data_messages body)).
Proof.
  intros He. revert self. induction body as [|m body IH]; intros self Hc.
  - cbn [app map collecting_loop].
    change (dict_has_key e.1 "end") with (is_end e). rewrite He.
    cbn [_num_nomore set_num_nomore _mpi_size].
    unfold count_end in Hc. cbn in Hc.
    destruct (Z.eqb_spec (_num_nomore self + 1) (_mpi_size self - 1)); [|lia].
    cbn. repeat split; lia.
  - rewrite count_end_cons in Hc. pose proof (count_end_nonneg body) as Hnn.
    cbn [app map collecting_loop].
    change (dict_has_key m.1 "end") with (is_end m).
    rewrite data_messages_cons.
    destruct (is_end m) eqn:Hm.
    + cbn [_num_nomore set_num_nomore _mpi_size].
      destruct (Z.eqb_spec (_num_nomore self + 1) (_mpi_size self - 1)); [lia|].
      specialize (IH (set_num_nomore self (_num_nomore self + 1))).
      destruct IH as (H1 & H2 & H3 & H4 & H5); [cbn; lia|].
      destruct (collecting_loop _ (map Recv (body ++ [e]) ++ rest))
        as [[self' acts] out].
      unfold state_of, trace_of, outcome_of in *. cbn [fst snd] in *.
      split; [done|]. split; [exact H2|]. split.
      { by rewrite flush_count_cons. }
      split; [|exact H5].
      destruct acts; [done | exact H4].
    + specialize (IH (set_num_collected_events self
                        (_num_collected_events self + 1))).
      destruct IH as (H1 & H2 & H3 & H4 & H5); [cbn; lia|].
      destruct (collecting_loop _ (map Recv (body ++ [e]) ++ rest))
        as [[self' acts] out].
      unfold state_of, trace_of, outcome_of in *. cbn [fst snd] in *.
      split; [done|]. split.
      { match goal with
        | |- context [collected (?a :: acts)] =>
            change (collected (a :: acts)) with (m :: collected acts)
        end. by rewrite H2. }
      split; [by rewrite flush_count_cons|].
      split; [destruct acts; [done | exact H4]|].
      cbn in H5. cbn [length]. lia.
Qed.

Lemma complete_streams_count_end (streams : list (list Message)) :
  Forall complete_stream streams ->
  sum_list_with length (map (filter (fun m => is_end m = true)) streams)
  = length streams.
Proof.
  induction 1 as [|s streams (data & e & -> & Hd & He) _ IH]; [done|].
  cbn [map sum_list_with length]. rewrite IH.
  assert (count_end (data ++ [e]) = 1) as Hone.
  { by rewrite count_end_app, (count_end_none _ Hd), count_end_cons, He. }
  unfold count_end in Hone. lia.
Qed.

(** X16: a complete run seen from the collecting node.  Each of the
    [mpi_size - 1] processing nodes sends its data messages and then one
    [END]; the messages arrive interleaved in some way.  Then the collecting
    node collects every data message, in an order that keeps each node's
    own order, counts them, makes the final flush once and exits with 0;
    what arrives afterwards is not looked at. *)
Theorem complete_run_collects_everything :
  forall (mpi_size : Z) (lim : option Z) (streams : list (list Message))
         (msgs : list Message) (rest : list Incoming),
    Forall complete_stream streams ->
    Z.of_nat (length streams) = mpi_size - 1 ->
    2 <= mpi_size ->
    Interleaving streams msgs ->
    let r := start_collecting (init 0 mpi_size lim) (map Recv msgs ++ rest) in
    outcome_of r = Exited 0
    /\ flush_count (trace_of r) = 1%nat
    /\ last (trace_of r) = Some (Exit 0)
    /\ collected (trace_of r) = data_messages msgs
    /\ Interleaving (map data_messages streams) (collected (trace_of r))
    /\ _num_collected_events (state_of r)
       = Z.of_nat (length msgs) - (mpi_size - 1).
Proof.
  intros mpi_size lim streams msgs rest Hstreams Hlen Hsize Hint r.
  assert (count_end msgs = mpi_size - 1) as Hcount.
  { unfold count_end.
    rewrite (interleaving_length _ _
               (interleaving_filter (fun m => is_end m = true) _ _ Hint)).
    by rewrite complete_streams_count_end. }
  assert (exists body e, msgs = body ++ [e] /\ is_end e = true)
    as (body & e & -> & He).
  { destruct (interleaving_last _ _ Hint) as (l & Hin & Hlast).
    { intros ->. unfold count_end in Hcount. cbn in Hcount. lia. }
    rewrite Forall_forall in Hstreams.
    destruct (Hstreams l Hin) as (data & e' & -> & _ & He').
    rewrite last_snoc in Hlast. symmetry in Hlast.
    apply last_Some in Hlast as (body & ->). by exists body, e'. }
  rewrite count_end_app, count_end_cons, He in Hcount.
  unfold count_end at 2 in Hcount. cbn in Hcount.
  destruct (collecting_loop_complete (init 0 mpi_size lim) body e rest He)
    as (H1 & H2 & H3 & H4 & H5); [cbn; lia|].
  assert (data_messages (body ++ [e]) = data_messages body) as Hdata.
  { by rewrite data_messages_app, data_messages_cons, He, app_nil_r. }
  pose proof (count_end_data body) as Hcd.
  subst r. unfold start_collecting.
  destruct (collecting_loop _ (map Recv (body ++ [e]) ++ rest))
    as [[self' acts] out].
  unfold state_of, trace_of, outcome_of in *. cbn [fst snd] in *.
  split; [done|]. split; [by rewrite !flush_count_cons|].
  split; [destruct acts; [done | exact H4]|].
  match goal with
  | |- context [collected (?a :: ?b :: acts)] =>
      change (collected (a :: b :: acts)) with (collected acts)
  end.
  rewrite Hdata. split; [done|]. split.
  - rewrite H2, <- Hdata.
    apply (interleaving_filter (fun m => is_end m = false) _ _ Hint).
  - rewrite H5, length_app. cbn. lia.
Qed.

End CompleteRun.

Lemma example_data_is_data (rank : Z) :
  Mpi.is_end ({[ "peak_count" := VInt 12 ]}, rank) = false.
Proof. reflexivity. Qed.

Lemma example_end_is_end (rank : Z) : Mpi.is_end (Mpi.end_dict, rank) = true.
Proof. reflexivity. Qed.

(** Two processing nodes, of two and of one data message; a message that
    arrives after the last [END] is left alone. *)
Lemma complete_run_collects_everything_witness :
  let d : Dict := {[ "peak_count" := VInt 12 ]} in
  let r := Mpi.start_collecting (Mpi.init 0 3 None)
             (map Mpi.Recv [(d, 1); (d, 2); (Mpi.end_dict, 2); (d, 1);
                            (Mpi.end_dict, 1)]
              ++ [Mpi.Recv (d, 2)]) in
  Mpi.outcome_of r = Mpi.Exited 0
  /\ Mpi.collected (Mpi.trace_of r) = [(d, 1); (d, 2); (d, 1)]
  /\ Mpi.flush_count (Mpi.trace_of r) = 1%nat
  /\ Mpi._num_collected_events (Mpi.state_of r) = 3.
Proof.
  intros d.
  destruct (complete_run_collects_everything 3 None
              [[(d, 1); (d, 1); (Mpi.end_dict, 1)]; [(d, 2); (Mpi.end_dict, 2)]]
              [(d, 1); (d, 2); (Mpi.end_dict, 2); (d, 1); (Mpi.end_dict, 1)]
              [Mpi.Recv (d, 2)])
    as (H1 & H2 & _ & H4 & _ & H6).
  - constructor; [|constructor; [|constructor]].
    + exists [(d, 1); (d, 1)], (Mpi.end_dict, 1). split; [reflexivity|].
      split; [|apply example_end_is_end].
      repeat constructor; apply example_data_is_data.
    + exists [(d, 2)], (Mpi.end_dict, 2). split; [reflexivity|].
      split; [|apply example_end_is_end].
      repeat constructor; apply example_data_is_data.
  - reflexivity.
  - lia.
  - apply (Mpi.interleaving_step [] (d, 1) [(d, 1); (Mpi.end_dict, 1)]
             [[(d, 2); (Mpi.end_dict, 2)]]).
    apply (Mpi.interleaving_step [[(d, 1); (Mpi.end_dict, 1)]] (d, 2)
             [(Mpi.end_dict, 2)] []).
    apply (Mpi.interleaving_step [[(d, 1); (Mpi.end_dict, 1)]] (Mpi.end_dict, 2)
             [] []).
    apply (Mpi.interleaving_step [] (d, 1) [(Mpi.end_dict, 1)] [[]]).
    apply (Mpi.interleaving_step [] (Mpi.end_dict, 1) [] [[]]).
    apply Mpi.interleaving_done. repeat constructor.
  - intros r. split; [exact H1|]. split; [|split; [exact H2 | exact H6]].
    etrans; [exact H4|].
    rewrite !data_messages_cons, !example_data_is_data, !example_end_is_end.
    reflexivity.
Defined.

Section ShutdownMore.

Import Mpi.

Lemma received_discards (d : bool) (a : Action) :
  a ∈ (if d then [RecvDiscard] else []) -> a = RecvDiscard.
Proof.
  destruct d; [by intros ?%list_elem_of_singleton | by intros ?%elem_of_nil].
Qed.

Lemma shutdown_confirm_loop_finalize self c obs :
  (MpiFinalize ∈ (shutdown_confirm_loop self c obs).1 ->
   _mpi_size self - 1 <= c + dead_count obs)
  /\ (MpiAbort 0 ∈ (shutdown_confirm_loop self c obs).1 -> RuntimeError ∈ obs).
Proof.
  revert c. induction obs as [|o obs IH]; intros c.
  - cbn. split; by intros ?%elem_of_nil.
  - rewrite dead_count_cons. destruct o as [d dd|]; cbn.
    + set (c' := if dd then c + 1 else c).
      assert (c + (if dd then 1 else 0) = c') as Hc'
        by (subst c'; destruct dd; lia).
      destruct (Z.eqb_spec c' (_mpi_size self - 1)) as [Heq | Hne].
      * cbn. split; [intros _; unfold dead_count; lia|].
        intros [H%received_discards | H]%elem_of_app; [done|].
        rewrite !elem_of_cons, elem_of_nil in H.
        by destruct H as [H | [H | []]].
      * specialize (IH c') as [IH1 IH2].
        destruct (shutdown_confirm_loop self c' obs) as [acts out]. cbn in *.
        rewrite elem_of_cons. split.
        -- intros [H%received_discards | H]%elem_of_app; [done|].
           specialize (IH1 H). lia.
        -- intros [H%received_discards | H]%elem_of_app; [done|].
           right. by apply IH2.
    + split; [|intros _; by left].
      rewrite !elem_of_cons, elem_of_nil. by intros [H | [H | []]].
Qed.

(** X17: how [shutdown] ends on the collecting node of a pool with
    processing nodes.  The confirmation loop is left, and the process exits
    with 0, exactly when an MPI call raises [RuntimeError] or the probe for a
    [DEAD] message has succeeded [mpi_size - 1] times; until then the node
    stays in the loop.  [MPI.Finalize] is called only after that many
    successful probes, [Abort] only after a [RuntimeError]. *)
Theorem shutdown_confirmation_ends :
  forall (self : MpiParallelization) (msg : string) (obs : list ShutdownObs),
    _rank self = 0 ->
    2 <= _mpi_size self ->
    let r := shutdown self msg obs in
    (r.2 = Exited 0
     <-> RuntimeError ∈ obs \/ _mpi_size self - 1 <= dead_count obs)
    /\ (r.2 = Blocked
        <-> ~ (RuntimeError ∈ obs \/ _mpi_size self - 1 <= dead_count obs))
    /\ (MpiFinalize ∈ r.1 -> _mpi_size self - 1 <= dead_count obs)
    /\ (MpiAbort 0 ∈ r.1 -> RuntimeError ∈ obs).
Proof.
  intros self msg obs Hrank Hsize r. subst r. unfold shutdown.
  rewrite Hrank. cbn [Z.eqb].
  pose proof (shutdown_confirm_loop_outcome self 0 obs ltac:(lia)) as Hout.
  pose proof (shutdown_confirm_loop_finalize self 0 obs) as [Hfin Habort].
  pose proof (shutdown_confirm_loop_quiet self 0 obs) as [_ Hcases].
  destruct (shutdown_confirm_loop self 0 obs) as [acts out].
  cbn [fst snd] in *. rewrite Z.add_0_l in *.
  assert (forall a, (forall n t, a <> IsendDie n t) -> a <> Print ("Shutting down: " ++ msg) ->
            a ∈ Print ("Shutting down: " ++ msg)
                  :: map (fun node_num => IsendDie node_num _DIETAG)
                         (py_range 1 (_mpi_size self)) ++ acts ->
            a ∈ acts) as Hin.
  { intros a Ha Hp. rewrite elem_of_cons, elem_of_app.
    intros [? | [H | H]]; [done | | done].
    apply list_elem_of_fmap in H as (n & -> & _). by destruct (Ha n _DIETAG). }
  split; [exact Hout|]. split.
  - rewrite <- Hout. destruct Hcases as [-> | ->]; split; done.
  - split; intros H; [apply Hfin | apply Habort]; by apply Hin.
Qed.

End ShutdownMore.

(** A pool of three nodes: two successful probes for [DEAD] end the
    shutdown with [MPI.Finalize]. *)
Lemma shutdown_confirmation_ends_witness :
  let r := Mpi.shutdown (Mpi.init 0 3 None) "Reason not provided."
             [Mpi.Probed true true; Mpi.Probed false false;
              Mpi.Probed false true] in
  r.2 = Mpi.Exited 0 /\ Mpi.MpiAbort 0 ∉ r.1.
Proof.
  destruct (shutdown_confirmation_ends (Mpi.init 0 3 None) "Reason not provided."
              [Mpi.Probed true true; Mpi.Probed false false;
               Mpi.Probed false true])
    as (H1 & _ & _ & H4).
  - reflexivity.
  - cbn. lia.
  - intros r. split.
    + apply H1. right. vm_compute. discriminate.
    + intros H. apply H4 in H.
      rewrite !elem_of_cons, elem_of_nil in H.
      destruct H as [H | [H | [H | H]]]; solve [discriminate H | destruct H].
Defined.

Section PoolOfOne.

Import Mpi.

Lemma collecting_loop_never_ends self msgs :
  _mpi_size self - 1 <= _num_nomore self ->
  outcome_of (collecting_loop self (map Recv msgs)) = Blocked
  /\ flush_count (trace_of (collecting_loop self (map Recv msgs))) = 0%nat
  /\ collected (trace_of (collecting_loop self (map Recv msgs)))
     = data_messages msgs
  /\ _num_nomore (state_of (collecting_loop self (map Recv msgs)))
     = _num_nomore self + count_end msgs.
Proof.
  revert self. induction msgs as [|m msgs IH]; intros self Hc.
  - cbn. unfold count_end. cbn. repeat split; lia.
  - cbn [map collecting_loop].
    change (dict_has_key m.1 "end") with (is_end m).
    rewrite data_messages_cons, count_end_cons.
    destruct (is_end m) eqn:Hm.
    + cbn [_num_nomore set_num_nomore _mpi_size].
      destruct (Z.eqb_spec (_num_nomore self + 1) (_mpi_size self - 1)); [lia|].
      specialize (IH (set_num_nomore self (_num_nomore self + 1))).
      destruct IH as (H1 & H2 & H3 & H4); [cbn; lia|].
      destruct (collecting_loop _ (map Recv msgs)) as [[self' acts] out].
      unfold state_of, trace_of, outcome_of in *. cbn [fst snd] in *.
      split; [done|]. split; [by rewrite flush_count_cons|].
      split; [exact H3|]. cbn in H4. lia.
    + specialize (IH (set_num_collected_events self
                        (_num_collected_events self + 1))).
      destruct IH as (H1 & H2 & H3 & H4); [cbn; lia|].
      destruct (collecting_loop _ (map Recv msgs)) as [[self' acts] out].
      unfold state_of, trace_of, outcome_of in *. cbn [fst snd] in *.
      split; [done|]. split; [by rewrite flush_count_cons|].
      split; [|cbn in H4; lia].
      match goal with
      | |- context [collected (?a :: acts)] =>
          change (collected (a :: acts)) with (m :: collected acts)
      end. by rewrite H3.
Qed.

(** X18: a pool of one node.  With no processing node the count of [END]
    messages can never equal [mpi_size - 1] after an increment, so the
    collecting node, whatever it receives, never makes the final flush and
    never leaves the loop by itself. *)
Theorem pool_of_one_never_finishes :
  forall (mpi_size : Z) (lim : option Z) (msgs : list Message),
    mpi_size <= 1 ->
    let r := start_collecting (init 0 mpi_size lim) (map Recv msgs) in
    outcome_of r = Blocked
    /\ flush_count (trace_of r) = 0%nat
    /\ collected (trace_of r) = data_messages msgs
    /\ _num_nomore (state_of r) = count_end msgs.
Proof.
  intros mpi_size lim msgs Hsize r. subst r. unfold start_collecting.
  destruct (collecting_loop_never_ends (init 0 mpi_size lim) msgs)
    as (H1 & H2 & H3 & H4); [cbn; lia|].
  destruct (collecting_loop _ (map Recv msgs)) as [[self' acts] out].
  unfold state_of, trace_of, outcome_of in *. cbn [fst snd] in *.
  split; [done|]. split; [by rewrite !flush_count_cons|].
  split; [exact H3 | exact H4].
Qed.

End PoolOfOne.

(** A pool of one node that is sent an [END] message. *)
Lemma pool_of_one_never_finishes_witness :
  let r := Mpi.start_collecting (Mpi.init 0 1 None)
             (map Mpi.Recv [(Mpi.end_dict, 0)]) in
  Mpi.outcome_of r = Mpi.Blocked
  /\ Mpi.flush_count (Mpi.trace_of r) = 0%nat.
Proof.
  destruct (pool_of_one_never_finishes 1 None [(Mpi.end_dict, 0)])
    as (H1 & H2 & _); [lia|].
  intros r. split; [exact H1 | exact H2].
Defined.

(** Two runs, of three and of two events, read by a pool of three nodes. *)
Lemma offline_generator_yields_all_witness :
  exists outs,
    mapM (fun node_rank =>
            Psana._psana_offline_event_generator
              (fun run : list Z => run) (fun _ (t : Z) => t)
              [[1; 2; 3]; [4; 5]] node_rank 3)
         (Psana.processing_ranks 3) = Some outs
    /\ concat outs ≡ₚ [1; 2; 3; 4; 5].
Proof.
  apply (offline_generator_yields_all
           (fun run : list Z => run) (fun _ (t : Z) => t) [[1; 2; 3]; [4; 5]] 3).
  lia.
Defined.

(** ** The events of the psana handler *)

Section EventGeneratorFacts.

Import PsanaHandler.

Variable py_repr : string -> string.
Variable subscript_error : pyval -> PyExc.
Variable assignment_error : pyval -> PyExc.

Lemma assoc_get_set (l : list (string * pyval)) (k : string) (v : pyval) :
  assoc_get (assoc_set l k v) k = Some v.
Proof.
  induction l as [|[k' v'] l IH]; cbn.
  - by rewrite String.eqb_refl.
  - destruct (String.eqb k' k) eqn:E; cbn; [by rewrite String.eqb_refl|].
    by rewrite E.
Qed.

Lemma timestamp_of_at_frame (event : Dict) (f : Z) :
  timestamp_of py_repr subscript_error (Mpi.at_frame event f)
  = timestamp_of py_repr subscript_error event.
Proof.
  unfold timestamp_of, Mpi.at_frame. by rewrite lookup_insert_ne.
Qed.

(** What a turn of the loop that yields has done. *)
Lemma next_event_yields timestamp data_event psana_event ev :
  next_event py_repr assignment_error timestamp data_event psana_event = inl ev ->
  exists ts,
    timestamp (<["data" := psana_event]> data_event) = inl ts
    /\ ev !! "data" = Some psana_event
    /\ timestamp_of py_repr subscript_error ev = inl ts
    /\ (forall k, k <> "data" -> k <> "additional_info" ->
          ev !! k = data_event !! k).
Proof.
  unfold next_event.
  destruct (timestamp _) as [ts|exc]; [|done].
  rewrite lookup_insert_ne by done.
  destruct (data_event !! "additional_info") as [[]|] eqn:Hinfo; try done.
  intros [= <-]. exists ts. split; [done|]. split.
  { rewrite lookup_insert_ne by done. by rewrite lookup_insert_eq. }
  split.
  { unfold timestamp_of. rewrite lookup_insert_eq. by rewrite assoc_get_set. }
  intros k Hk1 Hk2. by rewrite !lookup_insert_ne.
Qed.

(** X19: an event of the psana generator under the MPI loop.  When a turn
    of the generator's loop yields, the dictionary holds the psana event
    under ["data"] and, under ["additional_info"], the timestamp that the
    timestamp source has just given; the other keys are as the consumer of
    the previous event left them.  Setting ["current_frame"], as the MPI
    loop does, leaves this as it is, so [extract_data] on such an event
    finds the timestamp: it can end with an uncaught exception only through
    a required source raising an exception whose class does not derive from
    [Exception], or through an LCLS-specific source, and the data it returns
    carry that timestamp unless a required source is called ["timestamp"]. *)
Theorem generated_event_extracts :
  forall (timestamp : DataSource) (self : PsanaDataEventHandler)
         (data_event : Dict) (psana_event : pyval) (f : Z),
    match next_event py_repr assignment_error timestamp data_event
                     psana_event with
    | inl ev =>
        exists ts,
          timestamp (<["data" := psana_event]> data_event) = inl ts
          /\ ev !! "data" = Some psana_event
          /\ (forall k, k <> "data" -> k <> "additional_info" ->
                ev !! k = data_event !! k)
          /\ timestamp_of py_repr subscript_error (Mpi.at_frame ev f) = inl ts
          /\ match extract_data py_repr subscript_error self
                                (Mpi.at_frame ev f) with
             | Extracted data =>
                 "timestamp" ∉ _required_data_sources self ->
                 data !! "timestamp" = Some ts
             | OmDataExtractionError _ => True
             | Uncaught exc =>
                 (exists n, n ∈ _required_data_sources self
                            /\ get_data_of py_repr self n (Mpi.at_frame ev f)
                               = inr exc
                            /\ exc_is_Exception exc = false)
                 \/ (exists name source,
                       (name, source) ∈ default [] (_lcls_extra self)
                       /\ source (Mpi.at_frame ev f) = inr exc)
             end
    | inr exc =>
        timestamp (<["data" := psana_event]> data_event) = inr exc
        \/ (exists ts,
              timestamp (<["data" := psana_event]> data_event) = inl ts)
           /\ forall info, data_event !! "additional_info" <> Some (VDict info)
    end.
Proof.
  intros timestamp self data_event psana_event f.
  destruct (next_event _ _ timestamp data_event psana_event) as [ev|exc] eqn:Hn.
  - destruct (next_event_yields _ _ _ _ Hn) as (ts & Hts & Hdata & Hstamp & Hk).
    exists ts. split; [done|]. split; [done|]. split; [done|].
    rewrite <- (timestamp_of_at_frame ev f) in Hstamp. split; [done|].
    unfold extract_data. rewrite Hstamp.
    pose proof (extract_required_raised py_repr self
                  (_required_data_sources self) (Mpi.at_frame ev f)
                  (<["timestamp" := ts]> ∅)) as Hraised.
    destruct (extract_required py_repr self _ _ _) as [data0|msg|exc]
      eqn:Hreq; [|done|].
    2:{ left. destruct Hraised as (pre & n & post & Heq & _ & Hget & Hexc).
        exists n. split; [|done]. rewrite Heq. apply elem_of_app. right.
        by left. }
    assert ("timestamp" ∉ _required_data_sources self ->
            data0 !! "timestamp" = Some ts) as Hd.
    { intros Hnot.
      destruct (extract_required_ok _ _ _ _ _ _ Hreq) as (_ & _ & Hout).
      by rewrite Hout, lookup_insert_eq. }
    destruct (_lcls_extra self) as [[|item items]|] eqn:Hl; [done | | done].
    pose proof (extract_lcls_cases (item :: items) (Mpi.at_frame ev f) []) as Hc.
    destruct (extract_lcls (item :: items) _ []) as [extra|exc].
    + intros Hnot. rewrite lookup_insert_ne by done. by apply Hd.
    + destruct Hc as (pre & name & source & post & Heq & _ & Hs).
      right. exists name, source. split; [|done]. cbn. rewrite Heq.
      apply elem_of_app. right. by left.
  - unfold next_event in Hn.
    destruct (timestamp _) as [ts|exc'] eqn:Hts; [|left; congruence].
    right. split; [by exists ts|]. intros info Hinfo.
    rewrite lookup_insert_ne in Hn by done. by rewrite Hinfo in Hn.
Qed.

Lemma events_loop_spec timestamp consume n data_event psana_events :
  let r := events_loop py_repr assignment_error timestamp consume n data_event
                       psana_events in
  map (fun ev => ev !! "data") r.1
  = map Some (take (length r.1) psana_events)
  /\ Forall (fun ev => exists ts,
               timestamp_of py_repr subscript_error ev = inl ts) r.1
  /\ (r.2 = None <-> length r.1 = length psana_events)
  /\ (length r.1 <= length psana_events)%nat.
Proof.
  cbv zeta. revert n data_event.
  induction psana_events as [|p ps IH]; intros n data_event; cbn.
  - repeat split; done.
  - destruct (next_event _ _ timestamp data_event p) as [ev|exc] eqn:Hn; cbn.
    + destruct (next_event_yields _ _ _ _ Hn) as (ts & _ & Hdata & Hstamp & _).
      specialize (IH (S n) (consume n ev)).
      destruct (events_loop _ _ timestamp consume (S n) (consume n ev) ps)
        as [yielded ending].
      cbn [fst snd] in *. destruct IH as (H1 & H2 & H3 & H4).
      cbn [length take map]. split; [by rewrite Hdata, H1|].
      split; [constructor; [by exists ts | done]|].
      split; [|lia]. rewrite H3. split; [by intros -> | by intros [= ?]].
    + split; [done|]. split; [done|]. split; [|lia]. split; done.
Qed.

(** X20: the run of the generator's loop.  Whatever the consumer does to
    the dictionary between two [yield]s, the generator yields the psana
    events in their order, one dictionary state per event, each with its
    timestamp in place, up to the first turn that raises; it ends without
    an exception exactly when every psana event has been yielded.  While
    the consumer leaves a dictionary under ["additional_info"] and the
    timestamp source gives a value, no turn raises. *)
Theorem events_loop_yields_in_order :
  forall (timestamp : DataSource) (consume : nat -> Dict -> Dict)
         (psana_events : list pyval),
    let r := events_loop py_repr assignment_error timestamp consume 0
                         initial_data_event psana_events in
    map (fun ev => ev !! "data") r.1 = map Some (take (length r.1) psana_events)
    /\ Forall (fun ev => exists ts,
                 timestamp_of py_repr subscript_error ev = inl ts) r.1
    /\ (r.2 = None <-> length r.1 = length psana_events)
    /\ ((forall event, exists ts, timestamp event = inl ts) ->
        (forall n event,
           (exists info, event !! "additional_info" = Some (VDict info)) ->
           exists info, consume n event !! "additional_info"
                        = Some (VDict info)) ->
        r.2 = None).
Proof.
  intros timestamp consume psana_events r. subst r.
  destruct (events_loop_spec timestamp consume 0 initial_data_event psana_events)
    as (H1 & H2 & H3 & _).
  split; [done|]. split; [done|]. split; [done|].
  intros Hts Hconsume. clear H1 H2 H3.
  assert (exists info, initial_data_event !! "additional_info"
                       = Some (VDict info)) as Hinit.
  { exists []. apply lookup_singleton_eq. }
  revert Hinit. generalize initial_data_event, 0%nat.
  induction psana_events as [|p ps IH]; intros data_event n (info & Hinfo);
    cbn; [done|].
  unfold next_event. destruct (Hts (<["data" := p]> data_event)) as (ts & ->).
  rewrite lookup_insert_ne by done. rewrite Hinfo.
  match goal with
  | |- context [consume n ?ev] => specialize (IH (consume n ev) (S n))
  end.
  destruct (events_loop _ _ timestamp consume (S n) _ ps) as [yielded ending].
  cbn [snd] in *. apply IH. apply Hconsume.
  eexists. apply lookup_insert_eq.
Qed.

End EventGeneratorFacts.

(** ** The frame buffer of the radial average viewer *)

Section ViewerFacts.

Import CrystallographyRAViewer.

Lemma length_deque_append {A : Type} (d : list A) (x : A) :
  (length d <= 20)%nat ->
  (1 <= length (deque_append 20 d x) <= 20)%nat.
Proof.
  intros Hlen. unfold deque_append.
  destruct (Nat.ltb_spec (length d) 20);
    rewrite length_app, ?length_drop; cbn; lia.
Qed.

Lemma deque_get_nonneg {A : Type} (d : list A) (i : Z) :
  0 <= i < Z.of_nat (length d) -> deque_get d i = d !! Z.to_nat i.
Proof.
  intros Hi. unfold deque_get.
  destruct (Z.ltb_spec i (- Z.of_nat (length d))); [lia|].
  destruct (Z.leb_spec (Z.of_nat (length d)) i); [lia|]. cbn.
  destruct (Z.ltb_spec i 0); [lia | done].
Qed.

Lemma deque_get_last {A : Type} (d : list A) (x : A) :
  deque_get (d ++ [x]) (Z.of_nat (length (d ++ [x])) - 1) = Some x.
Proof.
  rewrite deque_get_nonneg by (rewrite length_app; cbn; lia).
  rewrite length_app. cbn.
  apply list_lookup_middle. lia.
Qed.

Lemma update_plot_ok (self : Viewer) :
  index_ok self ->
  _update_plot self
  = match _frame_list self !! Z.to_nat (_current_frame_index self) with
    | Some current_data => [Plot current_data]
    | None => []
    end
  /\ (_update_plot self = [] <-> _frame_list self = []).
Proof.
  intros [Hlen [[Hnil Hi] | Hi]]; unfold _update_plot.
  - rewrite Hnil, Hi. cbn. done.
  - rewrite deque_get_nonneg by done.
    destruct (lookup_lt_is_Some_2 (_frame_list self)
                (Z.to_nat (_current_frame_index self))) as [f Hf]; [lia|].
    rewrite Hf. split; [done|]. split; [done|].
    intros Hnil. rewrite Hnil in Hi. cbn in Hi. lia.
Qed.

Lemma step_index_ok (self : Viewer) (h : Happening) :
  index_ok self -> index_ok (step self h).1.
Proof.
  intros [Hlen Hi]. destruct h; cbn [step fst].
  - done.
  - unfold update_gui. destruct (truthy _); [|done].
    pose proof (length_deque_append (_frame_list self) (_received_data self) Hlen).
    unfold index_ok. cbn [fst _frame_list _current_frame_index].
    split; [lia|]. right. lia.
  - unfold _back_button_clicked. cbn [fst].
    destruct (Z.ltb_spec 0 (_current_frame_index self)); [|done].
    unfold index_ok. cbn [_frame_list _current_frame_index].
    split; [done|]. right. lia.
  - unfold _forward_button_clicked. cbn [fst].
    destruct (Z.ltb_spec (_current_frame_index self + 1)
                (Z.of_nat (length (_frame_list self)))); [|done].
    unfold index_ok. cbn [_frame_list _current_frame_index].
    split; [done|]. right. lia.
Qed.

Lemma run_index_ok (self : Viewer) (hs : list Happening) :
  index_ok self -> index_ok (run self hs).1.
Proof.
  revert self. induction hs as [|h hs IH]; intros self Hok; [done|].
  cbn. pose proof (step_index_ok self h Hok) as Hstep.
  destruct (step self h) as [self1 out]. specialize (IH self1 Hstep).
  by destruct (run self1 hs) as [self' out'].
Qed.

Lemma init_index_ok : index_ok init.
Proof. split; [cbn; lia|]. by left. Qed.

(** X21: the index of the viewer always fits its buffer.  After anything
    that can happen to a viewer, in any order, the buffer holds at most 20
    frames and the current index is [-1] with an empty buffer or else names
    one of its frames, counted from the oldest; so [_update_plot] draws the
    frame at that index, and draws nothing exactly when the buffer is
    empty. *)
Theorem viewer_index_fits_buffer :
  forall (hs : list Happening),
    let self := (run init hs).1 in
    (length (_frame_list self) <= 20)%nat
    /\ ((_frame_list self = [] /\ _current_frame_index self = -1)
        \/ 0 <= _current_frame_index self < Z.of_nat (length (_frame_list self)))
    /\ _update_plot self
       = match _frame_list self !! Z.to_nat (_current_frame_index self) with
         | Some current_data => [Plot current_data]
         | None => []
         end
    /\ (_update_plot self = [] <-> _frame_list self = []).
Proof.
  intros hs self. subst self.
  pose proof (run_index_ok init hs init_index_ok) as Hok.
  destruct (update_plot_ok _ Hok) as [H1 H2]. destruct Hok as [Hlen Hi].
  done.
Qed.

Lemma lastn_short {A : Type} (n : nat) (l : list A) :
  (length l <= n)%nat -> lastn n l = l.
Proof.
  intros H. unfold lastn. by replace (length l - n)%nat with 0%nat by lia.
Qed.

Lemma length_lastn {A : Type} (n : nat) (l : list A) :
  length (lastn n l) = Nat.min n (length l).
Proof. unfold lastn. rewrite length_drop. lia. Qed.

Lemma lastn_snoc {A : Type} (l : list A) (x : A) :
  deque_append 20 (lastn 20 l) x = lastn 20 (l ++ [x]).
Proof.
  unfold deque_append. rewrite length_lastn.
  destruct (Nat.ltb_spec (Nat.min 20 (length l)) 20) as [Hlt | Hge].
  - rewrite !lastn_short; [done | rewrite length_app; cbn; lia | lia].
  - unfold lastn. rewrite drop_drop, length_app. cbn [length].
    replace (length l + 1 - 20)%nat with (length l - 20 + 1)%nat by lia.
    rewrite drop_app_le by lia. done.
Qed.

Lemma lastn_app_ge {A : Type} (n : nat) (l k : list A) :
  (n <= length k)%nat -> lastn n (l ++ k) = lastn n k.
Proof.
  intros Hn. unfold lastn. rewrite length_app, drop_app_ge by lia.
  f_equal. lia.
Qed.

Lemma lastn_lastn_app {A : Type} (l k : list A) :
  lastn 20 (lastn 20 l ++ k) = lastn 20 (l ++ k).
Proof.
  destruct (Nat.le_gt_cases (length l) 20) as [Hle | Hgt].
  - by rewrite (lastn_short 20 l).
  - symmetry. unfold lastn at 3.
    trans (lastn 20 (take (length l - 20) l ++ drop (length l - 20) l ++ k)).
    + by rewrite (assoc_L (++)), take_drop.
    + apply lastn_app_ge. rewrite length_app, length_drop. lia.
Qed.

Lemma run_frame_list (self : Viewer) (hs : list Happening) :
  (length (_frame_list self) <= 20)%nat ->
  _frame_list (run self hs).1
  = lastn 20 (_frame_list self ++ taken (_received_data self) hs).
Proof.
  revert self. induction hs as [|h hs IH]; intros self Hlen.
  - cbn. by rewrite app_nil_r, lastn_short.
  - cbn [run taken]. destruct h; cbn [step].
    + specialize (IH (mkViewer (_frame_list self) (_current_frame_index self)
                               data) Hlen).
      by destruct (run _ hs) as [self' out'].
    + unfold update_gui. destruct (truthy (_received_data self)).
      * match goal with
        | |- context [run ?v hs] => specialize (IH v)
        end.
        cbn [_frame_list _received_data] in IH.
        destruct (run _ hs) as [self' out']. cbn [fst] in *.
        rewrite IH by (apply length_deque_append; done).
        rewrite <- (lastn_short 20 (_frame_list self)) at 1 by done.
        rewrite lastn_snoc, lastn_lastn_app, <- (assoc_L (++)). done.
      * specialize (IH self Hlen). by destruct (run self hs) as [self' out'].
    + unfold _back_button_clicked.
      match goal with
      | |- context [run ?v hs] => specialize (IH v)
      end.
      destruct (0 <? _current_frame_index self);
        cbn [_frame_list _received_data] in IH;
        destruct (run _ hs) as [self' out']; by apply IH.
    + unfold _forward_button_clicked.
      match goal with
      | |- context [run ?v hs] => specialize (IH v)
      end.
      destruct (_current_frame_index self + 1 <? _);
        cbn [_frame_list _received_data] in IH;
        destruct (run _ hs) as [self' out']; by apply IH.
Qed.

(** X22: what the buffer of the viewer holds.  After anything that can
    happen to a viewer, the buffer holds, oldest first, the last 20 of the
    data that the calls of [update_gui] have found in [_received_data]
    (fewer when fewer were found); the clicks on the buttons change nothing
    in it.  A call of [update_gui] that finds data stores them as the newest
    frame, draws that frame and empties [_received_data]; one that finds
    none does nothing. *)
Theorem viewer_keeps_last_frames :
  forall (hs : list Happening),
    let self := (run init hs).1 in
    _frame_list self = lastn 20 (taken ∅ hs)
    /\ match update_gui self with
       | (self', out) =>
           if truthy (_received_data self) then
             last (_frame_list self') = Some (_received_data self)
             /\ _current_frame_index self'
                = Z.of_nat (length (_frame_list self')) - 1
             /\ out = [Plot (_received_data self)]
             /\ _received_data self' = ∅
           else self' = self /\ out = []
       end.
Proof.
  intros hs self. subst self. split.
  - apply (run_frame_list init hs). cbn. lia.
  - unfold update_gui. destruct (truthy _); [|done].
    cbn [_frame_list _current_frame_index _received_data].
    unfold _update_plot, deque_append.
    cbn [_frame_list _current_frame_index].
    destruct (_ <? _)%nat; rewrite deque_get_last, last_snoc; done.
Qed.

End ViewerFacts.
